(** * prompt-fab: bidirectional string templates

    A shallow embedding of [prompt_fab/templates.py].  A template renders
    data to text ([fill]) and parses text back to data ([_match], [match_]).

    Layout of the development:
    - Python outcomes (normal return, raised exception) as a small monad;
    - Python values (None, str, int, bool, tuple, list, dict);
    - the part of the [re] module the templates use: compilation of a
      pattern string and an anchored, greedy, backtracking match;
    - the template classes, their constructors, [fill] and [_match];
    - the properties of the templates. *)

From Stdlib Require Import ZArith String Ascii List Bool Lia Arith.
From Stdlib Require Import DecimalString DecimalPos DecimalZ.
Import ListNotations.

#[local] Open Scope string_scope.
#[local] Open Scope Z_scope.

(** Induction principles that reach through the lists, pairs and options
    nested in values and templates. *)
Scheme All for list.
Scheme All for prod.
Scheme All for option.

(* ================================================================== *)
(** ** Outcomes of a call *)

(** The exceptions the module can raise. [re_error] is [re.error]. *)
Inductive exn : Set :=
| AttributeError | KeyError | TypeError | ValueError | IndexError | re_error.

(** Why an evaluation of the model stopped without a Python outcome:
    the loop budget of a [while] was used up, or the input left the part
    of Python this development describes (regular-expression syntax beyond
    the subset of [re_compile], [str] of a container). *)
Inductive stuck : Set := OutOfFuel | Unmodelled.

Inductive res (A : Type) : Type :=
| Ok (a : A)
| Raise (e : exn)
| Stuck (w : stuck).

Arguments Ok {A} a.
Arguments Raise {A} e.
Arguments Stuck {A} w.

Definition bind {A B : Type} (m : res A) (f : A -> res B) : res B :=
  match m with
  | Ok a => f a
  | Raise e => Raise e
  | Stuck w => Stuck w
  end.

Notation "x <- m ;; k" := (bind m (fun x => k))
  (at level 61, m at next level, right associativity).
Notation "' p <- m ;; k" := (bind m (fun x => let p := x in k))
  (at level 61, p pattern, m at next level, right associativity).

Fixpoint mapM {A B : Type} (f : A -> res B) (l : list A) : res (list B) :=
  match l with
  | [] => Ok []
  | a :: l' => b <- f a ;; bs <- mapM f l' ;; Ok (b :: bs)
  end.

(* ================================================================== *)
(** ** Strings *)

Definition nl : ascii := "010"%char.
Definition EOL_text : string := String nl EmptyString.

Definition len (s : string) : Z := Z.of_nat (String.length s).

Fixpoint drop (n : nat) (s : string) : string :=
  match n, s with
  | O, _ => s
  | S n', String _ s' => drop n' s'
  | S _, EmptyString => EmptyString
  end.

Fixpoint take (n : nat) (s : string) : string :=
  match n, s with
  | O, _ => EmptyString
  | S n', String c s' => String c (take n' s')
  | S _, EmptyString => EmptyString
  end.

(** [sep.join(parts)] *)
Fixpoint join (sep : string) (parts : list string) : string :=
  match parts with
  | [] => EmptyString
  | [p] => p
  | p :: rest => p ++ sep ++ join sep rest
  end.

(** The characters of a string, each as a one-character string:
    what iterating over a [str] yields. *)
Fixpoint chars (s : string) : list string :=
  match s with
  | EmptyString => []
  | String c s' => String c EmptyString :: chars s'
  end.

(** [sub in s] for strings. *)
Fixpoint contains (sub s : string) : bool :=
  if String.prefix sub s then true
  else match s with
       | EmptyString => false
       | String _ s' => contains sub s'
       end.

(* ================================================================== *)
(** ** Values *)

(** The data side of a template.  A dict keeps its insertion order, as
    Python's does; the dicts of this module have [str] keys. *)
Inductive value : Type :=
| VNone
| VStr (s : string)
| VInt (z : Z)
| VBool (b : bool)
| VTuple (items : list value)
| VList (items : list value)
| VDict (entries : list (string * value)).

Definition is_None (v : value) : bool :=
  match v with VNone => true | _ => false end.

(** The decimal writing of an int: what [str(i)] returns when it
    returns. *)
Definition str_of_int (z : Z) : string := NilZero.string_of_int (Z.to_int z).

(** [sys.int_info.default_max_str_digits].  CPython refuses, with a
    [ValueError], to convert between [int] and [str] a number of more
    decimal digits than this; the sign is not counted. *)
Definition max_str_digits : Z := 4300.

(** A decimal writing without its sign. *)
Definition without_sign (txt : string) : string :=
  match txt with
  | String c txt' =>
      if (Ascii.eqb c "-" || Ascii.eqb c "+")%bool then txt' else txt
  | EmptyString => txt
  end.

(** The writing has more digits than the limit allows. *)
Definition too_long (txt : string) : bool :=
  max_str_digits <? Z.of_nat (String.length (without_sign txt)).

(** [str(v)].  The [str] of a container goes through [repr], which is
    not described here. *)
Definition py_str (v : value) : res string :=
  match v with
  | VNone => Ok "None"
  | VStr s => Ok s
  | VInt z =>
      if too_long (str_of_int z) then Raise ValueError else Ok (str_of_int z)
  | VBool true => Ok "True"
  | VBool false => Ok "False"
  | VTuple _ | VList _ | VDict _ => Stuck Unmodelled
  end.

(** A leading [+], which [int] accepts before the digits. *)
Definition without_plus (txt : string) : string :=
  match txt with
  | String c txt' =>
      if Ascii.eqb c "+" then
        match txt' with
        | String c' _ => if Ascii.eqb c' "-" then txt else txt'
        | EmptyString => txt
        end
      else txt
  | EmptyString => txt
  end.

(** [int(v, base=10)] on [None] or on a string made of an optional sign
    and decimal digits: the inputs [Integer._match] passes to it.  More
    digits than [max_str_digits] are a [ValueError], as is a string that
    is not a number. *)
Definition py_int (v : value) : res Z :=
  match v with
  | VStr txt =>
      if too_long txt then Raise ValueError
      else
        match NilZero.int_of_string (without_plus txt) with
        | Some d => Ok (Z.of_int d)
        | None => Raise ValueError
        end
  | _ => Raise TypeError
  end.

(** [iter(v)]: the items a [for], a [zip] or a [join] sees. *)
Definition py_iter (v : value) : res (list value) :=
  match v with
  | VTuple l | VList l => Ok l
  | VStr s => Ok (map VStr (chars s))
  | VDict d => Ok (map (fun kv => VStr (fst kv)) d)
  | VNone | VInt _ | VBool _ => Raise TypeError
  end.

(** [len(v)] *)
Definition py_len (v : value) : res Z :=
  match v with
  | VTuple l | VList l => Ok (Z.of_nat (List.length l))
  | VStr s => Ok (len s)
  | VDict d => Ok (Z.of_nat (List.length d))
  | VNone | VInt _ | VBool _ => Raise TypeError
  end.

(** [v[1]] *)
Definition py_index1 (v : value) : res value :=
  match v with
  | VTuple l | VList l =>
      match l with _ :: x :: _ => Ok x | _ => Raise IndexError end
  | VStr s =>
      match s with
      | String _ (String c _) => Ok (VStr (String c EmptyString))
      | _ => Raise IndexError
      end
  | VDict _ => Raise KeyError
  | VNone | VInt _ | VBool _ => Raise TypeError
  end.

(** A value that must be a [str] (operand of [+] on strings, item of a
    [join]). *)
Definition as_str (v : value) : res string :=
  match v with
  | VStr s => Ok s
  | _ => Raise TypeError
  end.

(** [d[k] = v] on an insertion-ordered dict. *)
Fixpoint dict_set (d : list (string * value)) (k : string) (v : value)
  : list (string * value) :=
  match d with
  | [] => [(k, v)]
  | (k', v') :: d' =>
      if String.eqb k' k then (k, v) :: d' else (k', v') :: dict_set d' k v
  end.

(** [d.get(k)] *)
Fixpoint dict_get (d : list (string * value)) (k : string) : value :=
  match d with
  | [] => VNone
  | (k', v') :: d' => if String.eqb k' k then v' else dict_get d' k
  end.

(** [k in d] *)
Fixpoint dict_has (d : list (string * value)) (k : string) : bool :=
  match d with
  | [] => false
  | (k', _) :: d' => if String.eqb k' k then true else dict_has d' k
  end.

(** Hashable values: the ones a dict accepts as keys. *)
Fixpoint hashable (v : value) : bool :=
  match v with
  | VNone | VStr _ | VInt _ | VBool _ => true
  | VTuple l =>
      (fix all (l : list value) : bool :=
         match l with
         | [] => true
         | x :: l' => hashable x && all l'
         end) l
  | VList _ | VDict _ => false
  end.

(** Equality of dict keys: Python's [==] on hashable values, under which
    [True == 1] and [False == 0]. *)
Fixpoint key_eqb (a b : value) : bool :=
  match a, b with
  | VNone, VNone => true
  | VStr x, VStr y => String.eqb x y
  | VInt x, VInt y => Z.eqb x y
  | VBool x, VBool y => Bool.eqb x y
  | VInt x, VBool y | VBool y, VInt x => Z.eqb x (if y then 1 else 0)
  | VTuple la, VTuple lb =>
      (fix all2 (la lb : list value) : bool :=
         match la, lb with
         | [], [] => true
         | x :: la', y :: lb' => key_eqb x y && all2 la' lb'
         | _, _ => false
         end) la lb
  | _, _ => false
  end.

(* ================================================================== *)
(** ** Regular expressions: the part of [re] the templates use *)

(** Compiled patterns.  [Grp i r] is the capture group number [i],
    numbered by opening parenthesis as [re] does. *)
Inductive regex : Set :=
| Eps
| Chr (c : ascii)
| Any
| Cls (negated : bool) (ranges : list (ascii * ascii))
| Cat (r1 r2 : regex)
| Alt (r1 r2 : regex)
| Opt (r : regex)
| Star (r : regex)
| Plus (r : regex)
| Grp (i : nat) (r : regex).

(** [pattern.groups] *)
Fixpoint re_groups (r : regex) : nat :=
  match r with
  | Eps | Chr _ | Any | Cls _ _ => 0
  | Cat r1 r2 | Alt r1 r2 => re_groups r1 + re_groups r2
  | Opt r | Star r | Plus r => re_groups r
  | Grp _ r => S (re_groups r)
  end.

Fixpoint nullable (r : regex) : bool :=
  match r with
  | Eps => true
  | Chr _ | Any | Cls _ _ => false
  | Cat r1 r2 => nullable r1 && nullable r2
  | Alt r1 r2 => nullable r1 || nullable r2
  | Opt _ | Star _ => true
  | Plus r | Grp _ r => nullable r
  end.

Definition in_range (c : ascii) (r : ascii * ascii) : bool :=
  (nat_of_ascii (fst r) <=? nat_of_ascii c)%nat
  && (nat_of_ascii c <=? nat_of_ascii (snd r))%nat.

Definition in_class (negated : bool) (ranges : list (ascii * ascii))
  (c : ascii) : bool :=
  xorb negated (existsb (in_range c) ranges).

(** *** Matching

    A backtracking matcher in continuation-passing style.  The
    continuation receives the rest of the input, the number of characters
    consumed so far and the text last captured by group 1.  Alternatives
    are tried left to right and repetitions are greedy, so the first
    success is the match [re] reports. *)

Definition mres : Set := option (nat * option string).
Definition cont : Set := string -> nat -> option string -> mres.
Definition matcher : Set := string -> nat -> option string -> cont -> mres.

Definition or_else (a : mres) (b : unit -> mres) : mres :=
  match a with
  | Some x => Some x
  | None => b tt
  end.

(** Greedy repetition of [body]: one more iteration first, the rest of
    the pattern after.  An iteration that consumes nothing is not
    repeated, which bounds the loop by the length of the input. *)
Fixpoint star_loop (body : matcher) (budget : nat) (s : string) (n : nat)
  (g : option string) (k : cont) : mres :=
  match budget with
  | O => k s n g
  | S budget' =>
      or_else
        (body s n g (fun s' n' g' =>
           if (n <? n')%nat then star_loop body budget' s' n' g' k
           else None))
        (fun _ => k s n g)
  end.

Definition one_char (accept : ascii -> bool) : matcher :=
  fun s n g k =>
    match s with
    | String a s' => if accept a then k s' (S n) g else None
    | EmptyString => None
    end.

Fixpoint run (r : regex) : matcher :=
  fun s n g k =>
    match r with
    | Eps => k s n g
    | Chr c => one_char (Ascii.eqb c) s n g k
    | Any => one_char (fun a => negb (Ascii.eqb a nl)) s n g k
    | Cls negated ranges => one_char (in_class negated ranges) s n g k
    | Cat r1 r2 => run r1 s n g (fun s' n' g' => run r2 s' n' g' k)
    | Alt r1 r2 => or_else (run r1 s n g k) (fun _ => run r2 s n g k)
    | Opt r1 => or_else (run r1 s n g k) (fun _ => k s n g)
    | Star r1 => star_loop (run r1) (S (String.length s)) s n g k
    | Plus r1 =>
        run r1 s n g (fun s' n' g' =>
          star_loop (run r1) (S (String.length s')) s' n' g' k)
    | Grp i r1 =>
        run r1 s n g (fun s' n' g' =>
          k s' n' (if (i =? 1)%nat then Some (take (n' - n) s) else g'))
    end.

(** A match object: [m.group(0)] and [m.group(1)]. *)
Record Match : Set := { group0 : string; group1 : option string }.

(** The start of a match for a [pos] argument: [re] clamps it to the
    bounds of the string. *)
Definition clamp (pos : Z) (s : string) : nat :=
  Z.to_nat (Z.min (Z.max pos 0) (len s)).

(** [pattern.match(s, pos=pos)]: a match anchored at [pos], or [None]. *)
Definition re_match (r : regex) (s : string) (pos : Z) : option Match :=
  let rest := drop (clamp pos s) s in
  match run r rest 0%nat None (fun _ n g => Some (n, g)) with
  | Some (n, g) => Some {| group0 := take n rest; group1 := g |}
  | None => None
  end.

(** *** Compilation

    [re_compile] reads the pattern syntax the templates of this module
    and their callers write: literal characters, [.], escaped
    punctuation and [\n] [\t] [\r], character classes with ranges and
    negation, capture groups, alternation, and the greedy quantifiers
    [?] [*] [+].  Syntax that [re] rejects raises [re_error]; syntax that
    [re] accepts and that lies outside this subset (anchors, counted and
    lazy repetition, [(?...)] extensions, class shorthands, a repetition
    of an expression that can match the empty string) is [Unmodelled]. *)

Definition is_alnum (c : ascii) : bool :=
  in_range c ("0", "9")%char || in_range c ("a", "z")%char
  || in_range c ("A", "Z")%char.

(** The character an escape sequence [\c] stands for. *)
Definition escaped (c : ascii) : res ascii :=
  if Ascii.eqb c "n" then Ok nl
  else if Ascii.eqb c "t" then Ok "009"%char
  else if Ascii.eqb c "r" then Ok "013"%char
  else if is_alnum c then Stuck Unmodelled
  else Ok c.

(** One member of a character class, escaped or plain. *)
Definition class_char (s : string) : res (ascii * string) :=
  match s with
  | EmptyString => Raise re_error
  | String "\" EmptyString => Raise re_error
  | String "\" (String c s') => a <- escaped c ;; Ok (a, s')
  | String c s' => Ok (c, s')
  end.

Fixpoint parse_class (fuel : nat) (s : string) (acc : list (ascii * ascii))
  : res (list (ascii * ascii) * string) :=
  match fuel with
  | O => Stuck OutOfFuel
  | S fuel' =>
      match s with
      | EmptyString => Raise re_error
      | String "]" s' => Ok (rev acc, s')
      | _ =>
          '(lo, s1) <- class_char s ;;
          match s1 with
          | String "-" (String c s2) =>
              if Ascii.eqb c "]" then parse_class fuel' s1 ((lo, lo) :: acc)
              else
                '(hi, s3) <- class_char (String c s2) ;;
                if (nat_of_ascii hi <? nat_of_ascii lo)%nat
                then Raise re_error
                else parse_class fuel' s3 ((lo, hi) :: acc)
          | _ => parse_class fuel' s1 ((lo, lo) :: acc)
          end
      end
  end.

(** A quantifier after the atom [r], if any. *)
Definition quantify (r : regex) (s : string) : res (regex * string) :=
  let after (q : regex) (s' : string) : res (regex * string) :=
    match s' with
    | String "*" _ => Raise re_error
    | String "?" _ | String "+" _ | String "{" _ => Stuck Unmodelled
    | _ => Ok (q, s')
    end in
  match s with
  | String "?" s' => after (Opt r) s'
  | String "*" s' =>
      if nullable r then Stuck Unmodelled else after (Star r) s'
  | String "+" s' =>
      if nullable r then Stuck Unmodelled else after (Plus r) s'
  | String "{" _ => Stuck Unmodelled
  | _ => Ok (r, s)
  end.

Definition cat (a rest : regex) : regex :=
  match rest with
  | Eps => a
  | _ => Cat a rest
  end.

Fixpoint parse_alt (fuel : nat) (s : string) (gi : nat) {struct fuel}
  : res (regex * string * nat) :=
  match fuel with
  | O => Stuck OutOfFuel
  | S fuel' =>
      '(r1, s1, g1) <- parse_seq fuel' s gi ;;
      match s1 with
      | String "|" s2 =>
          '(r2, s3, g2) <- parse_alt fuel' s2 g1 ;;
          Ok (Alt r1 r2, s3, g2)
      | _ => Ok (r1, s1, g1)
      end
  end
with parse_seq (fuel : nat) (s : string) (gi : nat) {struct fuel}
  : res (regex * string * nat) :=
  match fuel with
  | O => Stuck OutOfFuel
  | S fuel' =>
      match s with
      | EmptyString | String "|" _ | String ")" _ => Ok (Eps, s, gi)
      | _ =>
          '(a, s1, g1) <- parse_atom fuel' s gi ;;
          '(rest, s2, g2) <- parse_seq fuel' s1 g1 ;;
          Ok (cat a rest, s2, g2)
      end
  end
with parse_atom (fuel : nat) (s : string) (gi : nat) {struct fuel}
  : res (regex * string * nat) :=
  match fuel with
  | O => Stuck OutOfFuel
  | S fuel' =>
      '(r, s1, g1) <-
        match s with
        | EmptyString => Raise re_error
        | String "(" (String "?" _) => Stuck Unmodelled
        | String "(" s' =>
            '(r, s1, g1) <- parse_alt fuel' s' (S gi) ;;
            match s1 with
            | String ")" s2 => Ok (Grp gi r, s2, g1)
            | _ => Raise re_error
            end
        | String "[" (String "^" (String "]" _)) | String "[" (String "]" _) =>
            Stuck Unmodelled
        | String "[" (String "^" s') =>
            '(ranges, s1) <- parse_class (S (String.length s')) s' [] ;;
            Ok (Cls true ranges, s1, gi)
        | String "[" s' =>
            '(ranges, s1) <- parse_class (S (String.length s')) s' [] ;;
            Ok (Cls false ranges, s1, gi)
        | String "\" EmptyString => Raise re_error
        | String "\" (String c s') => a <- escaped c ;; Ok (Chr a, s', gi)
        | String "." s' => Ok (Any, s', gi)
        | String "*" _ | String "+" _ | String "?" _ => Raise re_error
        | String "{" _ | String "^" _ | String "$" _ => Stuck Unmodelled
        | String c s' => Ok (Chr c, s', gi)
        end ;;
      '(q, s2) <- quantify r s1 ;;
      Ok (q, s2, g1)
  end.

(** [re.compile(pattern)] *)
Definition re_compile (pattern : string) : res regex :=
  '(r, rest, _) <- parse_alt (3 * String.length pattern + 3) pattern 1%nat ;;
  match rest with
  | EmptyString => Ok r
  | _ => Raise re_error
  end.

(* ================================================================== *)
(** ** The cursor *)

(** [StringPos]: a string and a position in it.  [_match] receives the
    object by reference and moves [pos]; here every [_match] returns the
    cursor as it leaves it. *)
Record StringPos : Set := { s : string; pos : Z }.

Definition advance (sp : StringPos) (n : Z) : StringPos :=
  {| s := s sp; pos := pos sp + n |}.

Definition set_pos (sp : StringPos) (p : Z) : StringPos :=
  {| s := s sp; pos := p |}.

(* ================================================================== *)
(** ** Templates *)

(** The objects that sit in template slots.  The first nine constructors
    are the instances of the [Template] subclasses, each with its
    attributes.  [Affix.__init__] and [Repeat.__init__] store their
    content and item arguments as they come, so a slot can also hold a
    plain [str]: that is [StrObj].

    [NumberedList] carries the [Append(label_template, item_template)] its
    constructor builds as [item_template]. *)
Inductive template : Type :=
| Fixed (default : string) (accepted_pattern : regex)
| Pattern (pattern : regex)
| Integer
| Append (item_templates : list template)
| Repeat (item_template : template) (delimiter : template)
    (trailing_delimiter : bool)
| NumberedList (item_template : template) (delimiter : template)
    (trailing_delimiter : bool) (start_idx : Z)
| Affix (prefix : template) (content : template) (suffix : option template)
| Record_ (fields : list (string * template))
| Option (value_templates : list (value * template))
| StrObj (text : string).

(** [isinstance(x, Template)] *)
Definition is_Template (x : template) : bool :=
  match x with StrObj _ => false | _ => true end.

(** *** Constructors: the [__init__] methods *)

Definition Fixed_init (default : string) (accepted_pattern : option string)
  : res template :=
  let accepted_pattern :=
    match accepted_pattern with
    | None => default
    | Some p => p
    end in
  r <- re_compile accepted_pattern ;;
  Ok (Fixed default r).

(** [str_to_fixed]: a template is returned as it is, a [str] becomes a
    [Fixed].  The last branch of the source, [ValueError] for any other
    object, has no input here: a slot holds a template or a [str]. *)
Definition str_to_fixed (str_or_template : template) : res template :=
  match str_or_template with
  | StrObj text => Fixed_init text None
  | t => Ok t
  end.

Definition Pattern_init (pattern : string) : res template :=
  r <- re_compile pattern ;;
  Ok (Pattern r).

(** The attribute [group_idx] that [Pattern.__init__] derives from the
    compiled pattern. *)
Definition group_idx (pattern : regex) : nat :=
  if (re_groups pattern =? 0)%nat then 0%nat else 1%nat.

(** The pattern of [Integer], [-?[0-9]+], compiled. *)
Definition Integer_pattern : regex :=
  Cat (Opt (Chr "-")) (Plus (Cls false [("0", "9")%char])).

Definition Integer_init : res template := Ok Integer.

Definition Append_init (item_templates : list template) : res template :=
  ts <- mapM str_to_fixed item_templates ;;
  Ok (Append ts).

Definition Repeat_init (item_template delimiter : template)
  (trailing_delimiter : bool) : res template :=
  d <- str_to_fixed delimiter ;;
  Ok (Repeat item_template d trailing_delimiter).

Definition NumberedList_init (label_template item_template delimiter : template)
  (trailing_delimiter : bool) (start_idx : Z) : res template :=
  a <- Append_init [label_template; item_template] ;;
  d <- str_to_fixed delimiter ;;
  Ok (NumberedList a d trailing_delimiter start_idx).

Definition Affix_init (prefix content : template) (suffix : option template)
  : res template :=
  p <- str_to_fixed prefix ;;
  sfx <- match suffix with
         | None => Ok None
         | Some x => t <- str_to_fixed x ;; Ok (Some t)
         end ;;
  Ok (Affix p content sfx).

Definition Prefix_init := Affix_init.

(** [NOTHING = Fixed('')] *)
Definition NOTHING : template := Fixed "" Eps.

Definition Suffix_init (content suffix : template) : res template :=
  Affix_init NOTHING content (Some suffix).

(** [Record(name=template, ...)].  The keyword [self] collides with the first
    parameter of [__init__]: the call raises [TypeError] before the body
    runs. *)
Definition Record_init (fields : list (string * template)) : res template :=
  if existsb (String.eqb "self") (map fst fields) then Raise TypeError
  else
    fs <- mapM (fun nf => t <- str_to_fixed (snd nf) ;; Ok (fst nf, t))
            fields ;;
    Ok (Record_ fs).

Definition Option_init (value_templates : list (value * template))
  : res template :=
  vts <- mapM (fun vt => t <- str_to_fixed (snd vt) ;; Ok (fst vt, t))
           value_templates ;;
  Ok (Option vts).

(** *** The predefined instances *)

Definition SENTENCE : template :=
  Pattern
    (Cat (Plus (Cls true [(nl, nl); (".", "."); ("?", "?"); ("!", "!")]%char))
         (Opt (Cls false [(".", "."); ("?", "?"); ("!", "!")]%char))).
Definition EOL : template := Fixed EOL_text (Chr nl).
Definition SPACE : template := Fixed " " (Plus (Chr " ")).
Definition YES_NO : template :=
  Option [(VBool false, Fixed "No" (Cat (Chr "N") (Chr "o")));
          (VBool true, Fixed "Yes" (Cat (Chr "Y") (Cat (Chr "e") (Chr "s"))))].
Definition NUM : template := Integer.

(* ================================================================== *)
(** ** [fill]: data to text *)

(** A call [t.fill()] without argument, as [Repeat], [Affix] and [Option]
    make on their delimiter, prefix, suffix and value templates.  Only
    [Fixed.fill(self, *args)] accepts it; the other classes declare one
    required parameter. *)
Definition fill_noargs (t : template) : res value :=
  match t with
  | Fixed default _ => Ok (VStr default)
  | StrObj _ => Raise AttributeError
  | _ => Raise TypeError
  end.

(** [sep.join(parts)] on values: every part must be a [str]. *)
Definition join_values (sep : string) (parts : list value) : res string :=
  ss <- mapM as_str parts ;;
  Ok (join sep ss).

(** [a + b] where [a] is a [str]. *)
Definition str_add (a : string) (b : value) : res value :=
  bs <- as_str b ;;
  Ok (VStr (a ++ bs)).

(** [name in rec] and [rec.get(name)] for the argument of [Record.fill]. *)
Definition py_contains (rec : value) (name : string) : res bool :=
  match rec with
  | VDict d => Ok (dict_has d name)
  | VStr txt => Ok (contains name txt)
  | VTuple l | VList l => Ok (existsb (key_eqb (VStr name)) l)
  | VNone | VInt _ | VBool _ => Raise TypeError
  end.

Definition py_get (rec : value) (name : string) : res value :=
  match rec with
  | VDict d => Ok (dict_get d name)
  | _ => Raise AttributeError
  end.

(** [mapping[val]] on the mapping of an [Option]. *)
Fixpoint lookup (vts : list (value * template)) (val : value)
  : res template :=
  match vts with
  | [] => Raise KeyError
  | (k, t) :: vts' => if key_eqb k val then Ok t else lookup vts' val
  end.

Definition getitem (vts : list (value * template)) (val : value)
  : res template :=
  if hashable val then lookup vts val else Raise TypeError.

(** [range(start, n + start)] *)
Definition range (start n : Z) : list Z :=
  map (fun i => start + Z.of_nat i) (seq 0 (Z.to_nat n)).

(** [zip(a, b)] as a list of pairs. *)
Fixpoint zip {A B : Type} (a : list A) (b : list B) : list (A * B) :=
  match a, b with
  | x :: a', y :: b' => (x, y) :: zip a' b'
  | _, _ => []
  end.

Section Fill.
(** [fill] of the sub-templates. *)
Variable F : template -> value -> res value.

(** The generator [item_template.fill(item) for item_template, item in
    zip(self.item_templates, items)]: it stops with the shorter of the
    two sequences. *)
Fixpoint Append_parts (item_templates : list template) (items : list value)
  : res (list value) :=
  match item_templates, items with
  | item_template :: ts', item :: its' =>
      part <- F item_template item ;;
      parts <- Append_parts ts' its' ;;
      Ok (part :: parts)
  | _, _ => Ok []
  end.

Definition Append_fill (item_templates : list template) (items : value)
  : res value :=
  if is_None items then Ok (VStr "")
  else
    its <- py_iter items ;;
    parts <- Append_parts item_templates its ;;
    filled <- join_values "" parts ;;
    Ok (VStr filled).

Definition Repeat_fill (item_template delimiter : template)
  (trailing_delimiter : bool) (values : value) : res value :=
  if is_None values then Ok (VStr "")
  else
    d <- fill_noargs delimiter ;;
    d <- as_str d ;;
    vs <- py_iter values ;;
    parts <- mapM (F item_template) vs ;;
    filled <- join_values d parts ;;
    Ok (VStr (if trailing_delimiter then filled ++ d else filled)).

(** [Repeat.fill] on an iterator whose items are computed when the
    [join] asks for them, as those of the [zip] that [NumberedList.fill]
    passes: an item that raises stops the rendering there. *)
Definition Repeat_fill_iter (item_template delimiter : template)
  (trailing_delimiter : bool) (values : list (res value)) : res value :=
  d <- fill_noargs delimiter ;;
  d <- as_str d ;;
  parts <- mapM (fun item => v <- item ;; F item_template v) values ;;
  filled <- join_values d parts ;;
  Ok (VStr (if trailing_delimiter then filled ++ d else filled)).

(** The items of [zip(map(str, range(start_idx, len(values) + start_idx)),
    values)]: the label of a pair is rendered when the pair is asked
    for. *)
Definition labelled (start_idx n : Z) (vs : list value) : list (res value) :=
  map (fun iv => label <- py_str (VInt (fst iv)) ;;
                 Ok (VTuple [VStr label; snd iv]))
    (zip (range start_idx n) vs).

Definition NumberedList_fill (item_template delimiter : template)
  (trailing_delimiter : bool) (start_idx : Z) (values : value) : res value :=
  if is_None values then Ok (VStr "")
  else
    n <- py_len values ;;
    vs <- py_iter values ;;
    Repeat_fill_iter item_template delimiter trailing_delimiter
      (labelled start_idx n vs).

Definition Affix_fill (prefix content : template) (suffix : option template)
  (c : value) : res value :=
  p <- fill_noargs prefix ;;
  p <- as_str p ;;
  cf <- F content c ;;
  filled <- str_add p cf ;;
  match suffix with
  | Some sfx =>
      if is_None c then Ok filled
      else
        filled <- as_str filled ;;
        sf <- fill_noargs sfx ;;
        str_add filled sf
  | None => Ok filled
  end.

Fixpoint Record_parts (fields : list (string * template)) (rec : value)
  : res (list value) :=
  match fields with
  | [] => Ok []
  | (f_name, f) :: fields' =>
      present <- py_contains rec f_name ;;
      if present then
        arg <- py_get rec f_name ;;
        part <- F f arg ;;
        parts <- Record_parts fields' rec ;;
        Ok (part :: parts)
      else Record_parts fields' rec
  end.

Definition Record_fill (fields : list (string * template)) (rec : value)
  : res value :=
  if is_None rec then Ok (VStr "")
  else
    parts <- Record_parts fields rec ;;
    filled <- join_values "" parts ;;
    Ok (VStr filled).
End Fill.

Definition Option_fill (value_templates : list (value * template))
  (val : value) : res value :=
  if is_None val then Ok (VStr "")
  else
    t <- getitem value_templates val ;;
    fill_noargs t.

Fixpoint fill (t : template) (v : value) {struct t} : res value :=
  match t with
  | Fixed default _ => Ok (VStr default)
  | Pattern _ => if is_None v then Ok (VStr "") else Ok v
  | Integer =>
      if is_None v then Ok (VStr "")
      else txt <- py_str v ;; Ok (VStr txt)
  | Append item_templates => Append_fill fill item_templates v
  | Repeat item_template delimiter trailing_delimiter =>
      Repeat_fill fill item_template delimiter trailing_delimiter v
  | NumberedList item_template delimiter trailing_delimiter start_idx =>
      NumberedList_fill fill item_template delimiter trailing_delimiter
        start_idx v
  | Affix prefix content suffix => Affix_fill fill prefix content suffix v
  | Record_ fields => Record_fill fill fields v
  | Option value_templates => Option_fill value_templates v
  | StrObj _ => Raise AttributeError
  end.

(* ================================================================== *)
(** ** [_match]: text to data *)

(** The result of a [_match]: the value returned ([VNone] is Python's
    [None], the failure signal) and the cursor as the call leaves it. *)
Definition matched : Type := res (value * StringPos).

(** [m.group(idx)] for [idx] 0 or 1. *)
Definition group (m : Match) (idx : nat) : value :=
  match idx with
  | O => VStr (group0 m)
  | S _ => match group1 m with
           | Some g => VStr g
           | None => VNone
           end
  end.

Definition Fixed_match (accepted_pattern : regex) (sp : StringPos)
  : value * StringPos :=
  match re_match accepted_pattern (s sp) (pos sp) with
  | None => (VNone, sp)
  | Some m => (VStr (group0 m), advance sp (len (group0 m)))
  end.

Definition Pattern_match (pattern : regex) (sp : StringPos)
  : value * StringPos :=
  match re_match pattern (s sp) (pos sp) with
  | None => (VNone, sp)
  | Some m => (group m (group_idx pattern), advance sp (len (group0 m)))
  end.

Definition Integer_match (sp : StringPos) : matched :=
  let revert_pos := pos sp in
  let '(txt, sp1) := Pattern_match Integer_pattern sp in
  match py_int txt with
  | Ok i => Ok (VInt i, sp1)
  | Raise ValueError | Raise TypeError => Ok (VNone, set_pos sp1 revert_pos)
  | Raise e => Raise e
  | Stuck w => Stuck w
  end.

Section Match.
(** [_match] of the sub-templates. *)
Variable M : template -> StringPos -> matched.

Fixpoint Append_loop (item_templates : list template) (sp : StringPos)
  (matches : list value) : matched :=
  match item_templates with
  | [] => Ok (VTuple matches, sp)
  | item_template :: rest =>
      '(m, sp1) <- M item_template sp ;;
      if is_None m then Ok (VNone, sp1)
      else Append_loop rest sp1 (matches ++ [m])%list
  end.

(** The state of the [while] loop of [Repeat._match]. *)
Record RepeatState : Type :=
  { r_sp : StringPos; vals : list value; i_revert : Z; last_dm : value }.

(** The loop, with a budget of iterations.  It returns the state at the
    exit of the loop, by the loop condition or by [break]. *)
Fixpoint Repeat_loop (item_template delimiter : template) (budget : nat)
  (st : RepeatState) : res RepeatState :=
  match budget with
  | O => Stuck OutOfFuel
  | S budget' =>
      '(m, sp1) <- M item_template (r_sp st) ;;
      if is_None m then
        Ok {| r_sp := sp1; vals := vals st; i_revert := i_revert st;
              last_dm := last_dm st |}
      else
        let vals1 := (vals st ++ [m])%list in
        let i_revert1 := pos sp1 in
        '(dm, sp2) <- M delimiter sp1 ;;
        let st2 := {| r_sp := sp2; vals := vals1; i_revert := i_revert1;
                      last_dm := dm |} in
        if is_None dm then Ok st2
        else Repeat_loop item_template delimiter budget' st2
  end.

Definition Repeat_match (item_template delimiter : template)
  (trailing_delimiter : bool) (budget : nat) (sp : StringPos) : matched :=
  st <- Repeat_loop item_template delimiter budget
          {| r_sp := sp; vals := []; i_revert := pos sp; last_dm := VNone |} ;;
  let sp' :=
    if negb (is_None (last_dm st)) && negb trailing_delimiter
    then set_pos (r_sp st) (i_revert st)
    else r_sp st in
  Ok (VList (vals st), sp').

Definition NumberedList_match (item_template delimiter : template)
  (trailing_delimiter : bool) (budget : nat) (sp : StringPos) : matched :=
  '(sm, sp') <- Repeat_match item_template delimiter trailing_delimiter
                  budget sp ;;
  if is_None sm then Ok (VNone, sp')
  else
    pairs <- py_iter sm ;;
    items <- mapM py_index1 pairs ;;
    Ok (VList items, sp').

Definition Affix_match (prefix content : template) (suffix : option template)
  (sp : StringPos) : matched :=
  '(pm, sp1) <- M prefix sp ;;
  if is_None pm then Ok (VNone, sp1)
  else
    '(cm, sp2) <- M content sp1 ;;
    if is_None cm then Ok (VNone, sp2)
    else
      match suffix with
      | Some sfx => '(_, sp3) <- M sfx sp2 ;; Ok (cm, sp3)
      | None => Ok (cm, sp2)
      end.

Fixpoint Record_loop (fields : list (string * template)) (sp : StringPos)
  (rec : list (string * value)) : matched :=
  match fields with
  | [] => Ok (VDict rec, sp)
  | (field_name, field_template) :: rest =>
      '(m, sp1) <- M field_template sp ;;
      Record_loop rest sp1
        (if is_None m then rec else dict_set rec field_name m)
  end.

Fixpoint Option_loop (value_templates : list (value * template))
  (sp : StringPos) : matched :=
  match value_templates with
  | [] => Ok (VNone, sp)
  | (val, val_template) :: rest =>
      '(m, sp1) <- M val_template sp ;;
      if is_None m then Option_loop rest sp1
      else Ok (val, sp1)
  end.
End Match.

(** [t._match(sp)].  [fuel] bounds the iterations of each [while] loop
    of a [Repeat]; nothing else in the module loops without bound. *)
Fixpoint _match (fuel : nat) (t : template) (sp : StringPos) {struct t}
  : matched :=
  match t with
  | Fixed _ accepted_pattern => Ok (Fixed_match accepted_pattern sp)
  | Pattern pattern => Ok (Pattern_match pattern sp)
  | Integer => Integer_match sp
  | Append item_templates => Append_loop (_match fuel) item_templates sp []
  | Repeat item_template delimiter trailing_delimiter =>
      Repeat_match (_match fuel) item_template delimiter trailing_delimiter
        fuel sp
  | NumberedList item_template delimiter trailing_delimiter _ =>
      NumberedList_match (_match fuel) item_template delimiter
        trailing_delimiter fuel sp
  | Affix prefix content suffix =>
      Affix_match (_match fuel) prefix content suffix sp
  | Record_ fields => Record_loop (_match fuel) fields sp []
  | Option value_templates => Option_loop (_match fuel) value_templates sp
  | StrObj _ => Raise AttributeError
  end.

(** [t.match(s, pos)]: a fresh cursor, and the value of [_match] alone. *)
Definition match_ (fuel : nat) (t : template) (text : string) (start : Z)
  : res value :=
  '(v, _) <- _match fuel t {| s := text; pos := start |} ;;
  Ok v.

(* ================================================================== *)
(** ** Notions the properties are stated with *)

(** *** A numbered list of sentences *)

(** [NumberedList(Suffix(NUM, ". "), SENTENCE, EOL, trailing_delimiter)] *)
Definition numbered_sentences (trailing_delimiter : bool) : res template :=
  label <- Suffix_init NUM (StrObj ". ") ;;
  NumberedList_init label SENTENCE EOL trailing_delimiter 1.

Definition first_second : value := VList [VStr "First."; VStr "Second."].

(** *** Cursors, runs and sizes *)

(** [sp'] is a cursor on the text of [sp], at or after its position. *)
Definition cursor_le (sp sp' : StringPos) : Prop :=
  s sp' = s sp /\ pos sp <= pos sp'.

Section Forward.
Variable M : template -> StringPos -> matched.

(** [M] moves the cursor forward on the template [t]. *)
Definition forward (t : template) : Prop :=
  forall sp v sp', M t sp = Ok (v, sp') -> cursor_le sp sp'.

End Forward.

(** What the specification says of [Record.match], as a relation:
    [Record_run fuel fields sp rec sp' rec'] holds when attempting
    [fields] in order from the cursor [sp], with the mapping [rec] built so
    far, ends at [sp'] with the mapping [rec']; a field whose template
    fails is left out of the mapping and the next field is attempted
    where the failing one left the cursor. *)
Inductive Record_run (fuel : nat)
  : list (string * template) -> StringPos -> list (string * value) ->
    StringPos -> list (string * value) -> Prop :=
| run_end sp rec : Record_run fuel [] sp rec sp rec
| run_omitted name t rest sp sp1 rec sp' rec' :
    _match fuel t sp = Ok (VNone, sp1) ->
    Record_run fuel rest sp1 rec sp' rec' ->
    Record_run fuel ((name, t) :: rest) sp rec sp' rec'
| run_kept name t rest m sp sp1 rec sp' rec' :
    _match fuel t sp = Ok (m, sp1) ->
    m <> VNone ->
    Record_run fuel rest sp1 (dict_set rec name m) sp' rec' ->
    Record_run fuel ((name, t) :: rest) sp rec sp' rec'.

(** The field templates return where [Record._match] tries them: the
    first at [sp], each of the others at the cursor its predecessor
    left. *)
Fixpoint fields_return (fuel : nat) (fields : list (string * template))
  (sp : StringPos) : Prop :=
  match fields with
  | [] => True
  | (_, t) :: rest =>
      exists m sp1,
        _match fuel t sp = Ok (m, sp1) /\ fields_return fuel rest sp1
  end.

(** [Record(q="Q", items=Repeat(Pattern("[a-z]"), ","), a="A")] *)
Definition letters_record : template :=
  Record_ [("q", Fixed "Q" (Chr "Q"));
           ("items", Repeat (Pattern (Cls false [("a", "z")%char]))
                       (Fixed "," (Chr ",")) false);
           ("a", Fixed "A" (Chr "A"))].

(** The prefix arguments [Affix.__init__] declares: a [str] or a
    [Fixed]. *)
Definition str_or_Fixed (x : template) : bool :=
  match x with
  | StrObj _ | Fixed _ _ => true
  | _ => false
  end.

(** The number of constructors of a value. *)
Fixpoint vsize (v : value) : nat :=
  match v with
  | VNone | VStr _ | VInt _ | VBool _ => 1
  | VTuple l | VList l =>
      S ((fix sum (l : list value) : nat :=
            match l with
            | [] => 0
            | x :: l' => vsize x + sum l'
            end) l)
  | VDict d =>
      S ((fix sum (d : list (string * value)) : nat :=
            match d with
            | [] => 0
            | (_, x) :: d' => vsize x + sum d'
            end) d)
  end%nat.

(** The leaves whose failure is the failure of their pattern: [Fixed],
    [Integer], and [Pattern] without capture group (with a group, [_match]
    returns the text of group 1, which is [None] when the group took no
    part in the match). *)
Definition plain_leaf (t : template) : bool :=
  match t with
  | Fixed _ _ | Integer => true
  | Pattern r => (re_groups r =? 0)%nat
  | _ => false
  end.

(** *** Decimal digits *)

(** [str(z)] returns: [z] has no more digits than the limit allows. *)
Definition fits (z : Z) : bool := negb (too_long (str_of_int z)).

Definition is_digit (c : ascii) : bool := in_range c ("0", "9")%char.

Fixpoint all_digits (txt : string) : bool :=
  match txt with
  | EmptyString => true
  | String c txt' => is_digit c && all_digits txt'
  end.

Definition starts_with_digit (txt : string) : bool :=
  match txt with
  | EmptyString => false
  | String c _ => is_digit c
  end.

(** The last continuation of a match: report what was consumed. *)
Definition finish : cont := fun _ n g => Some (n, g).

(** *** Unambiguous renderings
    The round trip is about one text [txt], in which the rendering [out]
    of a value stands at position [p].  [unambiguous t v p out] says
    that [v] is in the fill-domain of [t] and that, read in [txt] from
    [p], the rendering cannot be taken for anything else:
    - a pattern reads exactly the text of its leaf, no more and no less,
      and a [Pattern] with a capture group returns that text as its
      group 1;
    - the decimal writing of an integer has no more digits than
      [max_str_digits] and is not followed by a digit;
    - after the last item of a [Repeat], no further item can be read;
    - the template of a field absent from the mapping of a [Record], and
      the templates declared before the chosen value of an [Option], do
      not match where they are tried. *)

(** The fields of a [Record] that are keys of [D], in declaration order,
    with their values in [D]. *)
Fixpoint select (fields : list (string * template))
  (D : list (string * value)) : list (string * value) :=
  match fields with
  | [] => []
  | (name, _) :: rest =>
      if dict_has D name then (name, dict_get D name) :: select rest D
      else select rest D
  end.

Section Unambiguous.
Variables (fuel : nat) (txt : string).

(** The cursor on [txt] at [p]. *)
Definition at_ (p : Z) : StringPos := {| s := txt; pos := p |}.

(** [t] fails at [p] and leaves the cursor there. *)
Definition fails_at (t : template) (p : Z) : Prop :=
  _match fuel t (at_ p) = Ok (VNone, at_ p).

(** The pattern [r], matched at [p], reads exactly [out]. *)
Definition reads (r : regex) (p : Z) (out : string) : Prop :=
  exists m, re_match r txt p = Some m /\ group0 m = out.

(** After the last item of a [Repeat] without trailing delimiter, at
    [q]: the delimiter does not match, or it does and no item follows. *)
Definition ends_at (it : template) (r : regex) (q : Z) : Prop :=
  re_match r txt q = None
  \/ exists m sp_f,
       re_match r txt q = Some m
       /\ _match fuel it (at_ (q + len (group0 m))) = Ok (VNone, sp_f).

Inductive unambiguous : template -> value -> Z -> string -> Prop :=
| u_Fixed d r p :
    reads r p d ->
    unambiguous (Fixed d r) (VStr d) p d
| u_Pattern r p out :
    re_groups r = 0%nat ->
    reads r p out ->
    unambiguous (Pattern r) (VStr out) p out
| u_Pattern_group r p out m :
    re_groups r <> 0%nat ->
    re_match r txt p = Some m ->
    group0 m = out ->
    group1 m = Some out ->
    unambiguous (Pattern r) (VStr out) p out
| u_Integer z p rest :
    too_long (str_of_int z) = false ->
    0 <= p ->
    drop (Z.to_nat p) txt = str_of_int z ++ rest ->
    starts_with_digit rest = false ->
    unambiguous Integer (VInt z) p (str_of_int z)
| u_Append ts vs p out :
    unambiguous_seq ts vs p out ->
    unambiguous (Append ts) (VTuple vs) p out
| u_Repeat_empty it d r p :
    (0 < fuel)%nat ->
    fails_at it p ->
    unambiguous (Repeat it (Fixed d r) false) (VList []) p ""
| u_Repeat it d r tr vs p out :
    (List.length vs < fuel)%nat ->
    unambiguous_items it d r tr vs p out ->
    unambiguous (Repeat it (Fixed d r) tr) (VList vs) p out
| u_Record fields D p out :
    NoDup (map fst fields) ->
    D = select fields D ->
    unambiguous_fields D fields p out ->
    unambiguous (Record_ fields) (VDict D) p out
| u_Option before v d r after p :
    v <> VNone ->
    getitem (before ++ (v, Fixed d r) :: after) v = Ok (Fixed d r) ->
    Forall (fun vt => fails_at (snd vt) p) before ->
    reads r p d ->
    unambiguous (Option (before ++ (v, Fixed d r) :: after)) v p d
(** The slots of an [Append], one after the other. *)
with unambiguous_seq : list template -> list value -> Z -> string -> Prop :=
| us_nil p : unambiguous_seq [] [] p ""
| us_cons t v ts vs p o outs :
    unambiguous t v p o ->
    unambiguous_seq ts vs (p + len o) outs ->
    unambiguous_seq (t :: ts) (v :: vs) p (o ++ outs)
(** The items of a non-empty [Repeat], separated by the delimiter. *)
with unambiguous_items
  : template -> string -> regex -> bool -> list value -> Z -> string -> Prop :=
| ui_last it d r v p o :
    unambiguous it v p o ->
    ends_at it r (p + len o) ->
    unambiguous_items it d r false [v] p o
| ui_last_trailing it d r v p o :
    unambiguous it v p o ->
    reads r (p + len o) d ->
    fails_at it (p + len o + len d) ->
    unambiguous_items it d r true [v] p (o ++ d)
| ui_more it d r tr v vs p o outs :
    unambiguous it v p o ->
    reads r (p + len o) d ->
    unambiguous_items it d r tr vs (p + len o + len d) outs ->
    unambiguous_items it d r tr (v :: vs) p (o ++ d ++ outs)
(** The fields of a [Record], those in the mapping [D] and those not. *)
with unambiguous_fields
  : list (string * value) -> list (string * template) -> Z -> string -> Prop :=
| uf_nil D p : unambiguous_fields D [] p ""
| uf_present D name t rest p o outs :
    dict_has D name = true ->
    unambiguous t (dict_get D name) p o ->
    unambiguous_fields D rest (p + len o) outs ->
    unambiguous_fields D ((name, t) :: rest) p (o ++ outs)
| uf_absent D name t rest p outs :
    dict_has D name = false ->
    fails_at t p ->
    unambiguous_fields D rest p outs ->
    unambiguous_fields D ((name, t) :: rest) p outs.

(** The cursor [Repeat._match] returns from the state at the exit of its
    loop. *)
Definition final (tr : bool) (st : RepeatState) : StringPos :=
  if negb (is_None (last_dm st)) && negb tr
  then set_pos (r_sp st) (i_revert st)
  else r_sp st.

End Unambiguous.

Scheme unambiguous_mind := Minimality for unambiguous Sort Prop
  with unambiguous_seq_mind := Minimality for unambiguous_seq Sort Prop
  with unambiguous_items_mind := Minimality for unambiguous_items Sort Prop
  with unambiguous_fields_mind := Minimality for unambiguous_fields Sort Prop.

Combined Scheme unambiguous_mutind from
  unambiguous_mind, unambiguous_seq_mind, unambiguous_items_mind,
  unambiguous_fields_mind.

(** *** What the round trip states, for a template and for the loops *)

Section RoundTripStatement.
Variables (fuel : nat) (txt : string).

#[local] Abbreviation cur := (at_ txt).

(** [v] renders as [out], and [out] at [p] is read back as [v], with the
    cursor after it. *)
Definition round_trip (t : template) (v : value) (p : Z) (out : string)
  : Prop :=
  v <> VNone
  /\ fill t v = Ok (VStr out)
  /\ _match fuel t (cur p) = Ok (v, cur (p + len out)).

Definition round_trip_seq (ts : list template) (vs : list value) (p : Z)
  (out : string) : Prop :=
  (exists parts,
     Append_parts fill ts vs = Ok (map VStr parts) /\ join "" parts = out)
  /\ forall acc,
       Append_loop (_match fuel) ts (cur p) acc
       = Ok (VTuple (acc ++ vs), cur (p + len out)).

Definition round_trip_items (it : template) (d : string) (r : regex)
  (tr : bool) (vs : list value) (p : Z) (out : string) : Prop :=
  vs <> []
  /\ (exists parts,
     mapM (fill it) vs = Ok (map VStr parts)
     /\ (if tr then join d parts ++ d else join d parts) = out)
  /\ forall budget st0,
       (List.length vs < budget)%nat ->
       r_sp st0 = cur p ->
       exists st',
         Repeat_loop (_match fuel) it (Fixed d r) budget st0 = Ok st'
         /\ vals st' = (vals st0 ++ vs)%list
         /\ final tr st' = cur (p + len out).

Definition round_trip_fields (D : list (string * value))
  (fields : list (string * template)) (p : Z) (out : string) : Prop :=
  (exists parts,
     Record_parts fill fields (VDict D) = Ok (map VStr parts)
     /\ join "" parts = out)
  /\ forall rec0,
       (forall n, In n (map fst fields) -> dict_has rec0 n = false) ->
       NoDup (map fst fields) ->
       Record_loop (_match fuel) fields (cur p) rec0
       = Ok (VDict (rec0 ++ select fields D), cur (p + len out)).

End RoundTripStatement.

(** *** Literal patterns *)

(** The characters the pattern syntax gives a meaning to. *)
Definition special (c : ascii) : bool :=
  existsb (Ascii.eqb c)
    ["("; ")"; "["; "\"; "."; "*"; "+"; "?"; "{"; "^"; "$"; "|"]%char.

Fixpoint plain (d : string) : bool :=
  match d with
  | EmptyString => true
  | String c d' => negb (special c) && plain d'
  end.

(** The pattern that reads the text [d] and nothing else. *)
Fixpoint literal (d : string) : regex :=
  match d with
  | EmptyString => Eps
  | String c d' => cat (Chr c) (literal d')
  end.

(** *** Examples for the round trip *)

(** Two templates for the round trip:
    [Repeat(Append(NUM, "=", YES_NO), ";")] and
    [Record(n=NUM, w=Pattern("[a-z]+"), q="!")]. *)
Definition setting : template := Append [NUM; Fixed "=" (Chr "="); YES_NO].
Definition settings : template := Repeat setting (Fixed ";" (Chr ";")) false.
Definition settings_value : value :=
  VList [VTuple [VInt 1; VStr "="; VBool true];
         VTuple [VInt (-20); VStr "="; VBool false]].

Definition word : regex := Plus (Cls false [("a", "z")%char]).
Definition entry : template :=
  Record_ [("n", NUM); ("w", Pattern word); ("q", Fixed "!" (Chr "!"))].
Definition entry_value : value := VDict [("n", VInt 7); ("w", VStr "abc")].

(** [Pattern("(a+)")] *)
Definition grouped : template := Pattern (Grp 1 (Plus (Chr "a"))).

(** *** The texts a pattern can read *)

(** [lang r txt]: the pattern [r] can consume exactly [txt]. *)
Inductive lang : regex -> string -> Prop :=
| lang_Eps : lang Eps ""
| lang_Chr c : lang (Chr c) (String c "")
| lang_Any a : Ascii.eqb a nl = false -> lang Any (String a "")
| lang_Cls negated ranges a :
    in_class negated ranges a = true ->
    lang (Cls negated ranges) (String a "")
| lang_Cat r1 r2 a b : lang r1 a -> lang r2 b -> lang (Cat r1 r2) (a ++ b)
| lang_Alt_l r1 r2 a : lang r1 a -> lang (Alt r1 r2) a
| lang_Alt_r r1 r2 a : lang r2 a -> lang (Alt r1 r2) a
| lang_Opt_none r : lang (Opt r) ""
| lang_Opt_some r a : lang r a -> lang (Opt r) a
| lang_Star_nil r : lang (Star r) ""
| lang_Star_cons r a b : lang r a -> lang (Star r) b -> lang (Star r) (a ++ b)
| lang_Plus r a b : lang r a -> lang (Star r) b -> lang (Plus r) (a ++ b)
| lang_Grp i r a : lang r a -> lang (Grp i r) a.

(** A matcher is sound for a set of texts [L] when a success comes from
    a call of its continuation after a consumed text of [L]. *)
Definition sound (m : matcher) (L : string -> Prop) : Prop :=
  forall txt n g k res,
    m txt n g k = Some res ->
    exists pre rest g',
      txt = pre ++ rest /\ L pre
      /\ k rest (n + String.length pre)%nat g' = Some res.

(** *** The cursor and the end of the text *)

(** The cursor is not past the end of its text. *)
Definition within (sp : StringPos) : Prop := pos sp <= len (s sp).

(** [M], run on [t] from a cursor within its text, leaves it within. *)
Definition stays (M : template -> StringPos -> matched) (t : template)
  : Prop :=
  forall sp v sp', M t sp = Ok (v, sp') -> within sp -> within sp'.

(** *** Values of sub-templates, numbered lines *)

(** [m] is a value [M] returned for [t], and not the failure signal. *)
Definition produced (M : template -> StringPos -> matched) (t : template)
  (m : value) : Prop :=
  m <> VNone /\ exists sp1 sp2, M t sp1 = Ok (m, sp2).

(** The lines of a numbered list: each item after its decimal number,
    counted from [start], and the separator [sep]. *)
Fixpoint numbered_lines (start : Z) (sep : string) (xs : list string)
  : list string :=
  match xs with
  | [] => []
  | x :: xs' => (str_of_int start ++ sep ++ x) :: numbered_lines (start + 1) sep xs'
  end.

(** *** Templates that render [None] as the empty string *)

(** The classes whose [fill] starts with [if ... is None: return '']. *)
Definition empty_on_None (t : template) : bool :=
  match t with
  | Pattern _ | Integer | Append _ | Repeat _ _ _ | NumberedList _ _ _ _
  | Record_ _ | Option _ => true
  | Fixed _ _ | Affix _ _ _ | StrObj _ => false
  end.

(** *** The template of [example.py] *)

(** The double quote character, and the instruction line of the prompt. *)
Definition dquote : string := String "034"%char EmptyString.
Definition example_header : string :=
  "Answer " ++ dquote ++ "Yes" ++ dquote ++ " or " ++ dquote ++ "No" ++ dquote
  ++ " to the following questions." ++ EOL_text ++ EOL_text.

(** [template], as [example.py] builds it, innermost constructor first. *)
Definition example_template : res template :=
  question <- Affix_init (StrObj "Q: ") SENTENCE (Some EOL) ;;
  answer <- Prefix_init (StrObj "A: ") YES_NO None ;;
  row <- Record_init [("question", question); ("answer", answer)] ;;
  rows <- Repeat_init row (StrObj (EOL_text ++ EOL_text)) false ;;
  Prefix_init (StrObj example_header) rows None.

(** An answer, [True], [False] or [None], and the row of a question. *)
Definition answer_value (a : option bool) : value :=
  match a with
  | Some b => VBool b
  | None => VNone
  end.

Definition example_row (qa : string * option bool) : value :=
  VDict [("question", VStr (fst qa)); ("answer", answer_value (snd qa))].

Definition answer_text (a : option bool) : string :=
  match a with
  | Some true => "Yes"
  | Some false => "No"
  | None => ""
  end.

Definition row_text (qa : string * option bool) : string :=
  "Q: " ++ fst qa ++ EOL_text ++ "A: " ++ answer_text (snd qa).

(** The parts of that template, and the template as the constructors
    build it. *)
Definition example_question : template :=
  Affix (Fixed "Q: " (literal "Q: ")) SENTENCE (Some EOL).
Definition example_answer : template :=
  Affix (Fixed "A: " (literal "A: ")) YES_NO None.
Definition example_record : template :=
  Record_ [("question", example_question); ("answer", example_answer)].
Definition blank_line : string := EOL_text ++ EOL_text.
Definition example_header_pattern : regex :=
  Eval vm_compute in
    match re_compile example_header with
    | Ok r => r
    | _ => Eps
    end.
Definition example_built : template :=
  Affix (Fixed example_header example_header_pattern)
    (Repeat example_record (Fixed blank_line (literal blank_line)) false)
    None.

(** Rows with their answers, and the text of a prompt. *)
Definition answered (rows : list (string * bool))
  : list (string * option bool) :=
  map (fun qb => (fst qb, Some (snd qb))) rows.

Definition example_text (rows : list (string * bool)) : string :=
  example_header ++ join blank_line (map row_text (answered rows)).

(** *** Sentences *)

(** The two character classes of [SENTENCE]. *)
Definition is_body (c : ascii) : bool :=
  in_class true [(nl, nl); (".", "."); ("?", "?"); ("!", "!")]%char c.
Definition is_terminator (c : ascii) : bool :=
  in_class false [(".", "."); ("?", "?"); ("!", "!")]%char c.

(** Body characters, then at most one terminator and nothing else. *)
Fixpoint body_then_terminator (q : string) : bool :=
  match q with
  | EmptyString => true
  | String c q' =>
      if is_body c then body_then_terminator q'
      else is_terminator c && match q' with
                              | EmptyString => true
                              | _ => false
                              end
  end.

(** A sentence: at least one body character, then possibly one of
    [.], [?] and [!]. *)
Definition is_sentence (q : string) : bool :=
  match q with
  | EmptyString => false
  | String c q' => is_body c && body_then_terminator q'
  end.

(* ================================================================== *)
(** ** The predefined instances are what their constructors build *)

Lemma predefined_instances :
  Fixed_init "" None = Ok NOTHING
  /\ Pattern_init "[^\n\.\?\!]+[\.\?\!]?" = Ok SENTENCE
  /\ Fixed_init EOL_text None = Ok EOL
  /\ Fixed_init " " (Some " +") = Ok SPACE
  /\ Option_init [(VBool false, StrObj "No"); (VBool true, StrObj "Yes")]
     = Ok YES_NO
  /\ re_compile "-?[0-9]+" = Ok Integer_pattern
  /\ Integer_init = Ok NUM.
Proof. repeat split; reflexivity. Qed.

(* ================================================================== *)
(** ** Scenarios *)

(** C3, as stated, fails: with the default [trailing_delimiter=False] the
    rendering of the two sentences does not end with a newline. *)
Lemma numbered_list_fill_no_final_newline :
  (t <- numbered_sentences false ;; fill t first_second)
  <> Ok (VStr ("1. First." ++ EOL_text ++ "2. Second." ++ EOL_text)).
Proof. vm_compute. discriminate. Qed.

(** C3, amended: the numbered list renders each item after its 1-based
    decimal label and puts a newline between the items; the newline after
    the last item is there only when [trailing_delimiter] is set. *)
Theorem numbered_list_fill_scenario :
  (t <- numbered_sentences false ;; fill t first_second)
  = Ok (VStr ("1. First." ++ EOL_text ++ "2. Second."))
  /\ (t <- numbered_sentences true ;; fill t first_second)
     = Ok (VStr ("1. First." ++ EOL_text ++ "2. Second." ++ EOL_text)).
Proof. split; vm_compute; reflexivity. Qed.

(* ================================================================== *)
(** ** Basic facts *)

Lemma bind_Ok {A B : Type} (m : res A) (f : A -> res B) (b : B) :
  bind m f = Ok b -> exists a, m = Ok a /\ f a = Ok b.
Proof. destruct m as [a| |]; simpl; intros H; try discriminate; eauto. Qed.

Ltac inv_bind H :=
  let x := fresh "x" in
  let E := fresh "E" in
  apply bind_Ok in H; destruct H as [x [E H]].

Lemma not_None_is_None v : v <> VNone -> is_None v = false.
Proof. destruct v; auto; congruence. Qed.

Lemma len_nonneg (txt : string) : 0 <= len txt.
Proof. unfold len; lia. Qed.

Lemma len_append (a b : string) : len (a ++ b) = len a + len b.
Proof.
  unfold len. induction a as [|c a IH]; simpl String.length; [lia|].
  rewrite !Nat2Z.inj_succ. simpl in IH. lia.
Qed.

(** From the nested induction hypotheses to a statement about members. *)
#[universes(polymorphic)]
Lemma list_all_In {A : Type} (P : A -> Prop) (l : list A) :
  list_all A P l -> forall a, In a l -> P a.
Proof.
  induction 1 as [|a pa l _ IH]; intros b I; simpl in I; [contradiction|].
  destruct I as [E|I]; subst; auto.
Qed.

#[universes(polymorphic)]
Lemma list_all_snd {A B : Type} (P : B -> Prop) (l : list (A * B)) :
  list_all (A * B) (prod_all A (fun _ => unit) B P) l ->
  forall a b, In (a, b) l -> P b.
Proof.
  induction 1 as [|x px l _ IH]; intros a b I; simpl in I; [contradiction|].
  destruct I as [E|I]; subst; eauto.
  inversion px; subst; assumption.
Qed.

(** *** The cursor moves forward over one text *)

Lemma cursor_le_refl sp : cursor_le sp sp.
Proof. split; [reflexivity|lia]. Qed.

Lemma cursor_le_trans a b c : cursor_le a b -> cursor_le b c -> cursor_le a c.
Proof. intros [E1 L1] [E2 L2]; split; [congruence|lia]. Qed.

Lemma cursor_le_advance sp n : 0 <= n -> cursor_le sp (advance sp n).
Proof. intros H; split; simpl; [reflexivity|lia]. Qed.

Lemma Fixed_match_cursor r sp : cursor_le sp (snd (Fixed_match r sp)).
Proof.
  unfold Fixed_match. destruct (re_match r (s sp) (pos sp)); simpl.
  - apply cursor_le_advance, len_nonneg.
  - apply cursor_le_refl.
Qed.

Lemma Pattern_match_cursor r sp : cursor_le sp (snd (Pattern_match r sp)).
Proof.
  unfold Pattern_match. destruct (re_match r (s sp) (pos sp)); simpl.
  - apply cursor_le_advance, len_nonneg.
  - apply cursor_le_refl.
Qed.

Lemma Integer_match_cursor sp v sp' :
  Integer_match sp = Ok (v, sp') -> cursor_le sp sp'.
Proof.
  unfold Integer_match.
  pose proof (Pattern_match_cursor Integer_pattern sp) as C.
  destruct (Pattern_match Integer_pattern sp) as [txt sp1]; simpl in C.
  destruct (py_int txt) as [i|[]|]; intros H; inversion H; subst; auto;
    destruct C as [E _]; split; simpl; auto; lia.
Qed.

Section MatchCursor.
Variable M : template -> StringPos -> matched.

Lemma Append_loop_cursor ts :
  (forall t, In t ts -> forward M t) ->
  forall sp acc v sp',
    Append_loop M ts sp acc = Ok (v, sp') -> cursor_le sp sp'.
Proof.
  induction ts as [|t ts IH]; intros HM sp acc v sp' H; simpl in H.
  - inversion H; subst. apply cursor_le_refl.
  - inv_bind H. destruct x as [m sp1].
    assert (C1 : cursor_le sp sp1) by (eapply HM; [left; reflexivity|eauto]).
    destruct (is_None m).
    + inversion H; subst; assumption.
    + eapply cursor_le_trans; [exact C1|].
      eapply IH; [|exact H]. intros t' I; apply HM; right; assumption.
Qed.

Lemma Repeat_loop_cursor it d :
  forward M it -> forward M d ->
  forall budget st st' sp0,
    cursor_le sp0 (r_sp st) -> pos sp0 <= i_revert st ->
    Repeat_loop M it d budget st = Ok st' ->
    cursor_le sp0 (r_sp st') /\ pos sp0 <= i_revert st'.
Proof.
  intros Hit Hd. induction budget as [|b IH]; intros st st' sp0 C R H;
    simpl in H; [discriminate|].
  inv_bind H. destruct x as [m sp1].
  assert (C1 : cursor_le sp0 sp1)
    by (eapply cursor_le_trans; [exact C|eapply Hit; eauto]).
  destruct (is_None m).
  - inversion H; subst; simpl; auto.
  - inv_bind H. destruct x as [dm sp2].
    assert (C2 : cursor_le sp0 sp2)
      by (eapply cursor_le_trans; [exact C1|eapply Hd; eauto]).
    destruct (is_None dm).
    + inversion H; subst; simpl; split; [assumption|apply C1].
    + eapply IH; [| |exact H]; simpl; [assumption|apply C1].
Qed.

Lemma Repeat_match_cursor it d tr budget :
  forward M it -> forward M d ->
  forall sp v sp',
    Repeat_match M it d tr budget sp = Ok (v, sp') -> cursor_le sp sp'.
Proof.
  intros Hit Hd sp v sp' H. unfold Repeat_match in H. inv_bind H.
  eapply (Repeat_loop_cursor it d Hit Hd _ _ _ sp) in E;
    [|apply cursor_le_refl|simpl; lia].
  destruct E as [[E1 E2] E3]. inversion H; subst.
  destruct (negb (is_None (last_dm x)) && negb tr); split; simpl; auto.
Qed.

Lemma NumberedList_match_cursor it d tr budget :
  forward M it -> forward M d ->
  forall sp v sp',
    NumberedList_match M it d tr budget sp = Ok (v, sp') -> cursor_le sp sp'.
Proof.
  intros Hit Hd sp v sp' H. unfold NumberedList_match in H. inv_bind H.
  destruct x as [sm sp1].
  apply (Repeat_match_cursor it d tr budget Hit Hd) in E.
  destruct (is_None sm).
  - inversion H; subst; assumption.
  - inv_bind H. inv_bind H. inversion H; subst; assumption.
Qed.

Lemma Affix_match_cursor p c sfx :
  forward M p -> forward M c ->
  (forall t, sfx = Some t -> forward M t) ->
  forall sp v sp', Affix_match M p c sfx sp = Ok (v, sp') -> cursor_le sp sp'.
Proof.
  intros Hp Hc Hs sp v sp' H. unfold Affix_match in H. inv_bind H.
  destruct x as [pm sp1]. apply Hp in E.
  destruct (is_None pm); [inversion H; subst; assumption|].
  inv_bind H. destruct x as [cm sp2]. apply Hc in E0.
  pose proof (cursor_le_trans _ _ _ E E0) as C2.
  destruct (is_None cm); [inversion H; subst; assumption|].
  destruct sfx as [t|].
  - inv_bind H. destruct x as [sm sp3]. apply (Hs t eq_refl) in E1.
    inversion H; subst. eapply cursor_le_trans; eauto.
  - inversion H; subst; assumption.
Qed.

Lemma Record_loop_cursor fields :
  (forall n t, In (n, t) fields -> forward M t) ->
  forall sp rec v sp',
    Record_loop M fields sp rec = Ok (v, sp') -> cursor_le sp sp'.
Proof.
  induction fields as [|[n t] fields IH]; intros HM sp rec v sp' H;
    simpl in H.
  - inversion H; subst. apply cursor_le_refl.
  - inv_bind H. destruct x as [m sp1].
    assert (C1 : cursor_le sp sp1) by (eapply HM; [left; reflexivity|eauto]).
    eapply cursor_le_trans; [exact C1|].
    eapply IH; [|exact H]. intros n' t' I; eapply HM; right; eassumption.
Qed.

Lemma Option_loop_cursor vts :
  (forall k t, In (k, t) vts -> forward M t) ->
  forall sp v sp', Option_loop M vts sp = Ok (v, sp') -> cursor_le sp sp'.
Proof.
  induction vts as [|[k t] vts IH]; intros HM sp v sp' H; simpl in H.
  - inversion H; subst. apply cursor_le_refl.
  - inv_bind H. destruct x as [m sp1].
    assert (C1 : cursor_le sp sp1) by (eapply HM; [left; reflexivity|eauto]).
    destruct (is_None m).
    + eapply cursor_le_trans; [exact C1|].
      eapply IH; [|exact H]. intros k' t' I; eapply HM; right; eassumption.
    + inversion H; subst; assumption.
Qed.

End MatchCursor.

(** Every [_match] that returns leaves the cursor on the same text, at
    or after the position where it found it. *)
Lemma _match_cursor fuel t : forward (_match fuel) t.
Proof.
  induction t as [d r|r| |ts IH|it IHit d IHd tr|it IHit d IHd tr st
                 |p IHp c IHc sfx IHs|fields IH|vts IH|txt];
    intros sp v sp' H; simpl in H.
  - pose proof (Fixed_match_cursor r sp) as C. inversion H as [E].
    rewrite E in C. exact C.
  - pose proof (Pattern_match_cursor r sp) as C. inversion H as [E].
    rewrite E in C. exact C.
  - eapply Integer_match_cursor; eauto.
  - eapply Append_loop_cursor; [|exact H].
    apply (list_all_In _ _ IH).
  - eapply Repeat_match_cursor; [exact IHit|exact IHd|exact H].
  - eapply NumberedList_match_cursor; [exact IHit|exact IHd|exact H].
  - eapply Affix_match_cursor; [exact IHp|exact IHc| |exact H].
    intros t ->. inversion IHs; subst; assumption.
  - eapply Record_loop_cursor; [|exact H].
    intros n t I. exact (list_all_snd _ _ IH n t I).
  - eapply Option_loop_cursor; [|exact H].
    intros k t I. exact (list_all_snd _ _ IH k t I).
  - discriminate.
Qed.

(* ================================================================== *)
(** ** Repeat: the trailing delimiter *)

(** Equations of [_match] on the composite templates. *)
Lemma _match_Repeat fuel it d tr sp :
  _match fuel (Repeat it d tr) sp
  = Repeat_match (_match fuel) it d tr fuel sp.
Proof. reflexivity. Qed.

Lemma _match_Fixed fuel d r sp :
  _match fuel (Fixed d r) sp = Ok (Fixed_match r sp).
Proof. reflexivity. Qed.

Lemma Repeat_loop_step M it d budget st :
  Repeat_loop M it d (S budget) st =
  '(m, sp1) <- M it (r_sp st) ;;
  if is_None m then
    Ok {| r_sp := sp1; vals := vals st; i_revert := i_revert st;
          last_dm := last_dm st |}
  else
    '(dm, sp2) <- M d sp1 ;;
    let st2 := {| r_sp := sp2; vals := (vals st ++ [m])%list;
                  i_revert := pos sp1; last_dm := dm |} in
    if is_None dm then Ok st2 else Repeat_loop M it d budget st2.
Proof. reflexivity. Qed.

(** C5: over an item template that renders and reads back ["a"] and ["b"],
    with delimiter [","]: without trailing delimiter, [fill] of
    [["a","b"]] is ["a,b"], and [_match] on ["a,b,"] from position 0
    returns [["a","b"]] and leaves the cursor at 3, before the last
    comma; with trailing delimiter, [fill] is ["a,b,"]. *)
Theorem repeat_trailing_delimiter_law
  (fuel : nat) (item : template) (sp4 : StringPos)
  (enough : (3 <= fuel)%nat)
  (fill_a : fill item (VStr "a") = Ok (VStr "a"))
  (fill_b : fill item (VStr "b") = Ok (VStr "b"))
  (item_at_0 : _match fuel item {| s := "a,b,"; pos := 0 |}
               = Ok (VStr "a", {| s := "a,b,"; pos := 1 |}))
  (item_at_2 : _match fuel item {| s := "a,b,"; pos := 2 |}
               = Ok (VStr "b", {| s := "a,b,"; pos := 3 |}))
  (item_at_4 : _match fuel item {| s := "a,b,"; pos := 4 |}
               = Ok (VNone, sp4)) :
  (t <- Repeat_init item (StrObj ",") false ;;
   fill t (VList [VStr "a"; VStr "b"])) = Ok (VStr "a,b")
  /\ (t <- Repeat_init item (StrObj ",") false ;;
      _match fuel t {| s := "a,b,"; pos := 0 |})
     = Ok (VList [VStr "a"; VStr "b"], {| s := "a,b,"; pos := 3 |})
  /\ (t <- Repeat_init item (StrObj ",") true ;;
      fill t (VList [VStr "a"; VStr "b"])) = Ok (VStr "a,b,").
Proof.
  assert (I : forall tr, Repeat_init item (StrObj ",") tr
                         = Ok (Repeat item (Fixed "," (Chr ",")) tr))
    by reflexivity.
  rewrite !I. cbn [bind].
  assert (F : forall tr,
             fill (Repeat item (Fixed "," (Chr ",")) tr)
               (VList [VStr "a"; VStr "b"])
             = Ok (VStr (if tr then "a,b," else "a,b"))).
  { intros tr. cbn [fill Repeat_fill is_None fill_noargs bind as_str py_iter
                    mapM].
    rewrite fill_a, fill_b. destruct tr; reflexivity. }
  rewrite !F. split; [reflexivity|]. split; [|reflexivity].
  destruct fuel as [|[|[|f]]]; try lia.
  remember (S (S (S f))) as n eqn:En.
  rewrite _match_Repeat. unfold Repeat_match.
  rewrite En at 2. rewrite Repeat_loop_step. cbn [r_sp vals i_revert last_dm].
  rewrite item_at_0. cbn [bind is_None]. rewrite _match_Fixed.
  change (Fixed_match (Chr ",") {| s := "a,b,"; pos := 1 |})
    with (VStr ",", {| s := "a,b,"; pos := 2 |}).
  cbn [bind is_None app pos]. rewrite Repeat_loop_step.
  cbn [r_sp vals i_revert last_dm]. rewrite item_at_2.
  cbn [bind is_None]. rewrite _match_Fixed.
  change (Fixed_match (Chr ",") {| s := "a,b,"; pos := 3 |})
    with (VStr ",", {| s := "a,b,"; pos := 4 |}).
  cbn [bind is_None app pos]. rewrite Repeat_loop_step.
  cbn [r_sp vals i_revert last_dm]. rewrite item_at_4.
  cbn [bind is_None r_sp vals i_revert last_dm negb andb].
  apply _match_cursor in item_at_4. destruct item_at_4 as [E _].
  simpl in E. unfold set_pos. rewrite E. reflexivity.
Qed.

(** The law at the item template [Pattern("[a-z]")]. *)
Lemma repeat_trailing_delimiter_law_witness :
  (t <- Repeat_init (Pattern (Cls false [("a", "z")%char])) (StrObj ",") false ;;
   _match 3 t {| s := "a,b,"; pos := 0 |})
  = Ok (VList [VStr "a"; VStr "b"], {| s := "a,b,"; pos := 3 |}).
Proof.
  apply (repeat_trailing_delimiter_law 3 (Pattern (Cls false [("a", "z")%char]))
           {| s := "a,b,"; pos := 4 |});
    [lia|reflexivity..].
Defined.

(* ================================================================== *)
(** ** Option: declaration order decides *)

(** A [Fixed] that does not match fails in place. *)
Lemma Fixed_fails_in_place fuel d r sp :
  re_match r (s sp) (pos sp) = None ->
  _match fuel (Fixed d r) sp = Ok (VNone, sp).
Proof. intros H. simpl. unfold Fixed_match. rewrite H. reflexivity. Qed.

Lemma Fixed_matches fuel d r sp m :
  re_match r (s sp) (pos sp) = Some m ->
  _match fuel (Fixed d r) sp
  = Ok (VStr (group0 m), advance sp (len (group0 m))).
Proof. intros H. simpl. unfold Fixed_match. rewrite H. reflexivity. Qed.

(** The loop of [Option._match] returns at the first template that
    matches. *)
Lemma Option_loop_first M before val val_template after sp m sp' :
  Forall (fun vt => M (snd vt) sp = Ok (VNone, sp)) before ->
  M val_template sp = Ok (m, sp') ->
  m <> VNone ->
  Option_loop M (before ++ (val, val_template) :: after) sp = Ok (val, sp').
Proof.
  intros earlier_fail hit is_match.
  induction earlier_fail as [|[k t] before Hk _ IH]; cbn [app Option_loop].
  - rewrite hit. cbn [bind]. rewrite (not_None_is_None m is_match).
    reflexivity.
  - cbn [snd] in Hk. rewrite Hk. cbn [bind is_None]. exact IH.
Qed.

(** C8: [Option._match] goes through the mapping in insertion order and
    returns the value of the first template that matches, with the cursor
    where that template left it; the entries declared after it are not
    looked at. *)
Theorem Option_match_first_declared
  (fuel : nat) (before after : list (value * template))
  (val : value) (val_template : template) (m : value) (sp sp' : StringPos)
  (earlier_fail :
     Forall (fun vt => _match fuel (snd vt) sp = Ok (VNone, sp)) before)
  (hit : _match fuel val_template sp = Ok (m, sp'))
  (is_match : m <> VNone) :
  _match fuel (Option (before ++ (val, val_template) :: after)) sp
  = Ok (val, sp').
Proof.
  cbn [_match].
  exact (Option_loop_first (_match fuel) before val val_template after sp m
           sp' earlier_fail hit is_match).
Qed.

(** [Option({1: "a", 2: "ab"})] on ["ab"] returns 1 and consumes one
    character; [Option({1: "a", 2: "b"})] on ["b"] passes the first entry,
    which fails in place, and returns 2. *)
Lemma Option_match_first_declared_witness :
  (t <- Option_init [(VInt 1, StrObj "a"); (VInt 2, StrObj "ab")] ;;
   _match 0 t {| s := "ab"; pos := 0 |})
  = Ok (VInt 1, {| s := "ab"; pos := 1 |})
  /\ (t <- Option_init [(VInt 1, StrObj "a"); (VInt 2, StrObj "b")] ;;
      _match 0 t {| s := "b"; pos := 0 |})
     = Ok (VInt 2, {| s := "b"; pos := 1 |}).
Proof.
  split.
  - apply (Option_match_first_declared 0 []
             [(VInt 2, Fixed "ab" (Cat (Chr "a") (Chr "b")))]
             (VInt 1) (Fixed "a" (Chr "a")) (VStr "a")
             {| s := "ab"; pos := 0 |} {| s := "ab"; pos := 1 |});
      [constructor|reflexivity|discriminate].
  - apply (Option_match_first_declared 0 [(VInt 1, Fixed "a" (Chr "a"))] []
             (VInt 2) (Fixed "b" (Chr "b")) (VStr "b")
             {| s := "b"; pos := 0 |} {| s := "b"; pos := 1 |});
      [repeat constructor|reflexivity|discriminate].
Defined.

(* ================================================================== *)
(** ** Affix: the suffix is tried and not checked *)

Lemma _match_Affix fuel p c sfx sp :
  _match fuel (Affix p c sfx) sp = Affix_match (_match fuel) p c sfx sp.
Proof. reflexivity. Qed.

(** C6: once the prefix and the content have matched, the suffix is
    attempted and its outcome [sm] is ignored: the node returns the value
    of the content, with the cursor where the suffix attempt left it.
    For a [Fixed] suffix that is after the suffix text when it matches,
    and where the content ended when it does not. *)
Theorem Affix_suffix_not_checked
  (fuel : nat) (prefix content sfx : template)
  (pm cm sm : value) (sp sp1 sp2 sp3 : StringPos)
  (prefix_matches : _match fuel prefix sp = Ok (pm, sp1))
  (pm_found : pm <> VNone)
  (content_matches : _match fuel content sp1 = Ok (cm, sp2))
  (cm_found : cm <> VNone)
  (suffix_tried : _match fuel sfx sp2 = Ok (sm, sp3)) :
  _match fuel (Affix prefix content (Some sfx)) sp = Ok (cm, sp3)
  /\ forall d r, sfx = Fixed d r ->
       sp3 = match re_match r (s sp2) (pos sp2) with
             | Some m => advance sp2 (len (group0 m))
             | None => sp2
             end.
Proof.
  split.
  - rewrite _match_Affix. unfold Affix_match.
    rewrite prefix_matches. cbn [bind].
    rewrite (not_None_is_None pm pm_found).
    rewrite content_matches. cbn [bind].
    rewrite (not_None_is_None cm cm_found).
    rewrite suffix_tried. reflexivity.
  - intros d r ->. rewrite _match_Fixed in suffix_tried.
    unfold Fixed_match in suffix_tried.
    destruct (re_match r (s sp2) (pos sp2)); congruence.
Qed.

(** [Affix("<", NUM, ">")] reads 12 from ["<12>"], ending after [">"],
    and reads 12 from ["<12"] as well, ending after the digits. *)
Lemma Affix_suffix_not_checked_witness :
  (t <- Affix_init (StrObj "<") NUM (Some (StrObj ">")) ;;
   _match 0 t {| s := "<12>"; pos := 0 |})
  = Ok (VInt 12, {| s := "<12>"; pos := 4 |})
  /\ (t <- Affix_init (StrObj "<") NUM (Some (StrObj ">")) ;;
      _match 0 t {| s := "<12"; pos := 0 |})
     = Ok (VInt 12, {| s := "<12"; pos := 3 |}).
Proof.
  split.
  - apply (Affix_suffix_not_checked 0 (Fixed "<" (Chr "<")) NUM
             (Fixed ">" (Chr ">")) (VStr "<") (VInt 12) (VStr ">")
             {| s := "<12>"; pos := 0 |} {| s := "<12>"; pos := 1 |}
             {| s := "<12>"; pos := 3 |} {| s := "<12>"; pos := 4 |});
      solve [reflexivity | discriminate].
  - apply (Affix_suffix_not_checked 0 (Fixed "<" (Chr "<")) NUM
             (Fixed ">" (Chr ">")) (VStr "<") (VInt 12) VNone
             {| s := "<12"; pos := 0 |} {| s := "<12"; pos := 1 |}
             {| s := "<12"; pos := 3 |} {| s := "<12"; pos := 3 |});
      solve [reflexivity | discriminate].
Defined.

(* ================================================================== *)
(** ** Record: a field that fails is left out *)

Lemma _match_Record fuel fields sp :
  _match fuel (Record_ fields) sp = Record_loop (_match fuel) fields sp [].
Proof. reflexivity. Qed.

(** What [Record._match] returns is the outcome of a run. *)
Lemma Record_loop_is_run fuel fields :
  forall sp rec v sp',
    Record_loop (_match fuel) fields sp rec = Ok (v, sp') ->
    exists rec', v = VDict rec' /\ Record_run fuel fields sp rec sp' rec'.
Proof.
  induction fields as [|[name t] rest IH]; intros sp rec v sp' H;
    cbn [Record_loop] in H.
  - inversion H; subst. exists rec. split; [reflexivity|constructor].
  - inv_bind H. destruct x as [m sp1].
    destruct (IH _ _ _ _ H) as [rec' [-> Run]].
    exists rec'. split; [reflexivity|].
    destruct m; cbn [is_None] in Run;
      solve [ eapply run_omitted; eauto
            | eapply run_kept; eauto; discriminate ].
Qed.

(** It returns when the fields return where they are tried. *)
Lemma Record_loop_returns fuel fields :
  forall sp rec,
    fields_return fuel fields sp ->
    exists r, Record_loop (_match fuel) fields sp rec = Ok r.
Proof.
  induction fields as [|[name t] rest IH]; intros sp rec R.
  - eexists. reflexivity.
  - destruct R as [m [sp1 [E R]]]. cbn [Record_loop]. rewrite E.
    cbn [bind]. apply IH, R.
Qed.

(** C7: [Record._match] returns whenever its field templates return
    where they are tried, each at the cursor the field before it left;
    and what it returns is a mapping, never the failure signal: the
    fields are attempted in declaration order at the advancing cursor, a
    field that fails is left out, and the fields after it are still
    attempted. *)
Theorem Record_match_never_fails
  (fuel : nat) (fields : list (string * template)) (sp : StringPos)
  (returns : fields_return fuel fields sp) :
  exists rec sp',
    _match fuel (Record_ fields) sp = Ok (VDict rec, sp')
    /\ VDict rec <> VNone
    /\ Record_run fuel fields sp [] sp' rec.
Proof.
  rewrite _match_Record.
  destruct (Record_loop_returns fuel fields sp [] returns) as [[v sp'] L].
  destruct (Record_loop_is_run fuel fields sp [] v sp' L) as [rec [-> Run]].
  exists rec, sp'. repeat split; [exact L|discriminate|exact Run].
Qed.

(** [Record(q="Q", items=Repeat(Pattern("[a-z]"), ","), a="A")] on
    ["a,bA"]: the field [q] fails and is left out, the list of [items] is
    read, and the field [a] is attempted after it and kept. *)
Lemma Record_match_never_fails_witness :
  exists rec sp',
    _match 3 letters_record {| s := "a,bA"; pos := 0 |} = Ok (VDict rec, sp')
    /\ VDict rec <> VNone
    /\ Record_run 3
         [("q", Fixed "Q" (Chr "Q"));
          ("items", Repeat (Pattern (Cls false [("a", "z")%char]))
                      (Fixed "," (Chr ",")) false);
          ("a", Fixed "A" (Chr "A"))]
         {| s := "a,bA"; pos := 0 |} [] sp' rec.
Proof.
  apply (Record_match_never_fails 3
           [("q", Fixed "Q" (Chr "Q"));
            ("items", Repeat (Pattern (Cls false [("a", "z")%char]))
                        (Fixed "," (Chr ",")) false);
            ("a", Fixed "A" (Chr "A"))]
           {| s := "a,bA"; pos := 0 |}).
  cbn [fields_return].
  eexists _, _. split; [reflexivity|].
  eexists _, _. split; [reflexivity|].
  eexists _, _. split; [reflexivity|exact I].
Defined.

(* ================================================================== *)
(** ** Affix: a plain string as content *)

Lemma str_to_fixed_Fixed x t :
  str_or_Fixed x = true -> str_to_fixed x = Ok t ->
  exists d r, t = Fixed d r.
Proof.
  destruct x; try discriminate; intros _ H; simpl in H.
  - inversion H; subst; eauto.
  - unfold Fixed_init in H. inv_bind H. inversion H; subst; eauto.
Qed.

Lemma Affix_init_Ok prefix content suffix t :
  Affix_init prefix content suffix = Ok t ->
  exists p sfx, str_to_fixed prefix = Ok p /\ t = Affix p content sfx.
Proof.
  unfold Affix_init. intros H. inv_bind H. inv_bind H.
  inversion H; subst. eauto.
Qed.

Lemma re_match_Eps txt p : re_match Eps txt p <> None.
Proof. unfold re_match. simpl. discriminate. Qed.

(** C10, as stated, fails: [Affix("x", "y").match("z")] returns [None],
    since the prefix does not match and the content is never reached. *)
Lemma Affix_str_content_match_returns_None :
  (t <- Affix_init (StrObj "x") (StrObj "y") None ;; match_ 0 t "z" 0)
  = Ok VNone.
Proof. reflexivity. Qed.

(** C10, amended: [Affix] keeps a plain string given as content as it
    is.  With a [str] or [Fixed] prefix, [fill] then raises
    [AttributeError] on every value; [match] raises [AttributeError] when
    the prefix matches at the start position, and returns [None] when it
    does not.  For [Suffix], whose prefix is the empty [Fixed], both
    always raise [AttributeError]. *)
Theorem Affix_str_content
  (prefix : template) (c : string) (suffix : option template) (t : template)
  (prefix_type : str_or_Fixed prefix = true)
  (built : Affix_init prefix (StrObj c) suffix = Ok t) :
  (exists d r sfx,
     t = Affix (Fixed d r) (StrObj c) sfx
     /\ (forall v, fill t v = Raise AttributeError)
     /\ (forall fuel txt start,
           match_ fuel t txt start
           = match re_match r txt start with
             | Some _ => Raise AttributeError
             | None => Ok VNone
             end))
  /\ (forall sfx t', Suffix_init (StrObj c) sfx = Ok t' ->
        (forall v, fill t' v = Raise AttributeError)
        /\ (forall fuel txt start,
              match_ fuel t' txt start = Raise AttributeError)).
Proof.
  split.
  - destruct (Affix_init_Ok _ _ _ _ built) as [p [sfx [Hp ->]]].
    destruct (str_to_fixed_Fixed _ _ prefix_type Hp) as [d [r ->]].
    exists d, r, sfx. split; [reflexivity|]. split.
    + intros v. reflexivity.
    + intros fuel txt start. unfold match_. rewrite _match_Affix.
      unfold Affix_match. rewrite _match_Fixed. unfold Fixed_match.
      cbn [s pos bind]. destruct (re_match r txt start); reflexivity.
  - intros sfx t' H. unfold Suffix_init in H.
    destruct (Affix_init_Ok _ _ _ _ H) as [p [sfx' [Hp ->]]].
    simpl in Hp. inversion Hp; subst p. split.
    + intros v. reflexivity.
    + intros fuel txt start. unfold match_. rewrite _match_Affix.
      unfold Affix_match, NOTHING. rewrite _match_Fixed. unfold Fixed_match.
      cbn [s pos bind].
      destruct (re_match Eps txt start) eqn:E; [reflexivity|].
      exfalso. exact (re_match_Eps _ _ E).
Qed.

(** [Affix("x", "y")]: [fill] raises; [match] raises on ["xy"], where
    the prefix matches. *)
Lemma Affix_str_content_witness :
  (t <- Affix_init (StrObj "x") (StrObj "y") None ;; fill t (VStr "v"))
  = Raise AttributeError
  /\ (t <- Affix_init (StrObj "x") (StrObj "y") None ;; match_ 0 t "xy" 0)
     = Raise AttributeError.
Proof.
  destruct (Affix_str_content (StrObj "x") "y" None
              (Affix (Fixed "x" (Chr "x")) (StrObj "y") None)
              eq_refl eq_refl)
    as [[d [r [sfx [E [F M]]]]] _].
  split.
  - exact (F (VStr "v")).
  - injection E as <- <- <-. exact (M 0%nat "xy" 0).
Defined.

(* ================================================================== *)
(** ** Append: [fill] pairs sub-templates and items with [zip] *)

Lemma fill_Append ts v :
  fill (Append ts) v = Append_fill fill ts v.
Proof. reflexivity. Qed.

Lemma zip_firstn {A B : Type} (a : list A) (b : list B) :
  zip (firstn (Nat.min (List.length a) (List.length b)) a)
      (firstn (Nat.min (List.length a) (List.length b)) b)
  = zip a b.
Proof.
  revert b. induction a as [|x a IH]; intros [|y b]; simpl; auto.
  f_equal. apply IH.
Qed.

Lemma Append_parts_zip F ts vs :
  Append_parts F ts vs = mapM (fun tv => F (fst tv) (snd tv)) (zip ts vs).
Proof.
  revert vs. induction ts as [|t ts IH]; intros [|v vs]; simpl; auto.
  rewrite IH. reflexivity.
Qed.

Lemma mapM_Forall2 {A B : Type} (f : A -> res B) l out :
  Forall2 (fun a b => f a = Ok b) l out -> mapM f l = Ok out.
Proof.
  induction 1 as [|a b l out E _ IH]; simpl; auto.
  rewrite E. simpl. rewrite IH. reflexivity.
Qed.

(** C4, as stated, fails: one item for two sub-templates is rendered
    without any error. *)
Lemma Append_fill_short_items_no_error :
  (t <- Append_init [SENTENCE; NUM] ;; fill t (VTuple [VStr "x"]))
  = Ok (VStr "x").
Proof. reflexivity. Qed.

(** C4, amended: [Append.fill] raises nothing on account of the arity.
    It renders the pairs of [zip(item_templates, items)], that is the
    first [min] slots, ignores what is left of the longer sequence, and
    returns the concatenation of the renderings. *)
Theorem Append_fill_truncates
  (ts : list template) (items : list value) (parts : list string)
  (rendered : Forall2 (fun tv part => fill (fst tv) (snd tv) = Ok (VStr part))
                (zip ts items) parts) :
  fill (Append ts) (VTuple items) = Ok (VStr (join "" parts))
  /\ fill (Append ts) (VTuple items)
     = fill (Append (firstn (Nat.min (List.length ts) (List.length items)) ts))
         (VTuple (firstn (Nat.min (List.length ts) (List.length items)) items)).
Proof.
  split.
  - rewrite fill_Append. unfold Append_fill. cbn [is_None py_iter bind].
    rewrite Append_parts_zip.
    assert (E : mapM (fun tv => fill (fst tv) (snd tv)) (zip ts items)
                = Ok (map VStr parts)).
    { apply mapM_Forall2. induction rendered; simpl; constructor; auto. }
    rewrite E. cbn [bind]. unfold join_values.
    assert (S : mapM as_str (map VStr parts) = Ok parts).
    { clear. induction parts as [|p parts IH]; simpl; auto.
      rewrite IH. reflexivity. }
    rewrite S. reflexivity.
  - rewrite !fill_Append. unfold Append_fill. cbn [is_None py_iter bind].
    rewrite !Append_parts_zip, zip_firstn. reflexivity.
Qed.

(** Two sub-templates and one item; one sub-template and two items. *)
Lemma Append_fill_truncates_witness :
  fill (Append [SENTENCE; NUM]) (VTuple [VStr "x"]) = Ok (VStr "x")
  /\ fill (Append [SENTENCE]) (VTuple [VStr "x"; VInt 2]) = Ok (VStr "x").
Proof.
  split.
  - apply (Append_fill_truncates [SENTENCE; NUM] [VStr "x"] ["x"]).
    repeat constructor.
  - apply (Append_fill_truncates [SENTENCE] [VStr "x"; VInt 2] ["x"]).
    repeat constructor.
Defined.

(* ================================================================== *)
(** ** match: the value, without the end position *)

(** No value is the pair of itself and something. *)
Lemma value_not_own_pair v x : v <> VTuple [v; x].
Proof.
  intros E. apply (f_equal vsize) in E. simpl in E. lia.
Qed.

(** C1, as stated, fails: [Fixed("a").match("ab")] returns the string
    ["a"], not the pair [("a", 1)]. *)
Lemma match_does_not_return_a_pair :
  (t <- Fixed_init "a" None ;; match_ 0 t "ab" 0) = Ok (VStr "a")
  /\ (t <- Fixed_init "a" None ;; match_ 0 t "ab" 0)
     <> Ok (VTuple [VStr "a"; VInt 1]).
Proof. split; [reflexivity|discriminate]. Qed.

(** C1, amended: [match] runs [_match] on a fresh cursor and returns its
    value alone, the matched value or [None]; the end position stays in
    the cursor, which is on the same text at or after the start position
    and need not be at the end of the text. *)
Theorem match_returns_value_alone
  (fuel : nat) (t : template) (txt : string) (start : Z)
  (v : value) (sp' : StringPos)
  (run : _match fuel t {| s := txt; pos := start |} = Ok (v, sp')) :
  match_ fuel t txt start = Ok v
  /\ Ok v <> Ok (VTuple [v; VInt (pos sp')])
  /\ s sp' = txt
  /\ start <= pos sp'.
Proof.
  split; [unfold match_; rewrite run; reflexivity|].
  split; [intros E; inversion E as [E']; exact (value_not_own_pair _ _ E')|].
  apply _match_cursor in run. exact run.
Qed.

(** [Fixed("a")] on ["ab"]: the match succeeds with the cursor at 1, short
    of the length 2 of the text, and [match] returns ["a"]. *)
Lemma match_returns_value_alone_witness :
  match_ 0 (Fixed "a" (Chr "a")) "ab" 0 = Ok (VStr "a")
  /\ Ok (VStr "a") <> Ok (VTuple [VStr "a"; VInt 1])
  /\ "ab" = "ab"
  /\ 0 <= 1 < len "ab".
Proof.
  destruct (match_returns_value_alone 0 (Fixed "a" (Chr "a")) "ab" 0
              (VStr "a") {| s := "ab"; pos := 1 |} eq_refl)
    as [R [N [T L]]].
  split; [exact R|]. split; [exact N|]. split; [reflexivity|].
  split; [exact L|reflexivity].
Defined.

(* ================================================================== *)
(** ** The cursor after a failed attempt *)

Lemma is_None_true v : is_None v = true -> v = VNone.
Proof. destruct v; simpl; congruence. Qed.

Lemma set_pos_same sp sp1 : s sp1 = s sp -> set_pos sp1 (pos sp) = sp.
Proof. destruct sp, sp1; unfold set_pos; simpl; intros ->; reflexivity. Qed.

Lemma plain_leaf_fails_in_place fuel t sp sp' :
  plain_leaf t = true -> _match fuel t sp = Ok (VNone, sp') -> sp' = sp.
Proof.
  destruct t; try discriminate; intros L H; simpl in H.
  - unfold Fixed_match in H.
    destruct (re_match accepted_pattern (s sp) (pos sp)); congruence.
  - unfold Pattern_match, group_idx in H. simpl in L. rewrite L in H.
    destruct (re_match pattern (s sp) (pos sp)); simpl in H; congruence.
  - unfold Integer_match in H.
    pose proof (Pattern_match_cursor Integer_pattern sp) as [E _].
    destruct (Pattern_match Integer_pattern sp) as [txt sp1]; simpl in E.
    destruct (py_int txt) as [i|[]|]; inversion H; subst;
      apply set_pos_same; assumption.
Qed.

Lemma Append_loop_failure M ts :
  forall sp acc sp',
    Append_loop M ts sp acc = Ok (VNone, sp') ->
    exists before failing after matches sp1,
      ts = (before ++ failing :: after)%list
      /\ Append_loop M before sp acc = Ok (VTuple matches, sp1)
      /\ M failing sp1 = Ok (VNone, sp').
Proof.
  induction ts as [|t ts IH]; intros sp acc sp' H; simpl in H;
    [discriminate|].
  inv_bind H. destruct x as [m sp1]. destruct (is_None m) eqn:N.
  - apply is_None_true in N. subst m. inversion H; subst.
    exists [], t, ts, acc, sp. repeat split; auto.
  - destruct (IH _ _ _ H) as [before [failing [after [ms [sp2 [-> [L F]]]]]]].
    exists (t :: before), failing, after, ms, sp2. repeat split; auto.
    simpl. rewrite E. simpl. rewrite N. exact L.
Qed.

(** C9, as stated, fails: [Append("a", "b")] fails on ["ac"] and leaves
    the cursor at 1, after the ["a"] its first sub-template consumed;
    nothing reverts it. *)
Lemma Append_failure_leaves_cursor_advanced :
  (t <- Append_init [StrObj "a"; StrObj "b"] ;;
   _match 0 t {| s := "ac"; pos := 0 |})
  = Ok (VNone, {| s := "ac"; pos := 1 |}).
Proof. reflexivity. Qed.

(** C9, amended: a match attempt that returns leaves the cursor on the
    same text, never behind the position it started from.  When the
    attempt fails: a [Fixed], an [Integer] (by reverting to the recorded
    position) or a [Pattern] without capture group leaves the cursor
    where it was; an [Append] leaves it where its failing sub-template
    left it, after the text of the sub-templates that matched before, and
    does not revert. *)
Theorem cursor_after_match
  (fuel : nat) (t : template) (sp sp' : StringPos) (v : value)
  (run : _match fuel t sp = Ok (v, sp')) :
  (s sp' = s sp /\ pos sp <= pos sp')
  /\ (plain_leaf t = true -> v = VNone -> sp' = sp)
  /\ (forall ts, t = Append ts -> v = VNone ->
        exists before failing after matches sp1,
          ts = (before ++ failing :: after)%list
          /\ _match fuel (Append before) sp = Ok (VTuple matches, sp1)
          /\ _match fuel failing sp1 = Ok (VNone, sp')).
Proof.
  split; [exact (_match_cursor fuel t sp v sp' run)|]. split.
  - intros L ->. exact (plain_leaf_fails_in_place fuel t sp sp' L run).
  - intros ts -> ->. exact (Append_loop_failure _ ts sp [] sp' run).
Qed.

(** [Integer] on ["x12"] fails in place; [Append("a", "b")] on ["ac"]
    fails with the cursor after the ["a"]. *)
Lemma cursor_after_match_witness :
  (plain_leaf Integer = true -> VNone = VNone ->
   {| s := "x12"; pos := 0 |} = {| s := "x12"; pos := 0 |})
  /\ (0 <= 1).
Proof.
  split.
  - exact (proj1 (proj2 (cursor_after_match 0 Integer
                           {| s := "x12"; pos := 0 |}
                           {| s := "x12"; pos := 0 |} VNone eq_refl))).
  - exact (proj2 (proj1 (cursor_after_match 0
                           (Append [Fixed "a" (Chr "a"); Fixed "b" (Chr "b")])
                           {| s := "ac"; pos := 0 |}
                           {| s := "ac"; pos := 1 |} VNone eq_refl))).
Defined.

(* ================================================================== *)
(** ** Round trip *)

(** *** Integers: [str] and the pattern of [Integer] *)

Lemma string_of_uint_digits d : all_digits (NilEmpty.string_of_uint d) = true.
Proof. induction d; simpl; auto. Qed.

Lemma string_of_uint_nonempty d :
  d <> Decimal.Nil -> NilEmpty.string_of_uint d <> EmptyString.
Proof. destruct d; simpl; congruence. Qed.

(** [str] of an int: an optional minus sign and at least one digit. *)
Lemma str_of_int_shape z :
  exists c ds,
    is_digit c = true /\ all_digits ds = true
    /\ (str_of_int z = String c ds \/ str_of_int z = String "-" (String c ds)).
Proof.
  assert (U : forall d, d <> Decimal.Nil ->
                exists c ds, is_digit c = true /\ all_digits ds = true
                             /\ NilZero.string_of_uint d = String c ds).
  { intros d Hd. pose proof (string_of_uint_digits d) as A.
    destruct d; try congruence; simpl in A;
      refine (ex_intro _ _ (ex_intro _ _ (conj _ (conj _ eq_refl))));
      solve [reflexivity | exact A]. }
  unfold str_of_int. destruct z as [|p|p]; simpl.
  - exists "0"%char, EmptyString. auto.
  - destruct (U (Pos.to_uint p) (Unsigned.to_uint_nonnil p))
      as [c [ds [C [A E]]]].
    exists c, ds. rewrite E. auto.
  - destruct (U (Pos.to_uint p) (Unsigned.to_uint_nonnil p))
      as [c [ds [C [A E]]]].
    exists c, ds. rewrite E. auto.
Qed.

Lemma digit_not_sign c : is_digit c = true -> c <> "-"%char /\ c <> "+"%char.
Proof. intros H; split; intros ->; discriminate. Qed.

(** [int(str(z)) = z], within the limit on the digits. *)
Lemma py_int_str_of_int z :
  too_long (str_of_int z) = false -> py_int (VStr (str_of_int z)) = Ok z.
Proof.
  intros Fits. unfold py_int. rewrite Fits.
  assert (W : without_plus (str_of_int z) = str_of_int z).
  { destruct (str_of_int_shape z) as [c [ds [C [_ [E|E]]]]]; rewrite E.
    - unfold without_plus. destruct (digit_not_sign c C) as [_ N].
      destruct (Ascii.eqb_spec c "+"); [contradiction|reflexivity].
    - reflexivity. }
  rewrite W. unfold str_of_int. rewrite NilZero.isi.
  - rewrite DecimalZ.of_to. reflexivity.
  - destruct z; simpl; try discriminate.
    intros E; inversion E as [E']. exact (Unsigned.to_uint_nonnil _ E').
  - destruct z; simpl; try discriminate.
    intros E; inversion E as [E']. exact (Unsigned.to_uint_nonnil _ E').
Qed.

Lemma length_append (a b : string) :
  String.length (a ++ b) = (String.length a + String.length b)%nat.
Proof. induction a; simpl; auto. Qed.

Lemma take_append (a b : string) : take (String.length a) (a ++ b) = a.
Proof. induction a; simpl; [destruct b|]; congruence. Qed.

(** Equations of the matcher. *)
Lemma one_char_cons accept c txt n g k :
  one_char accept (String c txt) n g k
  = if accept c then k txt (S n) g else None.
Proof. reflexivity. Qed.

Lemma one_char_nil accept n g k : one_char accept EmptyString n g k = None.
Proof. reflexivity. Qed.

Lemma run_Cls negated ranges txt n g k :
  run (Cls negated ranges) txt n g k
  = one_char (in_class negated ranges) txt n g k.
Proof. reflexivity. Qed.

Lemma run_Chr c txt n g k :
  run (Chr c) txt n g k = one_char (Ascii.eqb c) txt n g k.
Proof. reflexivity. Qed.

Lemma run_Cat r1 r2 txt n g k :
  run (Cat r1 r2) txt n g k
  = run r1 txt n g (fun s' n' g' => run r2 s' n' g' k).
Proof. reflexivity. Qed.

Lemma run_Opt r txt n g k :
  run (Opt r) txt n g k = or_else (run r txt n g k) (fun _ => k txt n g).
Proof. reflexivity. Qed.

Lemma run_Plus r txt n g k :
  run (Plus r) txt n g k
  = run r txt n g (fun s' n' g' =>
      star_loop (run r) (S (String.length s')) s' n' g' k).
Proof. reflexivity. Qed.

Lemma star_loop_S body budget txt n g k :
  star_loop body (S budget) txt n g k
  = or_else
      (body txt n g (fun s' n' g' =>
         if (n <? n')%nat then star_loop body budget s' n' g' k else None))
      (fun _ => k txt n g).
Proof. reflexivity. Qed.

Lemma in_class_digit c : in_class false [("0", "9")%char] c = is_digit c.
Proof. unfold in_class, is_digit. simpl. apply orb_false_r. Qed.

Lemma digits_star ds :
  all_digits ds = true ->
  forall rest budget n g,
    starts_with_digit rest = false ->
    (String.length ds < budget)%nat ->
    star_loop (run (Cls false [("0", "9")%char])) budget (ds ++ rest) n g finish
    = Some ((n + String.length ds)%nat, g).
Proof.
  induction ds as [|c ds IH]; intros A rest budget n g R B;
    destruct budget as [|b]; try (simpl in B; lia).
  - cbn [append String.length]. rewrite Nat.add_0_r, star_loop_S, run_Cls.
    destruct rest as [|c rest]; [reflexivity|].
    simpl in R. rewrite one_char_cons, in_class_digit, R. reflexivity.
  - simpl in A. apply andb_prop in A. destruct A as [C A].
    cbn [append String.length].
    rewrite star_loop_S, run_Cls, one_char_cons, in_class_digit, C.
    assert (L : (n <? S n)%nat = true) by (apply Nat.ltb_lt; lia).
    rewrite L, (IH A rest b (S n) g R) by (simpl in B; lia).
    cbn [or_else]. f_equal. f_equal. lia.
Qed.

(** The pattern [-?[0-9]+], on the decimal writing of [z] followed by
    something that is not a digit, consumes that writing. *)
Lemma Integer_pattern_reads z rest :
  starts_with_digit rest = false ->
  run Integer_pattern (str_of_int z ++ rest) 0%nat None finish
  = Some (String.length (str_of_int z), None).
Proof.
  intros R.
  assert (P : forall c ds n,
             is_digit c = true -> all_digits ds = true ->
             run (Plus (Cls false [("0", "9")%char]))
               (String c ds ++ rest) n None finish
             = Some ((n + String.length (String c ds))%nat, None)).
  { intros c ds n C A. cbn [append String.length].
    rewrite run_Plus, run_Cls, one_char_cons, in_class_digit, C.
    rewrite (digits_star ds A rest _ (S n) None R)
      by (rewrite length_append; lia).
    f_equal. f_equal. lia. }
  unfold Integer_pattern. rewrite run_Cat, run_Opt, run_Chr.
  destruct (str_of_int_shape z) as [c [ds [C [A [E|E]]]]]; rewrite E.
  - change (String c ds ++ rest) with (String c (ds ++ rest)).
    rewrite one_char_cons. destruct (digit_not_sign c C) as [N _].
    destruct (Ascii.eqb_spec "-" c) as [X|_]; [symmetry in X; contradiction|].
    cbn [or_else]. exact (P c ds 0%nat C A).
  - change (String "-" (String c ds) ++ rest)
      with (String "-" (String c ds ++ rest)).
    rewrite one_char_cons. cbn [Ascii.eqb Bool.eqb].
    rewrite (P c ds 1%nat C A). reflexivity.
Qed.

(** *** Auxiliary facts on strings, dicts and positions *)

Lemma append_empty_r (a : string) : a ++ "" = a.
Proof. induction a; simpl; congruence. Qed.

Lemma append_assoc (a b c : string) : (a ++ b) ++ c = a ++ b ++ c.
Proof. induction a; simpl; congruence. Qed.

Lemma join_empty_cons o ps : join "" (o :: ps) = o ++ join "" ps.
Proof. destruct ps; simpl; [rewrite append_empty_r|]; reflexivity. Qed.

Lemma mapM_as_str parts : mapM as_str (map VStr parts) = Ok parts.
Proof.
  induction parts as [|q parts IH]; simpl; auto. rewrite IH. reflexivity.
Qed.

Lemma join_values_strs d parts :
  join_values d (map VStr parts) = Ok (join d parts).
Proof. unfold join_values. rewrite mapM_as_str. reflexivity. Qed.

Lemma drop_all (a : string) n :
  (String.length a <= n)%nat -> drop n a = EmptyString.
Proof.
  revert n. induction a as [|c a IH]; intros [|n] H; simpl in *; auto;
    [lia|apply IH; lia].
Qed.

Lemma drop_clamp txt p :
  0 <= p -> drop (clamp p txt) txt = drop (Z.to_nat p) txt.
Proof.
  intros H. unfold clamp, len. rewrite Z.max_l by lia.
  destruct (Z.le_gt_cases p (Z.of_nat (String.length txt))).
  - rewrite Z.min_l by lia. reflexivity.
  - rewrite Z.min_r by lia. rewrite Nat2Z.id.
    rewrite !drop_all; auto; lia.
Qed.

Lemma dict_set_fresh rec n v :
  dict_has rec n = false -> dict_set rec n v = (rec ++ [(n, v)])%list.
Proof.
  induction rec as [|[k x] rec IH]; simpl; auto.
  destruct (String.eqb k n); [discriminate|]. intros H. rewrite IH; auto.
Qed.

Lemma dict_has_snoc rec n v n' :
  dict_has (rec ++ [(n, v)]) n' = dict_has rec n' || String.eqb n n'.
Proof.
  induction rec as [|[k x] rec IH]; simpl.
  - destruct (String.eqb n n'); reflexivity.
  - destruct (String.eqb k n'); auto.
Qed.


(** [Integer._match] on the decimal writing of [z], not followed by a
    digit. *)
Lemma Integer_match_reads txt p z rest :
  too_long (str_of_int z) = false ->
  0 <= p ->
  drop (Z.to_nat p) txt = str_of_int z ++ rest ->
  starts_with_digit rest = false ->
  Integer_match {| s := txt; pos := p |}
  = Ok (VInt z, {| s := txt; pos := p + len (str_of_int z) |}).
Proof.
  intros Fits P D R. unfold Integer_match, Pattern_match, re_match.
  cbn [s pos]. rewrite (drop_clamp txt p P), D.
  fold finish. rewrite (Integer_pattern_reads z rest R).
  rewrite take_append. cbn [group group_idx Integer_pattern re_groups
                              Nat.add Nat.eqb group0].
  rewrite (py_int_str_of_int z Fits). reflexivity.
Qed.

(** *** The round trip, case by case *)

Section RoundTrip.
Variables (fuel : nat) (txt : string).

#[local] Abbreviation cur := (at_ txt).

Lemma cur_add p a b : cur (p + a + b) = cur (p + (a + b)).
Proof. rewrite Z.add_assoc. reflexivity. Qed.

Lemma Fixed_reads d r p :
  reads txt r p d ->
  _match fuel (Fixed d r) (cur p) = Ok (VStr d, cur (p + len d)).
Proof.
  intros [m [E G]]. rewrite _match_Fixed. unfold Fixed_match.
  cbn [s pos at_]. rewrite E, G. reflexivity.
Qed.

Lemma rt_Fixed d r p : reads txt r p d -> round_trip fuel txt (Fixed d r) (VStr d) p d.
Proof.
  intros R. split; [discriminate|]. split; [reflexivity|].
  apply Fixed_reads, R.
Qed.

Lemma rt_Pattern r p out :
  re_groups r = 0%nat -> reads txt r p out ->
  round_trip fuel txt (Pattern r) (VStr out) p out.
Proof.
  intros G [m [E G0]]. split; [discriminate|]. split; [reflexivity|].
  cbn [_match]. unfold Pattern_match, group_idx. cbn [s pos at_].
  rewrite E, G. cbn [Nat.eqb group]. rewrite G0. reflexivity.
Qed.

Lemma rt_Pattern_group r p out m :
  re_groups r <> 0%nat ->
  re_match r txt p = Some m -> group0 m = out -> group1 m = Some out ->
  round_trip fuel txt (Pattern r) (VStr out) p out.
Proof.
  intros G E G0 G1. split; [discriminate|]. split; [reflexivity|].
  cbn [_match]. unfold Pattern_match, group_idx. cbn [s pos at_].
  rewrite E. apply Nat.eqb_neq in G. rewrite G. cbn [group].
  rewrite G0, G1. reflexivity.
Qed.

Lemma fill_Integer z :
  too_long (str_of_int z) = false ->
  fill Integer (VInt z) = Ok (VStr (str_of_int z)).
Proof. intros Fits. cbn [fill is_None py_str]. rewrite Fits. reflexivity. Qed.

Lemma rt_Integer z p rest :
  too_long (str_of_int z) = false ->
  0 <= p -> drop (Z.to_nat p) txt = str_of_int z ++ rest ->
  starts_with_digit rest = false ->
  round_trip fuel txt Integer (VInt z) p (str_of_int z).
Proof.
  intros Fits P D R. split; [discriminate|].
  split; [exact (fill_Integer z Fits)|].
  cbn [_match]. apply (Integer_match_reads txt p z rest Fits P D R).
Qed.

Lemma rt_seq_nil p : round_trip_seq fuel txt [] [] p "".
Proof.
  split.
  - exists []. split; reflexivity.
  - intros acc. cbn [Append_loop]. rewrite app_nil_r.
    change (len "") with 0. rewrite Z.add_0_r. reflexivity.
Qed.

Lemma rt_seq_cons t v ts vs p o outs :
  round_trip fuel txt t v p o ->
  round_trip_seq fuel txt ts vs (p + len o) outs ->
  round_trip_seq fuel txt (t :: ts) (v :: vs) p (o ++ outs).
Proof.
  intros [N [F M]] [[parts [FP J]] L]. split.
  - exists (o :: parts). split.
    + cbn [Append_parts]. rewrite F. cbn [bind]. rewrite FP. reflexivity.
    + rewrite join_empty_cons, J. reflexivity.
  - intros acc. cbn [Append_loop]. rewrite M. cbn [bind].
    rewrite (not_None_is_None v N), L, <- app_assoc, len_append, cur_add.
    reflexivity.
Qed.

Lemma rt_Append ts vs p out :
  round_trip_seq fuel txt ts vs p out -> round_trip fuel txt (Append ts) (VTuple vs) p out.
Proof.
  intros [[parts [FP J]] L]. split; [discriminate|]. split.
  - rewrite fill_Append. unfold Append_fill. cbn [is_None py_iter bind].
    rewrite FP. cbn [bind]. rewrite join_values_strs, J. reflexivity.
  - cbn [_match]. rewrite L. reflexivity.
Qed.

Lemma rt_Repeat_empty it d r p :
  (0 < fuel)%nat -> fails_at fuel txt it p ->
  round_trip fuel txt (Repeat it (Fixed d r) false) (VList []) p "".
Proof.
  intros B F. split; [discriminate|]. split; [reflexivity|].
  rewrite _match_Repeat. unfold Repeat_match.
  destruct fuel as [|b] eqn:Ef; [lia|]. rewrite <- Ef.
  rewrite Ef at 2. rewrite Repeat_loop_step. cbn [r_sp].
  unfold fails_at in F. rewrite <- Ef in F. fold (at_ txt p). rewrite F.
  cbn [bind is_None vals last_dm r_sp negb andb].
  change (len "") with 0. rewrite Z.add_0_r. reflexivity.
Qed.

Lemma rt_Repeat it d r tr vs p out :
  (List.length vs < fuel)%nat ->
  round_trip_items fuel txt it d r tr vs p out ->
  round_trip fuel txt (Repeat it (Fixed d r) tr) (VList vs) p out.
Proof.
  intros B [_ [[parts [FP J]] L]]. split; [discriminate|]. split.
  - cbn [fill]. unfold Repeat_fill.
    cbn [is_None fill_noargs bind as_str py_iter]. rewrite FP. cbn [bind].
    rewrite join_values_strs. cbn [bind]. rewrite <- J.
    destruct tr; reflexivity.
  - rewrite _match_Repeat. unfold Repeat_match.
    destruct (L fuel {| r_sp := cur p; vals := []; i_revert := pos (cur p);
                        last_dm := VNone |} B eq_refl) as [st' [E [V Fi]]].
    rewrite E. cbn [bind]. unfold final in Fi. rewrite Fi, V. reflexivity.
Qed.

Lemma item_step it d r budget st0 v p o :
  round_trip fuel txt it v p o ->
  r_sp st0 = cur p ->
  Repeat_loop (_match fuel) it (Fixed d r) (S budget) st0
  = '(dm, sp2) <- _match fuel (Fixed d r) (cur (p + len o)) ;;
    let st2 := {| r_sp := sp2; vals := (vals st0 ++ [v])%list;
                  i_revert := p + len o; last_dm := dm |} in
    if is_None dm then Ok st2
    else Repeat_loop (_match fuel) it (Fixed d r) budget st2.
Proof.
  intros [N [_ M]] E. rewrite Repeat_loop_step, E, M. cbn [bind].
  rewrite (not_None_is_None v N). reflexivity.
Qed.

Lemma mapM_Ok_nil {A B : Type} (f : A -> res B) l :
  mapM f l = Ok [] -> l = [].
Proof.
  destruct l as [|a l]; auto. simpl.
  destruct (f a); try discriminate. simpl.
  destruct (mapM f l); discriminate.
Qed.

Lemma rt_items_last it d r v p o :
  round_trip fuel txt it v p o ->
  ends_at fuel txt it r (p + len o) ->
  round_trip_items fuel txt it d r false [v] p o.
Proof.
  intros RT Ends. split; [discriminate|]. split.
  - destruct RT as [_ [F _]]. exists [o]. split; [|reflexivity].
    cbn [mapM]. rewrite F. reflexivity.
  - intros budget st0 B E. destruct budget as [|[|b]]; simpl in B; try lia.
    rewrite (item_step it d r _ st0 v p o RT E), _match_Fixed.
    unfold Fixed_match. cbn [s pos at_].
    destruct Ends as [No|[m [sp_f [Yes Fail]]]].
    + rewrite No. cbn [bind is_None]. eexists. split; [reflexivity|].
      split; reflexivity.
    + rewrite Yes. cbn [bind is_None].
      change (advance (cur (p + len o)) (len (group0 m)))
        with (cur (p + len o + len (group0 m))).
      rewrite Repeat_loop_step. cbn [r_sp]. rewrite Fail. cbn [bind is_None]. eexists. split; [reflexivity|].
      split; [reflexivity|]. unfold final.
      cbn [last_dm is_None negb andb r_sp i_revert].
      apply _match_cursor in Fail. destruct Fail as [S' _].
      unfold set_pos. rewrite S'. reflexivity.
Qed.

Lemma rt_items_last_trailing it d r v p o :
  round_trip fuel txt it v p o ->
  reads txt r (p + len o) d ->
  fails_at fuel txt it (p + len o + len d) ->
  round_trip_items fuel txt it d r true [v] p (o ++ d).
Proof.
  intros RT Rd Fail. split; [discriminate|]. split.
  - destruct RT as [_ [F _]]. exists [o]. split; [|reflexivity].
    cbn [mapM]. rewrite F. reflexivity.
  - intros budget st0 B E. destruct budget as [|[|b]]; simpl in B; try lia.
    rewrite (item_step it d r _ st0 v p o RT E), (Fixed_reads d r _ Rd).
    cbn [bind is_None]. rewrite Repeat_loop_step. cbn [r_sp].
    unfold fails_at in Fail. rewrite Fail. cbn [bind is_None].
    eexists. split; [reflexivity|]. split; [reflexivity|].
    unfold final. cbn [last_dm is_None negb andb r_sp].
    rewrite len_append, cur_add. reflexivity.
Qed.

Lemma rt_items_more it d r tr v vs p o outs :
  round_trip fuel txt it v p o ->
  reads txt r (p + len o) d ->
  round_trip_items fuel txt it d r tr vs (p + len o + len d) outs ->
  round_trip_items fuel txt it d r tr (v :: vs) p (o ++ d ++ outs).
Proof.
  intros RT Rd [NE [[parts [FP J]] L]]. split; [discriminate|]. split.
  - destruct RT as [_ [F _]]. exists (o :: parts). split.
    + cbn [mapM]. rewrite F. cbn [bind]. rewrite FP. reflexivity.
    + destruct parts as [|q parts].
      * exfalso. apply NE. exact (mapM_Ok_nil _ _ FP).
      * change (join d (o :: q :: parts)) with (o ++ d ++ join d (q :: parts)).
        destruct tr; rewrite <- J, ?append_assoc; reflexivity.
  - intros budget st0 B E. destruct budget as [|b]; simpl in B; try lia.
    rewrite (item_step it d r _ st0 v p o RT E), (Fixed_reads d r _ Rd).
    cbn [bind is_None].
    destruct (L b {| r_sp := cur (p + len o + len d);
                     vals := (vals st0 ++ [v])%list;
                     i_revert := p + len o; last_dm := VStr d |})
      as [st' [El [V Fi]]]; [lia|reflexivity|].
    exists st'. split; [exact El|]. split.
    + rewrite V. cbn [vals]. rewrite <- app_assoc. reflexivity.
    + rewrite Fi, !len_append, !cur_add. reflexivity.
Qed.

Lemma rt_fields_nil D p : round_trip_fields fuel txt D [] p "".
Proof.
  split.
  - exists []. split; reflexivity.
  - intros rec0 _ _. cbn [Record_loop select]. rewrite app_nil_r.
    change (len "") with 0. rewrite Z.add_0_r. reflexivity.
Qed.

Lemma rt_fields_present D name t rest p o outs :
  dict_has D name = true ->
  round_trip fuel txt t (dict_get D name) p o ->
  round_trip_fields fuel txt D rest (p + len o) outs ->
  round_trip_fields fuel txt D ((name, t) :: rest) p (o ++ outs).
Proof.
  intros Has [N [F M]] [[parts [FP J]] L]. split.
  - exists (o :: parts). split.
    + cbn [Record_parts py_contains py_get bind]. rewrite Has, F.
      cbn [bind]. rewrite FP. reflexivity.
    + rewrite join_empty_cons, J. reflexivity.
  - intros rec0 Fresh ND. cbn [Record_loop]. rewrite M. cbn [bind].
    rewrite (not_None_is_None _ N).
    rewrite (dict_set_fresh rec0 name _ (Fresh name (or_introl eq_refl))).
    inversion ND as [|x l NotIn ND']; subst.
    rewrite L; [|intros n I|exact ND'].
    + cbn [select]. rewrite Has, <- app_assoc, len_append, cur_add.
      reflexivity.
    + rewrite dict_has_snoc, (Fresh n (or_intror I)). cbn [orb].
      destruct (String.eqb_spec name n); [subst; contradiction|reflexivity].
Qed.

Lemma rt_fields_absent D name t rest p outs :
  dict_has D name = false ->
  fails_at fuel txt t p ->
  round_trip_fields fuel txt D rest p outs ->
  round_trip_fields fuel txt D ((name, t) :: rest) p outs.
Proof.
  intros Has Fail [[parts [FP J]] L]. split.
  - exists parts. split; [|exact J].
    cbn [Record_parts py_contains bind]. rewrite Has. exact FP.
  - intros rec0 Fresh ND. cbn [Record_loop]. unfold fails_at in Fail.
    rewrite Fail. cbn [bind is_None select]. rewrite Has.
    inversion ND as [|x l NotIn ND']; subst.
    apply L; [|exact ND']. intros n I. apply Fresh. right. exact I.
Qed.

Lemma rt_Record fields D p out :
  NoDup (map fst fields) ->
  D = select fields D ->
  round_trip_fields fuel txt D fields p out ->
  round_trip fuel txt (Record_ fields) (VDict D) p out.
Proof.
  intros ND HD [[parts [FP J]] L]. split; [discriminate|]. split.
  - cbn [fill]. unfold Record_fill. cbn [is_None]. rewrite FP. cbn [bind].
    rewrite join_values_strs, J. reflexivity.
  - rewrite _match_Record, L; [|intros n _; reflexivity|exact ND].
    cbn [app]. rewrite <- HD. reflexivity.
Qed.

Lemma rt_Option before v d r after p :
  v <> VNone ->
  getitem (before ++ (v, Fixed d r) :: after) v = Ok (Fixed d r) ->
  Forall (fun vt => fails_at fuel txt (snd vt) p) before ->
  reads txt r p d ->
  round_trip fuel txt (Option (before ++ (v, Fixed d r) :: after)) v p d.
Proof.
  intros N G Fails Rd. split; [exact N|]. split.
  - cbn [fill]. unfold Option_fill. rewrite (not_None_is_None v N), G.
    reflexivity.
  - cbn [_match].
    apply (Option_loop_first (_match fuel) before v (Fixed d r) after
             (cur p) (VStr d)); [exact Fails|apply Fixed_reads, Rd|discriminate].
Qed.

(** The round trip holds along every derivation. *)
Lemma round_trip_all :
  (forall t v p out, unambiguous fuel txt t v p out -> round_trip fuel txt t v p out)
  /\ (forall ts vs p out,
        unambiguous_seq fuel txt ts vs p out -> round_trip_seq fuel txt ts vs p out)
  /\ (forall it d r tr vs p out,
        unambiguous_items fuel txt it d r tr vs p out ->
        round_trip_items fuel txt it d r tr vs p out)
  /\ (forall D fields p out,
        unambiguous_fields fuel txt D fields p out ->
        round_trip_fields fuel txt D fields p out).
Proof.
  apply unambiguous_mutind; intros;
    eauto using rt_Fixed, rt_Pattern, rt_Pattern_group, rt_Integer,
      rt_Append, rt_Repeat_empty,
      rt_Repeat, rt_Record, rt_Option, rt_seq_nil, rt_seq_cons, rt_items_last,
      rt_items_last_trailing, rt_items_more, rt_fields_nil,
      rt_fields_present, rt_fields_absent.
Qed.

End RoundTrip.

(** *** Literal text *)

Ltac bits c := destruct c as [[|] [|] [|] [|] [|] [|] [|] [|]].

Lemma quantify_plain r d :
  plain d = true -> quantify r d = Ok (r, d).
Proof.
  destruct d as [|c d]; [reflexivity|]. simpl. intros H.
  apply andb_prop in H. destruct H as [H _].
  bits c; try discriminate H; reflexivity.
Qed.

Lemma parse_atom_plain f c d gi :
  plain (String c d) = true ->
  parse_atom (S f) (String c d) gi = Ok (Chr c, d, gi).
Proof.
  simpl. intros H. apply andb_prop in H. destruct H as [H P].
  bits c; try discriminate H; cbn [parse_atom bind]; rewrite (quantify_plain _ d P); reflexivity.
Qed.

Lemma parse_seq_step f c d gi :
  plain (String c d) = true ->
  parse_seq (S f) (String c d) gi
  = '(a, s1, g1) <- parse_atom f (String c d) gi ;;
    '(rest, s2, g2) <- parse_seq f s1 g1 ;;
    Ok (cat a rest, s2, g2).
Proof.
  simpl. intros H. apply andb_prop in H. destruct H as [H _].
  bits c; try discriminate H; reflexivity.
Qed.

Lemma parse_seq_plain d :
  plain d = true ->
  forall f gi, (2 * String.length d < f)%nat ->
    parse_seq f d gi = Ok (literal d, EmptyString, gi).
Proof.
  induction d as [|c d IH]; intros P f gi B.
  - destruct f; [simpl in B; lia|reflexivity].
  - destruct f as [|[|f]]; try (simpl in B; lia).
    rewrite (parse_seq_step _ c d gi P), (parse_atom_plain f c d gi P).
    cbn [bind]. simpl in P. apply andb_prop in P. destruct P as [_ P].
    rewrite (IH P) by (simpl in B; lia). reflexivity.
Qed.

(** A text without special characters compiles to its literal pattern. *)
Lemma re_compile_plain d : plain d = true -> re_compile d = Ok (literal d).
Proof.
  intros P. unfold re_compile.
  replace (3 * String.length d + 3)%nat
    with (S (3 * String.length d + 2))%nat by lia.
  cbn [parse_alt]. rewrite (parse_seq_plain d P) by lia. reflexivity.
Qed.

Lemma run_cat a r txt n g k :
  run (cat a r) txt n g k
  = run a txt n g (fun s' n' g' => run r s' n' g' k).
Proof. destruct r; reflexivity. Qed.

Lemma run_literal d rest n g :
  run (literal d) (d ++ rest) n g finish
  = Some ((n + String.length d)%nat, g).
Proof.
  revert n. induction d as [|c d IH]; intros n.
  - cbn. rewrite Nat.add_0_r. reflexivity.
  - cbn [literal append String.length].
    rewrite run_cat, run_Chr, one_char_cons, Ascii.eqb_refl, IH.
    f_equal. f_equal. lia.
Qed.

(** The literal pattern of [d] reads [d] wherever the text has it. *)
Lemma literal_reads txt p d rest :
  0 <= p -> drop (Z.to_nat p) txt = d ++ rest -> reads txt (literal d) p d.
Proof.
  intros P D. unfold reads, re_match. rewrite (drop_clamp txt p P), D.
  fold finish. rewrite run_literal. cbn [Nat.add]. rewrite take_append.
  eexists. split; reflexivity.
Qed.

(** A [Fixed] made from a text without special characters round-trips
    wherever its text stands. *)
Lemma Fixed_plain_unambiguous fuel txt d p rest :
  plain d = true -> 0 <= p -> drop (Z.to_nat p) txt = d ++ rest ->
  exists t, Fixed_init d None = Ok t /\ unambiguous fuel txt t (VStr d) p d.
Proof.
  intros Pl P D. exists (Fixed d (literal d)). split.
  - unfold Fixed_init. rewrite (re_compile_plain d Pl). reflexivity.
  - apply u_Fixed. exact (literal_reads txt p d rest P D).
Qed.

(** C2, as stated, fails: the text of a [Fixed] is compiled as a pattern,
    so [Fixed("a+")] renders ["a+"] and reads back ["a"], with the cursor
    at 1; and [match] returns a value, not a pair with the length. *)
Lemma Fixed_metachar_no_round_trip :
  (t <- Fixed_init "a+" None ;; fill t (VStr "a+")) = Ok (VStr "a+")
  /\ (t <- Fixed_init "a+" None ;; _match 0 t {| s := "a+"; pos := 0 |})
     = Ok (VStr "a", {| s := "a+"; pos := 1 |})
  /\ (t <- Fixed_init "a+" None ;; match_ 0 t "a+" 0)
     <> Ok (VTuple [VStr "a+"; VInt (len "a+")])
  /\ (t <- Fixed_init "a+" None ;; match_ 0 t "a+" 0) <> Ok (VStr "a+").
Proof. repeat split; try reflexivity; vm_compute; discriminate. Qed.

(** C2, amended: for a template built from [Fixed], [Pattern] (with or
    without capture group), [Integer], [Append], [Record], [Option] and
    [Repeat], and a value whose rendering [out] is unambiguous where it
    stands in a text (an integer, in particular, has no more digits
    than [str] and [int] convert), [fill] gives [out], [_match] at the
    start of [out] returns the value and leaves the cursor right after
    [out], and [match] returns the value.  When the text is the
    rendering itself, read from 0, the cursor ends at its length. *)
Theorem round_trip_unambiguous
  (fuel : nat) (txt : string) (t : template) (v : value) (p : Z)
  (out : string)
  (rendering : unambiguous fuel txt t v p out) :
  fill t v = Ok (VStr out)
  /\ _match fuel t {| s := txt; pos := p |}
     = Ok (v, {| s := txt; pos := p + len out |})
  /\ match_ fuel t txt p = Ok v.
Proof.
  destruct (proj1 (round_trip_all fuel txt) t v p out rendering)
    as [_ [F M]].
  split; [exact F|]. split; [exact M|].
  unfold match_. unfold at_ in M. rewrite M. reflexivity.
Qed.

(** The round trip of two settings, of an entry without its field [q],
    and of [Pattern("(a+)")], whose value is the text of its group. *)
Lemma round_trip_unambiguous_witness :
  ((fill settings settings_value = Ok (VStr "1=Yes;-20=No")
    /\ _match 3 settings {| s := "1=Yes;-20=No"; pos := 0 |}
       = Ok (settings_value, {| s := "1=Yes;-20=No"; pos := 12 |})
    /\ match_ 3 settings "1=Yes;-20=No" 0 = Ok settings_value)
   /\ (fill entry entry_value = Ok (VStr "7abc")
       /\ _match 0 entry {| s := "7abc"; pos := 0 |}
          = Ok (entry_value, {| s := "7abc"; pos := 4 |})
       /\ match_ 0 entry "7abc" 0 = Ok entry_value))
  /\ (fill grouped (VStr "aa") = Ok (VStr "aa")
      /\ _match 0 grouped {| s := "aab"; pos := 0 |}
         = Ok (VStr "aa", {| s := "aab"; pos := 2 |})
      /\ match_ 0 grouped "aab" 0 = Ok (VStr "aa")).
Proof.
  split; [split|].
  - apply (round_trip_unambiguous 3 "1=Yes;-20=No" settings settings_value 0
             "1=Yes;-20=No").
    refine (u_Repeat _ _ _ _ _ _ _ _ _ _ _); [simpl; lia|].
    refine (ui_more _ _ _ _ _ _ _ _ _ "1=Yes" "-20=No" _ _ _).
    + refine (u_Append _ _ _ _ _ _ _).
      refine (us_cons _ _ _ _ _ _ _ "1" "=Yes" _ _).
      * refine (u_Integer _ _ 1 0 "=Yes;-20=No" _ _ _ _);
          [reflexivity|discriminate|reflexivity|reflexivity].
      * refine (us_cons _ _ _ _ _ _ _ "=" "Yes" _ _).
        -- refine (u_Fixed _ _ _ _ _ _). eexists. split; reflexivity.
        -- refine (us_cons _ _ _ _ _ _ _ "Yes" "" _ (us_nil _ _ _)).
           refine (u_Option _ _ [(VBool false, _)] (VBool true) "Yes" _ []
                     _ _ _ _ _).
           ++ discriminate.
           ++ reflexivity.
           ++ repeat constructor.
           ++ eexists. split; reflexivity.
    + eexists. split; reflexivity.
    + refine (ui_last _ _ _ _ _ _ _ _ _ _).
      * refine (u_Append _ _ _ _ _ _ _).
        refine (us_cons _ _ _ _ _ _ _ "-20" "=No" _ _).
        -- refine (u_Integer _ _ (-20) 6 "=No" _ _ _ _);
             [reflexivity|discriminate|reflexivity|reflexivity].
        -- refine (us_cons _ _ _ _ _ _ _ "=" "No" _ _).
           ++ refine (u_Fixed _ _ _ _ _ _). eexists. split; reflexivity.
           ++ refine (us_cons _ _ _ _ _ _ _ "No" "" _ (us_nil _ _ _)).
              refine (u_Option _ _ [] (VBool false) "No" _ [(VBool true, _)]
                        _ _ _ _ _).
              ** discriminate.
              ** reflexivity.
              ** constructor.
              ** eexists. split; reflexivity.
      * left. reflexivity.
  - apply (round_trip_unambiguous 0 "7abc" entry entry_value 0 "7abc").
    refine (u_Record _ _ _ _ _ _ _ _ _).
    + repeat constructor; simpl; intuition discriminate.
    + reflexivity.
    + refine (uf_present _ _ _ _ _ _ _ "7" "abc" _ _ _); [reflexivity| |].
      * refine (u_Integer _ _ 7 0 "abc" _ _ _ _);
          [reflexivity|discriminate|reflexivity|reflexivity].
      * refine (uf_present _ _ _ _ _ _ _ "abc" "" _ _ _); [reflexivity| |].
        -- refine (u_Pattern _ _ _ _ _ _ _); [reflexivity|].
           eexists. split; reflexivity.
        -- refine (uf_absent _ _ _ _ _ _ _ _ _ _ (uf_nil _ _ _ _));
             reflexivity.
  - apply (round_trip_unambiguous 0 "aab" grouped (VStr "aa") 0 "aa").
    refine (u_Pattern_group _ _ _ _ _
              {| group0 := "aa"; group1 := Some "aa" |} _ _ _ _);
      [discriminate|reflexivity|reflexivity|reflexivity].
Defined.

(* ================================================================== *)
(** ** The matcher reads texts of the pattern *)

Lemma one_char_sound accept :
  sound (one_char accept) (fun pre => exists a, accept a = true
                                                /\ pre = String a "").
Proof.
  intros txt n g k res H. destruct txt as [|a txt]; [discriminate|].
  rewrite one_char_cons in H. destruct (accept a) eqn:A; [|discriminate].
  exists (String a ""), txt, g. split; [reflexivity|].
  split; [eauto|]. simpl. rewrite Nat.add_1_r. exact H.
Qed.

Lemma star_loop_sound body L :
  sound body L ->
  forall r, (forall a, L a -> lang r a) ->
  forall budget, sound (star_loop body budget) (lang (Star r)).
Proof.
  intros B r HL. induction budget as [|b IH]; intros txt n g k res H.
  - exists "", txt, g. split; [reflexivity|]. split; [constructor|].
    rewrite Nat.add_0_r. exact H.
  - rewrite star_loop_S in H. unfold or_else in H.
    destruct (body txt n g _) as [x|] eqn:E.
    + inversion H; subst x.
      destruct (B _ _ _ _ _ E) as [pre [rest [g1 [T [Lp K]]]]].
      destruct (n <? n + String.length pre)%nat; [|discriminate].
      destruct (IH _ _ _ _ _ K) as [pre2 [rest2 [g2 [T2 [L2 K2]]]]].
      exists (pre ++ pre2), rest2, g2. split.
      * rewrite T, T2, append_assoc. reflexivity.
      * split; [apply lang_Star_cons; auto|].
        rewrite length_append, Nat.add_assoc. exact K2.
    + exists "", txt, g. split; [reflexivity|]. split; [constructor|].
      rewrite Nat.add_0_r. exact H.
Qed.

(** Whatever [run r] consumes is a text of [r]. *)
Lemma run_sound r : sound (run r) (lang r).
Proof.
  induction r as [|c| |negated ranges|r1 IH1 r2 IH2|r1 IH1 r2 IH2|r IH|r IH
                 |r IH|i r IH]; intros txt n g k res H.
  - exists "", txt, g. split; [reflexivity|]. split; [constructor|].
    rewrite Nat.add_0_r. exact H.
  - destruct (one_char_sound _ _ _ _ _ _ H)
      as [pre [rest [g' [T [[a [A ->]] K]]]]].
    apply Ascii.eqb_eq in A. subst a.
    exists (String c ""), rest, g'. repeat split; auto. constructor.
  - destruct (one_char_sound _ _ _ _ _ _ H)
      as [pre [rest [g' [T [[a [A ->]] K]]]]].
    exists (String a ""), rest, g'. repeat split; auto. constructor.
    destruct (Ascii.eqb a nl); [discriminate|reflexivity].
  - destruct (one_char_sound _ _ _ _ _ _ H)
      as [pre [rest [g' [T [[a [A ->]] K]]]]].
    exists (String a ""), rest, g'. repeat split; auto. constructor. exact A.
  - rewrite run_Cat in H.
    destruct (IH1 _ _ _ _ _ H) as [p1 [rest1 [g1 [T1 [L1 K1]]]]].
    destruct (IH2 _ _ _ _ _ K1) as [p2 [rest2 [g2 [T2 [L2 K2]]]]].
    exists (p1 ++ p2), rest2, g2. split.
    + rewrite T1, T2, append_assoc. reflexivity.
    + split; [constructor; auto|].
      rewrite length_append, Nat.add_assoc. exact K2.
  - cbn [run] in H. unfold or_else in H.
    destruct (run r1 txt n g k) as [x|] eqn:E.
    + inversion H; subst x.
      destruct (IH1 _ _ _ _ _ E) as [p [rest [g' [T [L K]]]]].
      exists p, rest, g'. repeat split; auto. apply lang_Alt_l, L.
    + destruct (IH2 _ _ _ _ _ H) as [p [rest [g' [T [L K]]]]].
      exists p, rest, g'. repeat split; auto. apply lang_Alt_r, L.
  - rewrite run_Opt in H. unfold or_else in H.
    destruct (run r txt n g k) as [x|] eqn:E.
    + inversion H; subst x.
      destruct (IH _ _ _ _ _ E) as [p [rest [g' [T [L K]]]]].
      exists p, rest, g'. repeat split; auto. apply lang_Opt_some, L.
    + exists "", txt, g. split; [reflexivity|]. split; [constructor|].
      rewrite Nat.add_0_r. exact H.
  - cbn [run] in H.
    exact (star_loop_sound (run r) (lang r) IH r (fun a L => L) _ _ _ _ _ _ H).
  - rewrite run_Plus in H.
    destruct (IH _ _ _ _ _ H) as [p1 [rest1 [g1 [T1 [L1 K1]]]]].
    destruct (star_loop_sound (run r) (lang r) IH r (fun a L => L)
                _ _ _ _ _ _ K1) as [p2 [rest2 [g2 [T2 [L2 K2]]]]].
    exists (p1 ++ p2), rest2, g2. split.
    + rewrite T1, T2, append_assoc. reflexivity.
    + split; [constructor; auto|].
      rewrite length_append, Nat.add_assoc. exact K2.
  - cbn [run] in H.
    destruct (IH _ _ _ _ _ H) as [p [rest [g' [T [L K]]]]].
    eexists p, rest, _. repeat split; eauto. constructor. exact L.
Qed.

(** A match reads, from the clamped position, a text of the pattern. *)
Lemma re_match_sound r txt p m :
  re_match r txt p = Some m ->
  lang r (group0 m)
  /\ exists rest, drop (clamp p txt) txt = group0 m ++ rest.
Proof.
  unfold re_match. intros H.
  destruct (run r (drop (clamp p txt) txt) 0%nat None _) as [[n g]|] eqn:E;
    [|discriminate].
  inversion H; subst m. cbn [group0].
  destruct (run_sound r _ _ _ _ _ E) as [pre [rest [g' [T [L K]]]]].
  inversion K; subst n g'. rewrite T, take_append. eauto.
Qed.

(* ================================================================== *)
(** ** The cursor stays within the text *)

Lemma length_drop n txt :
  String.length (drop n txt) = (String.length txt - n)%nat.
Proof.
  revert txt. induction n as [|n IH]; intros [|c txt]; simpl; auto.
Qed.

Lemma clamp_le p txt : (clamp p txt <= String.length txt)%nat.
Proof. unfold clamp, len. lia. Qed.

Lemma clamp_inside p txt :
  0 <= p <= len txt -> clamp p txt = Z.to_nat p.
Proof. unfold clamp, len. intros H. f_equal. unfold len in H. lia. Qed.

Lemma re_match_within r txt p m :
  re_match r txt p = Some m -> p <= len txt -> p + len (group0 m) <= len txt.
Proof.
  intros H P. destruct (re_match_sound r txt p m H) as [_ [rest D]].
  apply (f_equal String.length) in D.
  rewrite length_drop, length_append in D.
  pose proof (clamp_le p txt) as C.
  assert (Z.of_nat (clamp p txt) >= p) by (unfold clamp, len in *; lia).
  unfold len in *. lia.
Qed.

Lemma Pattern_match_within r sp :
  within sp -> within (snd (Pattern_match r sp)).
Proof.
  unfold Pattern_match, within. intros W.
  destruct (re_match r (s sp) (pos sp)) eqn:E; simpl; [|exact W].
  apply (re_match_within r _ _ _ E W).
Qed.

Lemma Fixed_match_within r sp :
  within sp -> within (snd (Fixed_match r sp)).
Proof.
  unfold Fixed_match, within. intros W.
  destruct (re_match r (s sp) (pos sp)) eqn:E; simpl; [|exact W].
  apply (re_match_within r _ _ _ E W).
Qed.

Lemma Integer_match_within sp v sp' :
  Integer_match sp = Ok (v, sp') -> within sp -> within sp'.
Proof.
  unfold Integer_match. intros H W.
  pose proof (Pattern_match_within Integer_pattern sp W) as W1.
  pose proof (Pattern_match_cursor Integer_pattern sp) as [E _].
  destruct (Pattern_match Integer_pattern sp) as [txt sp1]; simpl in *.
  destruct (py_int txt) as [i|[]|]; inversion H; subst; auto;
    unfold within, set_pos; simpl; rewrite E; exact W.
Qed.

Section MatchWithin.
Variable M : template -> StringPos -> matched.

Lemma Append_loop_within ts :
  (forall t, In t ts -> stays M t) ->
  forall sp acc v sp',
    Append_loop M ts sp acc = Ok (v, sp') -> within sp -> within sp'.
Proof.
  induction ts as [|t ts IH]; intros HM sp acc v sp' H W; simpl in H.
  - inversion H; subst. exact W.
  - inv_bind H. destruct x as [m sp1].
    assert (W1 : within sp1) by (eapply HM; [left; reflexivity|eauto|exact W]).
    destruct (is_None m).
    + inversion H; subst; assumption.
    + eapply IH; [|exact H|exact W1]. intros t' I; apply HM; right; exact I.
Qed.

Lemma Repeat_loop_within it d :
  forward M it -> forward M d -> stays M it -> stays M d ->
  forall budget st st',
    within (r_sp st) -> i_revert st <= len (s (r_sp st)) ->
    Repeat_loop M it d budget st = Ok st' ->
    within (r_sp st') /\ i_revert st' <= len (s (r_sp st')).
Proof.
  intros Fit Fd Sit Sd. induction budget as [|b IH]; intros st st' W R H;
    simpl in H; [discriminate|].
  inv_bind H. destruct x as [m sp1].
  pose proof (Sit _ _ _ E W) as W1. destruct (Fit _ _ _ E) as [T1 _].
  destruct (is_None m).
  - inversion H; subst; simpl. split; [exact W1|]. rewrite T1. exact R.
  - inv_bind H. destruct x as [dm sp2].
    pose proof (Sd _ _ _ E0 W1) as W2. destruct (Fd _ _ _ E0) as [T2 _].
    assert (R2 : pos sp1 <= len (s sp2)) by (rewrite T2; exact W1).
    destruct (is_None dm).
    + inversion H; subst; simpl. auto.
    + eapply IH; [| |exact H]; simpl; assumption.
Qed.

Lemma Repeat_match_within it d tr budget :
  forward M it -> forward M d -> stays M it -> stays M d ->
  forall sp v sp',
    Repeat_match M it d tr budget sp = Ok (v, sp') -> within sp -> within sp'.
Proof.
  intros Fit Fd Sit Sd sp v sp' H W. unfold Repeat_match in H. inv_bind H.
  apply (Repeat_loop_within it d Fit Fd Sit Sd) in E; [|exact W|exact W].
  destruct E as [W' R']. inversion H; subst.
  destruct (negb (is_None (last_dm x)) && negb tr); [|exact W'].
  unfold within, set_pos; simpl. exact R'.
Qed.

Lemma NumberedList_match_within it d tr budget :
  forward M it -> forward M d -> stays M it -> stays M d ->
  forall sp v sp',
    NumberedList_match M it d tr budget sp = Ok (v, sp') ->
    within sp -> within sp'.
Proof.
  intros Fit Fd Sit Sd sp v sp' H W. unfold NumberedList_match in H.
  inv_bind H. destruct x as [sm sp1].
  pose proof (Repeat_match_within it d tr budget Fit Fd Sit Sd _ _ _ E W).
  destruct (is_None sm).
  - inversion H; subst; assumption.
  - inv_bind H. inv_bind H. inversion H; subst; assumption.
Qed.

Lemma Affix_match_within p c sfx :
  stays M p -> stays M c -> (forall t, sfx = Some t -> stays M t) ->
  forall sp v sp',
    Affix_match M p c sfx sp = Ok (v, sp') -> within sp -> within sp'.
Proof.
  intros Sp Sc Ss sp v sp' H W. unfold Affix_match in H. inv_bind H.
  destruct x as [pm sp1]. pose proof (Sp _ _ _ E W) as W1.
  destruct (is_None pm); [inversion H; subst; assumption|].
  inv_bind H. destruct x as [cm sp2]. pose proof (Sc _ _ _ E0 W1) as W2.
  destruct (is_None cm); [inversion H; subst; assumption|].
  destruct sfx as [t|].
  - inv_bind H. destruct x as [sm sp3].
    pose proof (Ss t eq_refl _ _ _ E1 W2). inversion H; subst; assumption.
  - inversion H; subst; assumption.
Qed.

Lemma Record_loop_within fields :
  (forall n t, In (n, t) fields -> stays M t) ->
  forall sp rec v sp',
    Record_loop M fields sp rec = Ok (v, sp') -> within sp -> within sp'.
Proof.
  induction fields as [|[n t] fields IH]; intros HM sp rec v sp' H W;
    simpl in H.
  - inversion H; subst. exact W.
  - inv_bind H. destruct x as [m sp1].
    assert (W1 : within sp1) by (eapply HM; [left; reflexivity|eauto|exact W]).
    eapply IH; [|exact H|exact W1].
    intros n' t' I; eapply HM; right; eassumption.
Qed.

Lemma Option_loop_within vts :
  (forall k t, In (k, t) vts -> stays M t) ->
  forall sp v sp',
    Option_loop M vts sp = Ok (v, sp') -> within sp -> within sp'.
Proof.
  induction vts as [|[k t] vts IH]; intros HM sp v sp' H W; simpl in H.
  - inversion H; subst. exact W.
  - inv_bind H. destruct x as [m sp1].
    assert (W1 : within sp1) by (eapply HM; [left; reflexivity|eauto|exact W]).
    destruct (is_None m).
    + eapply IH; [|exact H|exact W1].
      intros k' t' I; eapply HM; right; eassumption.
    + inversion H; subst; assumption.
Qed.

End MatchWithin.

Lemma _match_within fuel t : stays (_match fuel) t.
Proof.
  induction t as [d r|r| |ts IH|it IHit d IHd tr|it IHit d IHd tr st
                 |p IHp c IHc sfx IHs|fields IH|vts IH|txt];
    intros sp v sp' H W; simpl in H.
  - pose proof (Fixed_match_within r sp W) as C. inversion H as [E].
    rewrite E in C. exact C.
  - pose proof (Pattern_match_within r sp W) as C. inversion H as [E].
    rewrite E in C. exact C.
  - eapply Integer_match_within; eauto.
  - eapply Append_loop_within; [|exact H|exact W].
    apply (list_all_In _ _ IH).
  - eapply Repeat_match_within;
      [apply _match_cursor|apply _match_cursor|exact IHit|exact IHd|exact H
      |exact W].
  - eapply NumberedList_match_within;
      [apply _match_cursor|apply _match_cursor|exact IHit|exact IHd|exact H
      |exact W].
  - eapply Affix_match_within; [exact IHp|exact IHc| |exact H|exact W].
    intros t ->. inversion IHs; subst; assumption.
  - eapply Record_loop_within; [|exact H|exact W].
    intros n t I. exact (list_all_snd _ _ IH n t I).
  - eapply Option_loop_within; [|exact H|exact W].
    intros k t I. exact (list_all_snd _ _ IH k t I).
  - discriminate.
Qed.

(** X1: a match attempt started inside the text ends inside the text, for
    every template: no node moves the cursor before 0 or past the end. *)
Theorem cursor_stays_in_text
  (fuel : nat) (t : template) (sp sp' : StringPos) (v : value)
  (run : _match fuel t sp = Ok (v, sp'))
  (inside : 0 <= pos sp <= len (s sp)) :
  0 <= pos sp' <= len (s sp').
Proof.
  destruct (_match_cursor fuel t sp v sp' run) as [_ L].
  pose proof (_match_within fuel t sp v sp' run (proj2 inside)) as W.
  unfold within in W. lia.
Qed.

(** [Repeat(Pattern("[a-z]"), ",")] on ["a,b,"]: from 0 to 3. *)
Lemma cursor_stays_in_text_witness : 0 <= 3 <= len "a,b,".
Proof.
  apply (cursor_stays_in_text 3
           (Repeat (Pattern (Cls false [("a", "z")%char]))
              (Fixed "," (Chr ",")) false)
           {| s := "a,b,"; pos := 0 |} {| s := "a,b,"; pos := 3 |}
           (VList [VStr "a"; VStr "b"]));
    [reflexivity|split; discriminate].
Defined.

(* ================================================================== *)
(** ** Leaves: the value is the text consumed *)

Lemma drop_append_length (a b : string) : drop (String.length a) (a ++ b) = b.
Proof. induction a; simpl; auto. Qed.

Lemma drop_drop a b txt : drop a (drop b txt) = drop (b + a) txt.
Proof.
  revert txt. induction b as [|b IH]; intros txt; [reflexivity|].
  destruct txt as [|c txt]; simpl; [destruct a; reflexivity|apply IH].
Qed.

Lemma leaf_slice r txt p m :
  re_match r txt p = Some m -> 0 <= p <= len txt ->
  lang r (group0 m)
  /\ drop (Z.to_nat p) txt
     = group0 m ++ drop (Z.to_nat (p + len (group0 m))) txt.
Proof.
  intros H P. destruct (re_match_sound r txt p m H) as [L [rest D]].
  split; [exact L|]. rewrite (clamp_inside p txt P) in D. rewrite D.
  f_equal. unfold len. rewrite Z2Nat.inj_add, Nat2Z.id by lia.
  rewrite <- drop_drop, D, drop_append_length. reflexivity.
Qed.

(** X2: when a [Fixed] or a [Pattern] without capture group matches
    inside the text, the string it returns is the slice of the text
    between the old and the new cursor, and a text of its pattern. *)
Theorem leaf_returns_the_text_it_consumed
  (fuel : nat) (t : template) (sp sp' : StringPos) (g : string)
  (leaf : plain_leaf t = true)
  (run : _match fuel t sp = Ok (VStr g, sp'))
  (inside : 0 <= pos sp <= len (s sp)) :
  pos sp' = pos sp + len g
  /\ drop (Z.to_nat (pos sp)) (s sp) = g ++ drop (Z.to_nat (pos sp')) (s sp)
  /\ exists r, (t = Pattern r \/ exists d, t = Fixed d r) /\ lang r g.
Proof.
  destruct t; try discriminate leaf; simpl in run.
  - unfold Fixed_match in run.
    destruct (re_match accepted_pattern (s sp) (pos sp)) as [m|] eqn:E;
      inversion run; subst.
    destruct (leaf_slice _ _ _ _ E inside) as [L D].
    cbn [pos advance]. repeat split; auto. exists accepted_pattern. eauto.
  - unfold Pattern_match, group_idx in run. simpl in leaf. rewrite leaf in run.
    destruct (re_match pattern (s sp) (pos sp)) as [m|] eqn:E;
      inversion run; subst.
    destruct (leaf_slice _ _ _ _ E inside) as [L D].
    cbn [pos advance]. repeat split; auto. exists pattern. eauto.
  - unfold Integer_match in run.
    destruct (Pattern_match Integer_pattern sp) as [txt sp1].
    destruct (py_int txt) as [i|[]|]; discriminate.
Qed.

(** [SENTENCE] on ["Hi there. Next"]: the value is the first 9
    characters. *)
Lemma leaf_returns_the_text_it_consumed_witness :
  9 = 0 + len "Hi there."
  /\ "Hi there. Next" = "Hi there." ++ " Next".
Proof.
  assert (inside : 0 <= 0 <= len "Hi there. Next") by (split; discriminate).
  destruct (leaf_returns_the_text_it_consumed 0 SENTENCE
              {| s := "Hi there. Next"; pos := 0 |}
              {| s := "Hi there. Next"; pos := 9 |} "Hi there."
              eq_refl eq_refl inside)
    as [P [D _]].
  split; [exact P|exact D].
Defined.

(* ================================================================== *)
(** ** Integer *)

Lemma lang_star_digits r b :
  lang r b -> r = Star (Cls false [("0", "9")%char]) -> all_digits b = true.
Proof.
  induction 1 as [|c|a A|ng rs a A|r1 r2 a b _ _ _ _|r1 r2 a _ _|r1 r2 a _ _
                 |r0|r0 a _ _|r0|r0 a b La _ Lb IHb|r0 a b _ _ _ _|i r0 a _ _];
    intros E; try discriminate; [reflexivity|].
  inversion E; subst r0. inversion La; subst.
  cbn [append all_digits]. rewrite <- in_class_digit.
  match goal with H : in_class _ _ _ = true |- _ => rewrite H end.
  exact (IHb eq_refl).
Qed.

Lemma lang_Cat_inv r1 r2 x :
  lang (Cat r1 r2) x -> exists a b, x = a ++ b /\ lang r1 a /\ lang r2 b.
Proof. inversion 1; subst; eauto. Qed.

Lemma lang_Plus_inv r x :
  lang (Plus r) x -> exists a b, x = a ++ b /\ lang r a /\ lang (Star r) b.
Proof. inversion 1; subst; eauto. Qed.

Lemma lang_Opt_inv r x : lang (Opt r) x -> x = "" \/ lang r x.
Proof. inversion 1; subst; auto. Qed.

Lemma lang_Chr_inv c x : lang (Chr c) x -> x = String c "".
Proof. inversion 1; subst; auto. Qed.

Lemma lang_Cls_inv negated ranges x :
  lang (Cls negated ranges) x ->
  exists a, x = String a "" /\ in_class negated ranges a = true.
Proof. inversion 1; subst; eauto. Qed.

(** The texts of [-?[0-9]+]. *)
Lemma lang_Integer_pattern pre :
  lang Integer_pattern pre ->
  exists c ds,
    is_digit c = true /\ all_digits ds = true
    /\ (pre = String c ds \/ pre = String "-" (String c ds)).
Proof.
  unfold Integer_pattern. intros H.
  destruct (lang_Cat_inv _ _ _ H) as [sign [body [-> [Ls Lb]]]].
  destruct (lang_Plus_inv _ _ Lb) as [x [ds [-> [Lx Ld]]]].
  destruct (lang_Cls_inv _ _ _ Lx) as [c [-> C]].
  rewrite in_class_digit in C.
  pose proof (lang_star_digits _ _ Ld eq_refl) as A.
  exists c, ds. split; [exact C|]. split; [exact A|].
  destruct (lang_Opt_inv _ _ Ls) as [->|L0].
  - left. reflexivity.
  - rewrite (lang_Chr_inv _ _ L0). right. reflexivity.
Qed.

Lemma digit_parses c u :
  is_digit c = true -> exists u', uint_of_char c (Some u) = Some u'.
Proof. intros H. bits c; try discriminate H; eexists; reflexivity. Qed.

Lemma digits_parse ds :
  all_digits ds = true -> exists u, NilEmpty.uint_of_string ds = Some u.
Proof.
  induction ds as [|c ds IH]; simpl; intros H; [eauto|].
  apply andb_prop in H. destruct H as [C A]. destruct (IH A) as [u ->].
  exact (digit_parses c u C).
Qed.

(** [int] accepts every text of the pattern of [Integer] that is within
    the limit on the digits. *)
Lemma py_int_accepts pre :
  lang Integer_pattern pre -> too_long pre = false ->
  exists z, py_int (VStr pre) = Ok z.
Proof.
  intros L Fits. unfold py_int. rewrite Fits.
  destruct (lang_Integer_pattern pre L) as [c [ds [C [A [->| ->]]]]];
    destruct (digit_not_sign c C) as [N1 N2];
    destruct (digits_parse (String c ds)) as [u U];
    try (simpl; rewrite C, A; reflexivity); unfold without_plus.
  - destruct (Ascii.eqb_spec c "+"); [contradiction|].
    unfold NilZero.int_of_string.
    destruct (Ascii.eqb_spec c "-"); [contradiction|].
    unfold NilZero.uint_of_string. rewrite U. simpl. eauto.
  - cbn [Ascii.eqb Bool.eqb]. unfold NilZero.int_of_string.
    cbn [Ascii.eqb Bool.eqb]. unfold NilZero.uint_of_string. rewrite U.
    simpl. eauto.
Qed.

Lemma py_int_too_long pre :
  too_long pre = true -> py_int (VStr pre) = Raise ValueError.
Proof. intros Long. unfold py_int. rewrite Long. reflexivity. Qed.

(** X3: [Integer._match] raises nothing.  It fails, leaving the cursor
    where it was, when its pattern does not match at the cursor, and when
    the matched text has more digits than [int] converts: the
    [ValueError] is caught and the cursor put back.  Otherwise the
    conversion of the matched text succeeds, and the node returns the
    integer and advances by the length of the match. *)
Theorem Integer_match_outcomes (fuel : nat) (sp : StringPos) :
  match re_match Integer_pattern (s sp) (pos sp) with
  | None => _match fuel Integer sp = Ok (VNone, sp)
  | Some m =>
      if too_long (group0 m)
      then py_int (VStr (group0 m)) = Raise ValueError
           /\ _match fuel Integer sp = Ok (VNone, sp)
      else exists z,
             py_int (VStr (group0 m)) = Ok z
             /\ _match fuel Integer sp
                = Ok (VInt z, advance sp (len (group0 m)))
  end.
Proof.
  cbn [_match]. unfold Integer_match, Pattern_match.
  destruct (re_match Integer_pattern (s sp) (pos sp)) as [m|] eqn:E.
  - cbn [group group_idx Integer_pattern re_groups Nat.add Nat.eqb].
    destruct (too_long (group0 m)) eqn:Long.
    + rewrite (py_int_too_long _ Long). split; [reflexivity|].
      destruct sp; reflexivity.
    + destruct (re_match_sound _ _ _ _ E) as [L _].
      destruct (py_int_accepts _ L Long) as [z Z]. exists z.
      split; [exact Z|]. rewrite Z. reflexivity.
  - cbn. destruct sp; reflexivity.
Qed.

Lemma drop_length_append (a b : string) :
  drop (Z.to_nat (len a)) (a ++ b) = b.
Proof. unfold len. rewrite Nat2Z.id. apply drop_append_length. Qed.

(** [Integer._match] on a decimal writing of more digits than the limit:
    the pattern reads it, [int] refuses it, and the cursor is put back. *)
Lemma Integer_match_too_long txt p z rest :
  too_long (str_of_int z) = true ->
  0 <= p ->
  drop (Z.to_nat p) txt = str_of_int z ++ rest ->
  starts_with_digit rest = false ->
  Integer_match {| s := txt; pos := p |} = Ok (VNone, {| s := txt; pos := p |}).
Proof.
  intros Long P D R. unfold Integer_match, Pattern_match, re_match.
  cbn [s pos]. rewrite (drop_clamp txt p P), D.
  fold finish. rewrite (Integer_pattern_reads z rest R).
  rewrite take_append. cbn [group group_idx Integer_pattern re_groups
                              Nat.add Nat.eqb group0].
  rewrite (py_int_too_long _ Long). reflexivity.
Qed.

(** X4: [Integer] reads back what it writes, up to the limit on the
    digits.  For an integer [z] whose decimal writing has at most
    [max_str_digits] digits, [fill] gives that writing, and wherever it
    stands in a text, not followed by a digit, [_match] returns [z] and
    leaves the cursor right after it.  For an integer of more digits,
    [fill] raises [ValueError], and on the decimal writing [_match]
    returns [None] and leaves the cursor where it was. *)
Theorem Integer_round_trip
  (fuel : nat) (z : Z) (before after : string)
  (boundary : starts_with_digit after = false) :
  if too_long (str_of_int z)
  then fill Integer (VInt z) = Raise ValueError
       /\ _match fuel Integer
            {| s := before ++ str_of_int z ++ after; pos := len before |}
          = Ok (VNone, {| s := before ++ str_of_int z ++ after;
                          pos := len before |})
  else fill Integer (VInt z) = Ok (VStr (str_of_int z))
       /\ _match fuel Integer
            {| s := before ++ str_of_int z ++ after; pos := len before |}
          = Ok (VInt z, {| s := before ++ str_of_int z ++ after;
                           pos := len before + len (str_of_int z) |}).
Proof.
  destruct (too_long (str_of_int z)) eqn:Long.
  - split.
    + cbn [fill is_None py_str]. rewrite Long. reflexivity.
    + cbn [_match].
      apply (Integer_match_too_long _ _ z after Long);
        [apply len_nonneg|apply drop_length_append|exact boundary].
  - split; [exact (fill_Integer z Long)|]. cbn [_match].
    apply (Integer_match_reads _ _ z after Long);
      [apply len_nonneg|apply drop_length_append|exact boundary].
Qed.

(** [-20] between ["n="] and [";"]. *)
Lemma Integer_round_trip_witness :
  fill Integer (VInt (-20)) = Ok (VStr "-20")
  /\ _match 0 Integer {| s := "n=-20;"; pos := 2 |}
     = Ok (VInt (-20), {| s := "n=-20;"; pos := 5 |}).
Proof.
  exact (Integer_round_trip 0 (-20) "n=" ";" eq_refl).
Defined.

(* ================================================================== *)
(** ** Fixed: literal text *)

Lemma lang_cat a r x :
  lang (cat a r) x -> exists y z, x = y ++ z /\ lang a y /\ lang r z.
Proof.
  destruct r; cbn [cat]; intros H;
    try (exact (lang_Cat_inv _ _ _ H)).
  exists x, "". rewrite append_empty_r. repeat split; auto. constructor.
Qed.

Lemma lang_literal d x : lang (literal d) x -> x = d.
Proof.
  revert x. induction d as [|c d IH]; intros x H; cbn [literal] in H.
  - inversion H. reflexivity.
  - destruct (lang_cat _ _ _ H) as [y [z [-> [Ly Lz]]]].
    rewrite (lang_Chr_inv _ _ Ly), (IH _ Lz). reflexivity.
Qed.

(** X5: a [Fixed] made from a text without pattern metacharacters can be
    constructed, renders that text whatever the argument, and, at a
    cursor inside the text, matches exactly when the text continues with
    it: then it returns it and advances by its length; otherwise it fails
    and leaves the cursor in place. *)
Theorem Fixed_plain_text_matches_itself
  (d : string) (no_metacharacter : plain d = true) :
  exists t,
    Fixed_init d None = Ok t
    /\ (forall v, fill t v = Ok (VStr d))
    /\ forall fuel txt p, 0 <= p <= len txt ->
         (forall rest, drop (Z.to_nat p) txt = d ++ rest ->
            _match fuel t {| s := txt; pos := p |}
            = Ok (VStr d, {| s := txt; pos := p + len d |}))
         /\ ((forall rest, drop (Z.to_nat p) txt <> d ++ rest) ->
             _match fuel t {| s := txt; pos := p |}
             = Ok (VNone, {| s := txt; pos := p |})).
Proof.
  exists (Fixed d (literal d)). split.
  { unfold Fixed_init. rewrite (re_compile_plain d no_metacharacter).
    reflexivity. }
  split; [reflexivity|]. intros fuel txt p P. split.
  - intros rest D.
    exact (Fixed_reads fuel txt d (literal d) p
             (literal_reads txt p d rest (proj1 P) D)).
  - intros No. rewrite _match_Fixed. unfold Fixed_match. cbn [s pos].
    destruct (re_match (literal d) txt p) as [m|] eqn:E; [|reflexivity].
    exfalso. destruct (re_match_sound _ _ _ _ E) as [L [rest D]].
    rewrite (clamp_inside p txt P), (lang_literal _ _ L) in D.
    exact (No rest D).
Qed.

(** [Fixed("Q: ")] on ["Q: x"] at 0. *)
Lemma Fixed_plain_text_matches_itself_witness :
  exists t,
    Fixed_init "Q: " None = Ok t
    /\ _match 0 t {| s := "Q: x"; pos := 0 |}
       = Ok (VStr "Q: ", {| s := "Q: x"; pos := 3 |}).
Proof.
  destruct (Fixed_plain_text_matches_itself "Q: " eq_refl) as [t [I [_ M]]].
  exists t. split; [exact I|].
  assert (inside : 0 <= 0 <= len "Q: x") by (split; discriminate).
  exact (proj1 (M 0%nat "Q: x" 0 inside) "x" eq_refl).
Defined.

Lemma re_compile_quantifier_first c d :
  c = "*"%char \/ c = "+"%char \/ c = "?"%char ->
  re_compile (String c d) = Raise re_error.
Proof.
  intros H. unfold re_compile.
  replace (3 * String.length (String c d) + 3)%nat
    with (S (S (S (3 * String.length d + 3)))) by (simpl; lia).
  destruct H as [->|[->| ->]]; reflexivity.
Qed.

(** X6: a text that begins with a quantifier character ([*], [+], [?])
    cannot be made into a [Fixed]: the constructor compiles the text as
    a pattern and raises [re.error]; so do the constructors that promote
    such a string to a [Fixed]. *)
Theorem Fixed_of_text_starting_with_a_quantifier
  (c : ascii) (d : string)
  (quantifier : c = "*"%char \/ c = "+"%char \/ c = "?"%char) :
  Fixed_init (String c d) None = Raise re_error
  /\ (forall content,
        Suffix_init content (StrObj (String c d)) = Raise re_error)
  /\ (forall content,
        Affix_init (StrObj (String c d)) content None = Raise re_error)
  /\ (forall item trailing,
        Repeat_init item (StrObj (String c d)) trailing = Raise re_error).
Proof.
  assert (F : Fixed_init (String c d) None = Raise re_error).
  { unfold Fixed_init. rewrite (re_compile_quantifier_first c d quantifier).
    reflexivity. }
  split; [exact F|]. split; [|split].
  - intros content. unfold Suffix_init, Affix_init.
    cbn [str_to_fixed NOTHING bind]. rewrite F. reflexivity.
  - intros content. unfold Affix_init. cbn [str_to_fixed]. rewrite F.
    reflexivity.
  - intros item trailing. unfold Repeat_init. cbn [str_to_fixed]. rewrite F.
    reflexivity.
Qed.

(** [Suffix(NUM, "?")] *)
Lemma Fixed_of_text_starting_with_a_quantifier_witness :
  Suffix_init NUM (StrObj "?") = Raise re_error.
Proof.
  exact (proj1 (proj2 (Fixed_of_text_starting_with_a_quantifier
                         "?" "" (or_intror (or_intror eq_refl)))) NUM).
Defined.

(* ================================================================== *)
(** ** Append and Repeat: what the result is made of *)

Lemma is_None_false v : is_None v = false -> v <> VNone.
Proof. destruct v; simpl; congruence. Qed.

Lemma Append_loop_shape M ts :
  forall sp acc v sp',
    Append_loop M ts sp acc = Ok (v, sp') ->
    v = VNone
    \/ exists ms, v = VTuple (acc ++ ms) /\ Forall2 (produced M) ts ms.
Proof.
  induction ts as [|t ts IH]; intros sp acc v sp' H; simpl in H.
  - inversion H; subst. right. exists []. rewrite app_nil_r. auto.
  - inv_bind H. destruct x as [m sp1]. destruct (is_None m) eqn:N.
    + inversion H; subst. auto.
    + destruct (IH _ _ _ _ H) as [->|[ms [-> F]]]; [auto|].
      right. exists (m :: ms). rewrite <- app_assoc. split; [reflexivity|].
      constructor; [|exact F]. split; [apply is_None_false, N|eauto].
Qed.

(** X7: when [Append._match] succeeds, its result is a tuple with one
    value per sub-template, in order, each returned by that sub-template
    and none of them [None]. *)
Theorem Append_match_tuple
  (fuel : nat) (ts : list template) (sp sp' : StringPos) (v : value)
  (run : _match fuel (Append ts) sp = Ok (v, sp'))
  (success : v <> VNone) :
  exists ms,
    v = VTuple ms
    /\ List.length ms = List.length ts
    /\ Forall2 (produced (_match fuel)) ts ms.
Proof.
  destruct (Append_loop_shape _ ts sp [] v sp' run) as [E|[ms [E F]]];
    [contradiction|].
  exists ms. split; [exact E|]. split; [|exact F].
  symmetry. exact (Forall2_length F).
Qed.

(** [Append(NUM, "=", YES_NO)] on ["1=Yes"]. *)
Lemma Append_match_tuple_witness :
  exists ms,
    VTuple [VInt 1; VStr "="; VBool true] = VTuple ms
    /\ List.length ms = 3%nat
    /\ Forall2 (produced (_match 0)) [NUM; Fixed "=" (Chr "="); YES_NO] ms.
Proof.
  apply (Append_match_tuple 0 [NUM; Fixed "=" (Chr "="); YES_NO]
           {| s := "1=Yes"; pos := 0 |} {| s := "1=Yes"; pos := 5 |}
           (VTuple [VInt 1; VStr "="; VBool true]));
    [reflexivity|discriminate].
Defined.

Lemma Repeat_loop_vals M it d :
  forall budget st st',
    Repeat_loop M it d budget st = Ok st' ->
    exists more,
      vals st' = (vals st ++ more)%list /\ Forall (produced M it) more.
Proof.
  induction budget as [|b IH]; intros st st' H; simpl in H; [discriminate|].
  inv_bind H. destruct x as [m sp1]. destruct (is_None m) eqn:N.
  - inversion H; subst; simpl. exists []. rewrite app_nil_r. auto.
  - assert (P : produced M it m) by (split; [apply is_None_false, N|eauto]).
    inv_bind H. destruct x as [dm sp2]. destruct (is_None dm).
    + inversion H; subst; simpl. exists [m]. auto.
    + destruct (IH _ _ H) as [more [V F]]. simpl in V.
      exists (m :: more). rewrite V, <- app_assoc. auto.
Qed.

Lemma Repeat_match_list M it d tr budget sp v sp' :
  Repeat_match M it d tr budget sp = Ok (v, sp') ->
  exists vs, v = VList vs /\ Forall (produced M it) vs.
Proof.
  unfold Repeat_match. intros H. inv_bind H.
  destruct (Repeat_loop_vals M it d _ _ _ E) as [more [V F]].
  inversion H; subst. exists more. simpl in V. rewrite V. auto.
Qed.

(** X8: [Repeat._match] never reports failure: whenever it returns, the
    result is a list, possibly empty, whose entries are values returned
    by the item template, none of them [None]. *)
Theorem Repeat_match_returns_a_list
  (fuel : nat) (it d : template) (tr : bool) (sp sp' : StringPos) (v : value)
  (run : _match fuel (Repeat it d tr) sp = Ok (v, sp')) :
  exists vs, v = VList vs /\ Forall (produced (_match fuel) it) vs.
Proof. exact (Repeat_match_list _ it d tr fuel sp v sp' run). Qed.

(** [Repeat(NUM, ",")] on ["x"]: the empty list, not a failure. *)
Lemma Repeat_match_returns_a_list_witness :
  exists vs, VList [] = VList vs /\ Forall (produced (_match 1) NUM) vs.
Proof.
  apply (Repeat_match_returns_a_list 1 NUM (Fixed "," (Chr ",")) false
           {| s := "x"; pos := 0 |} {| s := "x"; pos := 0 |} (VList [])).
  reflexivity.
Defined.

Lemma Repeat_loop_stuck M it d sp m dm :
  M it sp = Ok (m, sp) -> m <> VNone ->
  M d sp = Ok (dm, sp) -> dm <> VNone ->
  forall budget st,
    r_sp st = sp -> Repeat_loop M it d budget st = Stuck OutOfFuel.
Proof.
  intros Hi Ni Hd Nd. induction budget as [|b IH]; intros st E;
    [reflexivity|].
  rewrite Repeat_loop_step, E, Hi. cbn [bind].
  rewrite (not_None_is_None m Ni), Hd. cbn [bind].
  rewrite (not_None_is_None dm Nd). apply IH. reflexivity.
Qed.

(** X9: when the item template and the delimiter both match without
    consuming anything, the loop of [Repeat._match] makes no progress and
    never exits: whatever the budget of iterations, it is used up. *)
Theorem Repeat_match_no_progress
  (fuel : nat) (it d : template) (tr : bool) (sp : StringPos) (m dm : value)
  (item_empty : _match fuel it sp = Ok (m, sp))
  (item_found : m <> VNone)
  (delimiter_empty : _match fuel d sp = Ok (dm, sp))
  (delimiter_found : dm <> VNone) :
  _match fuel (Repeat it d tr) sp = Stuck OutOfFuel.
Proof.
  rewrite _match_Repeat. unfold Repeat_match.
  rewrite (Repeat_loop_stuck _ it d sp m dm item_empty item_found
             delimiter_empty delimiter_found fuel
             {| r_sp := sp; vals := []; i_revert := pos sp; last_dm := VNone |}
             eq_refl).
  reflexivity.
Qed.

(** [Repeat(Fixed(""), "")] on ["abc"], with a budget of 1000
    iterations. *)
Lemma Repeat_match_no_progress_witness :
  _match 1000 (Repeat NOTHING NOTHING false) {| s := "abc"; pos := 0 |}
  = Stuck OutOfFuel.
Proof.
  apply (Repeat_match_no_progress 1000 NOTHING NOTHING false
           {| s := "abc"; pos := 0 |} (VStr "") (VStr ""));
    solve [reflexivity | discriminate].
Defined.

(* ================================================================== *)
(** ** NumberedList *)

Lemma Append_pair_shape fuel lbl item m :
  produced (_match fuel) (Append [lbl; item]) m ->
  exists a b, m = VTuple [a; b].
Proof.
  intros [N [sp1 [sp2 H]]].
  destruct (Append_loop_shape _ _ _ _ _ _ H) as [E|[ms [E F]]];
    [contradiction|].
  inversion F as [|t1 a l1 l2 _ F1]; subst.
  inversion F1 as [|t2 b l3 l4 _ F2]; subst.
  inversion F2; subst. exists a, b. reflexivity.
Qed.

Lemma pairs_of_tuples vs :
  Forall (fun m => exists a b, m = VTuple [a; b]) vs ->
  exists pairs : list (value * value),
    vs = map (fun ab => VTuple [fst ab; snd ab]) pairs.
Proof.
  induction 1 as [|m vs [a [b ->]] _ [pairs ->]].
  - exists []. reflexivity.
  - exists ((a, b) :: pairs). reflexivity.
Qed.

Lemma mapM_index1_pairs (pairs : list (value * value)) :
  mapM py_index1 (map (fun ab => VTuple [fst ab; snd ab]) pairs)
  = Ok (map snd pairs).
Proof.
  induction pairs as [|[a b] pairs IH]; simpl; auto. rewrite IH. reflexivity.
Qed.

(** X10: [NumberedList._match] reads what the underlying [Repeat] of
    (label, item) pairs reads and keeps the item of each pair: the labels
    are dropped without being looked at, [start_idx] plays no part, and
    indexing the pairs never fails. *)
Theorem NumberedList_match_keeps_the_items
  (fuel : nat) (lbl item d : template) (tr : bool) (start : Z)
  (sp sp' : StringPos) (v : value)
  (run : _match fuel (Repeat (Append [lbl; item]) d tr) sp = Ok (v, sp')) :
  exists pairs : list (value * value),
    v = VList (map (fun ab => VTuple [fst ab; snd ab]) pairs)
    /\ _match fuel (NumberedList (Append [lbl; item]) d tr start) sp
       = Ok (VList (map snd pairs), sp').
Proof.
  destruct (Repeat_match_list _ _ _ _ _ _ _ _ run) as [vs [-> F]].
  assert (T : Forall (fun m => exists a b, m = VTuple [a; b]) vs).
  { eapply Forall_impl; [|exact F]. intros m P.
    exact (Append_pair_shape fuel lbl item m P). }
  destruct (pairs_of_tuples vs T) as [pairs ->].
  exists pairs. split; [reflexivity|].
  cbn [_match]. unfold NumberedList_match.
  rewrite _match_Repeat in run. rewrite run. cbn [bind is_None py_iter].
  rewrite mapM_index1_pairs. reflexivity.
Qed.

(** Labels out of order: ["7. a"] then ["3. b"] gives [["a."; "b."]]. *)
Lemma NumberedList_match_keeps_the_items_witness :
  exists pairs : list (value * value),
    VList [VTuple [VInt 7; VStr "a."]; VTuple [VInt 3; VStr "b."]]
    = VList (map (fun ab => VTuple [fst ab; snd ab]) pairs)
    /\ _match 3
         (NumberedList
            (Append [Affix NOTHING NUM (Some (Fixed ". " (Cat Any (Chr " "))));
                     SENTENCE]) EOL false 1)
         {| s := "7. a." ++ EOL_text ++ "3. b."; pos := 0 |}
       = Ok (VList (map snd pairs),
             {| s := "7. a." ++ EOL_text ++ "3. b."; pos := 11 |}).
Proof.
  apply (NumberedList_match_keeps_the_items 3
           (Affix NOTHING NUM (Some (Fixed ". " (Cat Any (Chr " ")))))
           SENTENCE EOL false 1
           {| s := "7. a." ++ EOL_text ++ "3. b."; pos := 0 |}).
  reflexivity.
Defined.

Lemma range_succ start n :
  range start (Z.of_nat (S n)) = start :: range (start + 1) (Z.of_nat n).
Proof.
  unfold range. rewrite !Nat2Z.id. cbn [seq map].
  rewrite Z.add_0_r. f_equal.
  rewrite <- seq_shift, map_map. apply map_ext. intros i. lia.
Qed.

Lemma numbered_parts sep r_sep r_item xs :
  forall start,
    mapM (fun item =>
            v <- item ;;
            fill (Append [Affix NOTHING Integer (Some (Fixed sep r_sep));
                          Pattern r_item]) v)
      (labelled start (Z.of_nat (List.length xs)) (map VStr xs))
    = if forallb fits (range start (Z.of_nat (List.length xs)))
      then Ok (map VStr (numbered_lines start sep xs))
      else Raise ValueError.
Proof.
  induction xs as [|x xs IH]; intros start; [reflexivity|].
  unfold labelled in *. cbn [List.length]. rewrite range_succ.
  cbn [map zip fst snd mapM forallb py_str]. unfold fits at 1.
  destruct (too_long (str_of_int start)); [reflexivity|].
  cbn [negb andb bind]. rewrite IH.
  destruct (forallb fits (range (start + 1) (Z.of_nat (List.length xs))));
    cbn; [rewrite append_assoc|]; reflexivity.
Qed.

(** X11: with a label template [Suffix(NUM, sep)] and a [Pattern] for the
    items, [NumberedList.fill] of a list of strings writes each string
    after its decimal number, counted from [start_idx], and [sep]; the
    lines are joined by the delimiter, which also ends the text when
    [trailing_delimiter] is set.  That is so when every number of the
    list has at most [max_str_digits] digits; when one has more, [str]
    refuses it and [fill] raises [ValueError]. *)
Theorem NumberedList_fill_numbers_the_items
  (sep d : string) (r_sep r_item r_d : regex) (tr : bool) (start : Z)
  (xs : list string) :
  fill (NumberedList
          (Append [Affix NOTHING Integer (Some (Fixed sep r_sep));
                   Pattern r_item])
          (Fixed d r_d) tr start)
    (VList (map VStr xs))
  = if forallb fits (range start (Z.of_nat (List.length xs)))
    then Ok (VStr (if tr then join d (numbered_lines start sep xs) ++ d
                   else join d (numbered_lines start sep xs)))
    else Raise ValueError.
Proof.
  cbn [fill]. unfold NumberedList_fill.
  cbn [is_None py_len py_iter bind]. rewrite length_map.
  unfold Repeat_fill_iter. cbn [fill_noargs as_str bind].
  rewrite numbered_parts.
  destruct (forallb fits (range start (Z.of_nat (List.length xs))));
    [|reflexivity].
  cbn [bind]. rewrite join_values_strs. reflexivity.
Qed.

(* ================================================================== *)
(** ** Affix *)

Lemma fill_None t : empty_on_None t = true -> fill t VNone = Ok (VStr "").
Proof. destruct t; try discriminate; reflexivity. Qed.

(** X12: [Affix.fill] writes the prefix, the rendering of the content
    and, only when the value is not [None], the suffix: a present value
    gives prefix, content, suffix; [None] over a content that renders it
    as the empty string gives the prefix alone. *)
Theorem Affix_fill_suffix_only_with_a_value
  (pd sd o : string) (pr sr : regex) (c : template) (v : value)
  (present : v <> VNone)
  (content : fill c v = Ok (VStr o))
  (content_class : empty_on_None c = true) :
  fill (Affix (Fixed pd pr) c (Some (Fixed sd sr))) v
  = Ok (VStr (pd ++ o ++ sd))
  /\ fill (Affix (Fixed pd pr) c (Some (Fixed sd sr))) VNone = Ok (VStr pd)
  /\ fill (Affix (Fixed pd pr) c None) v = Ok (VStr (pd ++ o)).
Proof.
  cbn [fill]. unfold Affix_fill. cbn [fill_noargs as_str bind].
  rewrite content, (fill_None c content_class).
  cbn [bind str_add as_str is_None].
  rewrite (not_None_is_None v present), append_empty_r, append_assoc.
  repeat split; reflexivity.
Qed.

(** [Affix("A: ", YES_NO, "!")] on [True] and on [None]. *)
Lemma Affix_fill_suffix_only_with_a_value_witness :
  fill (Affix (Fixed "A: " (literal "A: ")) YES_NO
          (Some (Fixed "!" (Chr "!")))) (VBool true)
  = Ok (VStr "A: Yes!")
  /\ fill (Affix (Fixed "A: " (literal "A: ")) YES_NO
             (Some (Fixed "!" (Chr "!")))) VNone
     = Ok (VStr "A: ").
Proof.
  destruct (Affix_fill_suffix_only_with_a_value "A: " "!" "Yes"
              (literal "A: ") (Chr "!") YES_NO (VBool true))
    as [P [N _]]; [discriminate|reflexivity|reflexivity|].
  split; [exact P|exact N].
Defined.

Lemma rt_Affix_suffix fuel txt pd sd o pr sr c v p :
  reads txt pr p pd ->
  round_trip fuel txt c v (p + len pd) o ->
  reads txt sr (p + len pd + len o) sd ->
  round_trip fuel txt (Affix (Fixed pd pr) c (Some (Fixed sd sr))) v p
    (pd ++ o ++ sd).
Proof.
  intros prefix_reads [N [F M]] suffix_reads. split; [exact N|]. split.
  - cbn [fill]. unfold Affix_fill. cbn [fill_noargs as_str bind].
    rewrite F. cbn [bind str_add as_str].
    rewrite (not_None_is_None v N), append_assoc. reflexivity.
  - rewrite _match_Affix. unfold Affix_match.
    rewrite (Fixed_reads fuel txt pd pr p prefix_reads). cbn [bind is_None].
    rewrite M. cbn [bind]. rewrite (not_None_is_None v N).
    rewrite (Fixed_reads fuel txt sd sr _ suffix_reads). cbn [bind].
    rewrite !len_append. unfold at_. do 3 f_equal. lia.
Qed.

Lemma rt_Affix_plain fuel txt pd o pr c v p :
  reads txt pr p pd ->
  round_trip fuel txt c v (p + len pd) o ->
  round_trip fuel txt (Affix (Fixed pd pr) c None) v p (pd ++ o).
Proof.
  intros prefix_reads [N [F M]]. split; [exact N|]. split.
  - cbn [fill]. unfold Affix_fill. cbn [fill_noargs as_str bind].
    rewrite F. reflexivity.
  - rewrite _match_Affix. unfold Affix_match.
    rewrite (Fixed_reads fuel txt pd pr p prefix_reads). cbn [bind is_None].
    rewrite M. cbn [bind]. rewrite (not_None_is_None v N).
    rewrite len_append. unfold at_. do 3 f_equal. lia.
Qed.

(** X13: the round trip goes through [Affix] when the patterns of its
    prefix and suffix read their own texts: if the accepted pattern of
    the prefix, matched at [p], consumes exactly the prefix text, the
    content round-trips right after it, and the accepted pattern of the
    suffix, matched after the content, consumes exactly the suffix text,
    then the decorated text renders from the value of the content and is
    read back as that value, with the cursor after the suffix.  That the
    texts stand there is not enough: the pattern of [Fixed("a+")] does
    not read ["a+"]. *)
Theorem Affix_round_trip
  (fuel : nat) (txt pd sd o : string) (pr sr : regex) (c : template)
  (v : value) (p : Z)
  (prefix_reads : reads txt pr p pd)
  (content : round_trip fuel txt c v (p + len pd) o)
  (suffix_reads : reads txt sr (p + len pd + len o) sd) :
  round_trip fuel txt (Affix (Fixed pd pr) c (Some (Fixed sd sr))) v p
    (pd ++ o ++ sd).
Proof.
  exact (rt_Affix_suffix fuel txt pd sd o pr sr c v p prefix_reads content
           suffix_reads).
Qed.

(** [Affix("<", NUM, ">")] with 12, in ["<12>"]. *)
Lemma Affix_round_trip_witness :
  fill (Affix (Fixed "<" (Chr "<")) NUM (Some (Fixed ">" (Chr ">")))) (VInt 12)
  = Ok (VStr "<12>")
  /\ _match 0 (Affix (Fixed "<" (Chr "<")) NUM (Some (Fixed ">" (Chr ">"))))
       {| s := "<12>"; pos := 0 |}
     = Ok (VInt 12, {| s := "<12>"; pos := 4 |}).
Proof.
  assert (R : round_trip 0 "<12>"
                (Affix (Fixed "<" (Chr "<")) NUM (Some (Fixed ">" (Chr ">"))))
                (VInt 12) 0 ("<" ++ "12" ++ ">")).
  { apply Affix_round_trip.
    - eexists. split; reflexivity.
    - split; [discriminate|]. split; reflexivity.
    - eexists. split; reflexivity. }
  destruct R as [_ [F M]]. split; [exact F|exact M].
Defined.

(* ================================================================== *)
(** ** Record *)

Lemma Record_parts_skip F D before name t after :
  dict_has D name = false ->
  Record_parts F (before ++ (name, t) :: after) (VDict D)
  = Record_parts F (before ++ after) (VDict D).
Proof.
  intros H. induction before as [|[n f] before IH]; cbn [app Record_parts].
  - cbn [py_contains bind]. rewrite H. reflexivity.
  - rewrite IH. reflexivity.
Qed.

(** X14: a field that is not a key of the mapping contributes nothing to
    [Record.fill], whatever its template: the rendering is the one of the
    record without that field. *)
Theorem Record_fill_skips_absent_fields
  (before after : list (string * template)) (name : string) (t : template)
  (D : list (string * value))
  (absent : dict_has D name = false) :
  fill (Record_ (before ++ (name, t) :: after)) (VDict D)
  = fill (Record_ (before ++ after)) (VDict D).
Proof.
  cbn [fill]. unfold Record_fill. cbn [is_None].
  rewrite (Record_parts_skip fill D before name t after absent).
  reflexivity.
Qed.

(** [Record(a=Affix(NUM, " "), b=NUM).fill({"b": 2})] is ["2"]: the
    field [a] is left out with its decoration. *)
Lemma Record_fill_skips_absent_fields_witness :
  fill (Record_ [("a", Affix NUM (StrObj " ") None); ("b", NUM)])
    (VDict [("b", VInt 2)])
  = Ok (VStr "2").
Proof.
  exact (eq_trans
           (Record_fill_skips_absent_fields [] [("b", NUM)] "a"
              (Affix NUM (StrObj " ") None) [("b", VInt 2)] eq_refl)
           eq_refl).
Defined.

Lemma dict_has_In rec k :
  dict_has rec k = true <-> In k (map fst rec).
Proof.
  induction rec as [|[k' x] rec IH]; simpl; [split; [discriminate|tauto]|].
  destruct (String.eqb_spec k' k); [tauto|].
  rewrite IH. split; [auto|intros [E|I]; [contradiction|exact I]].
Qed.

Lemma dict_set_keys rec k v :
  map fst (dict_set rec k v)
  = if dict_has rec k then map fst rec else (map fst rec ++ [k])%list.
Proof.
  induction rec as [|[k' x] rec IH]; simpl; [reflexivity|].
  destruct (String.eqb_spec k' k); simpl; [congruence|].
  rewrite IH. destruct (dict_has rec k); reflexivity.
Qed.

Lemma dict_set_Forall (P : string * value -> Prop) rec k v :
  Forall P rec -> P (k, v) -> Forall P (dict_set rec k v).
Proof.
  induction 1 as [|[k' x] rec Px Frec IH]; intros Pk; simpl.
  - repeat constructor. exact Pk.
  - destruct (String.eqb k' k); constructor; auto.
Qed.

Lemma dict_set_NoDup rec k v :
  NoDup (map fst rec) -> NoDup (map fst (dict_set rec k v)).
Proof.
  intros ND. rewrite dict_set_keys. destruct (dict_has rec k) eqn:H; auto.
  apply NoDup_app; [exact ND|repeat constructor; simpl; tauto|].
  intros x I [<-|[]]. apply dict_has_In in I. congruence.
Qed.

Lemma Record_loop_keys M names fields :
  (forall n t, In (n, t) fields -> In n names) ->
  forall sp rec v sp',
    Record_loop M fields sp rec = Ok (v, sp') ->
    NoDup (map fst rec) ->
    Forall (fun kv => In (fst kv) names /\ snd kv <> VNone) rec ->
    exists rec',
      v = VDict rec' /\ NoDup (map fst rec')
      /\ Forall (fun kv => In (fst kv) names /\ snd kv <> VNone) rec'.
Proof.
  induction fields as [|[n t] fields IH]; intros HN sp rec v sp' H ND F;
    simpl in H.
  - inversion H; subst. eauto.
  - inv_bind H. destruct x as [m sp1].
    assert (HN' : forall n' t', In (n', t') fields -> In n' names)
      by (intros n' t' I; apply (HN n' t'); right; exact I).
    destruct (is_None m) eqn:N.
    + exact (IH HN' _ _ _ _ H ND F).
    + apply (IH HN' _ _ _ _ H).
      * apply dict_set_NoDup, ND.
      * apply dict_set_Forall; [exact F|]. simpl. split.
        -- apply (HN n t). left. reflexivity.
        -- apply is_None_false, N.
Qed.

Lemma dict_get_not_None rec k :
  Forall (fun kv : string * value => snd kv <> VNone) rec ->
  dict_has rec k = true -> dict_get rec k <> VNone.
Proof.
  induction 1 as [|[k' x] rec Px _ IH]; simpl; [discriminate|].
  destruct (String.eqb k' k); auto.
Qed.

Lemma dict_get_absent rec k : dict_has rec k = false -> dict_get rec k = VNone.
Proof.
  induction rec as [|[k' x] rec IH]; simpl; auto.
  destruct (String.eqb k' k); [discriminate|exact IH].
Qed.

Lemma dict_get_set_same rec k v : dict_get (dict_set rec k v) k = v.
Proof.
  induction rec as [|[k' x] rec IH]; simpl.
  - rewrite String.eqb_refl. reflexivity.
  - destruct (String.eqb k' k) eqn:E; simpl.
    + rewrite String.eqb_refl. reflexivity.
    + rewrite E. exact IH.
Qed.

Lemma dict_has_set_same rec k v : dict_has (dict_set rec k v) k = true.
Proof.
  induction rec as [|[k' x] rec IH]; simpl.
  - rewrite String.eqb_refl. reflexivity.
  - destruct (String.eqb k' k) eqn:E; simpl.
    + rewrite String.eqb_refl. reflexivity.
    + rewrite E. exact IH.
Qed.

Lemma dict_set_other rec k v k' :
  k <> k' ->
  dict_get (dict_set rec k v) k' = dict_get rec k'
  /\ dict_has (dict_set rec k v) k' = dict_has rec k'.
Proof.
  intros N. apply String.eqb_neq in N.
  induction rec as [|[k0 x] rec [IHg IHh]]; simpl.
  - rewrite N. split; reflexivity.
  - destruct (String.eqb_spec k0 k) as [->|Nk]; simpl.
    + rewrite N. split; reflexivity.
    + destruct (String.eqb k0 k'); [split; reflexivity|].
      split; [exact IHg|exact IHh].
Qed.

(** The fields of a record leave the other keys of the mapping alone. *)
Lemma Record_loop_other M name fields :
  ~ In name (map fst fields) ->
  forall sp rec rec' sp',
    Record_loop M fields sp rec = Ok (VDict rec', sp') ->
    dict_get rec' name = dict_get rec name
    /\ dict_has rec' name = dict_has rec name.
Proof.
  induction fields as [|[n t] fields IH]; intros NI sp rec rec' sp' H;
    cbn [Record_loop] in H.
  - inversion H; subst. split; reflexivity.
  - inv_bind H. destruct x as [m sp1].
    assert (NI' : ~ In name (map fst fields))
      by (intros I; apply NI; right; exact I).
    assert (Nn : n <> name) by (intros ->; apply NI; left; reflexivity).
    destruct (IH NI' _ _ _ _ H) as [G Hs]. rewrite G, Hs.
    destruct (is_None m); [split; reflexivity|].
    exact (dict_set_other rec n m name Nn).
Qed.

(** A record of fields [l1 ++ l2] runs [l1], then [l2] from the cursor
    and the mapping [l1] left. *)
Lemma Record_loop_app M l1 l2 :
  forall sp rec v sp',
    Record_loop M (l1 ++ l2)%list sp rec = Ok (v, sp') ->
    exists rec1 sp1,
      Record_loop M l1 sp rec = Ok (VDict rec1, sp1)
      /\ Record_loop M l2 sp1 rec1 = Ok (v, sp').
Proof.
  induction l1 as [|[n t] l1 IH]; intros sp rec v sp' H;
    cbn [app Record_loop] in *.
  - exists rec, sp. split; [reflexivity|exact H].
  - inv_bind H. destruct x as [m sp1]. rewrite E. cbn [bind].
    exact (IH _ _ _ _ H).
Qed.

(** X15: the mapping [Record._match] returns, for fields of distinct
    names, tells which fields matched.  Each key is there once and is the
    name of a declared field.  A field is tried at the cursor where the
    record of the fields declared before it ends, and [rec.get(name)] is
    what its template returned there: the match when it matched, and
    [None], the name being no key of the mapping, when it did not. *)
Theorem Record_match_mapping
  (fuel : nat) (fields : list (string * template)) (sp sp' : StringPos)
  (v : value)
  (names : NoDup (map fst fields))
  (run : _match fuel (Record_ fields) sp = Ok (v, sp')) :
  exists rec,
    v = VDict rec
    /\ NoDup (map fst rec)
    /\ (forall k, dict_has rec k = true -> In k (map fst fields))
    /\ (forall before name t after,
          fields = (before ++ (name, t) :: after)%list ->
          exists earlier sp1 m sp2,
            _match fuel (Record_ before) sp = Ok (VDict earlier, sp1)
            /\ _match fuel t sp1 = Ok (m, sp2)
            /\ dict_get rec name = m
            /\ dict_has rec name = negb (is_None m)).
Proof.
  rewrite _match_Record in run.
  destruct (Record_loop_keys (_match fuel) (map fst fields) fields)
    with (sp := sp) (rec := @nil (string * value)) (v := v) (sp' := sp')
    as [rec [E [ND F]]]; auto; try constructor.
  { intros n t I. apply (in_map fst) in I. exact I. }
  exists rec. split; [exact E|]. split; [exact ND|]. split.
  - intros k H. apply dict_has_In in H. apply in_map_iff in H.
    destruct H as [[k' x] [<- I]].
    rewrite Forall_forall in F. exact (proj1 (F _ I)).
  - intros before name t after Split. subst fields v.
    destruct (Record_loop_app _ _ _ _ _ _ _ run) as [rec1 [sp1 [L1 L2]]].
    cbn [Record_loop] in L2. inv_bind L2. destruct x as [m sp2].
    rewrite map_app in names. cbn [map fst] in names.
    pose proof (NoDup_remove_2 _ _ _ names) as Fresh.
    assert (Absent : dict_has rec1 name = false).
    { destruct (dict_has rec1 name) eqn:H; [|reflexivity]. exfalso.
      destruct (Record_loop_keys (_match fuel) (map fst before) before)
        with (sp := sp) (rec := @nil (string * value)) (v := VDict rec1)
             (sp' := sp1) as [r1 [E1 [_ F1]]]; auto; try constructor.
      { intros n t' I. apply (in_map fst) in I. exact I. }
      inversion E1; subst r1. apply dict_has_In, in_map_iff in H.
      destruct H as [[k x] [K I]]. cbn [fst] in K. subst k.
      rewrite Forall_forall in F1. apply Fresh, in_or_app. left.
      exact (proj1 (F1 _ I)). }
    assert (Later : ~ In name (map fst after))
      by (intros I; apply Fresh, in_or_app; right; exact I).
    destruct (Record_loop_other _ name after Later _ _ _ _ L2) as [G Hs].
    exists rec1, sp1, m, sp2. rewrite _match_Record.
    split; [exact L1|]. split; [eassumption|]. rewrite G, Hs.
    destruct (is_None m) eqn:N.
    + rewrite (is_None_true m N), Absent.
      split; [apply dict_get_absent, Absent|reflexivity].
    + split; [apply dict_get_set_same|apply dict_has_set_same].
Qed.

(** [Record(q="Q", a="A")] on ["A"]: the field [q] did not match and is
    no key; the field [a] matched where [q] left the cursor. *)
Lemma Record_match_mapping_witness :
  exists rec,
    VDict [("a", VStr "A")] = VDict rec
    /\ NoDup (map fst rec)
    /\ (forall k, dict_has rec k = true -> In k ["q"; "a"])
    /\ (forall before name t after,
          [("q", Fixed "Q" (Chr "Q")); ("a", Fixed "A" (Chr "A"))]
          = (before ++ (name, t) :: after)%list ->
          exists earlier sp1 m sp2,
            _match 0 (Record_ before) {| s := "A"; pos := 0 |}
            = Ok (VDict earlier, sp1)
            /\ _match 0 t sp1 = Ok (m, sp2)
            /\ dict_get rec name = m
            /\ dict_has rec name = negb (is_None m)).
Proof.
  apply (Record_match_mapping 0
           [("q", Fixed "Q" (Chr "Q")); ("a", Fixed "A" (Chr "A"))]
           {| s := "A"; pos := 0 |} {| s := "A"; pos := 1 |}).
  - repeat constructor; simpl; intuition discriminate.
  - reflexivity.
Defined.

(* ================================================================== *)
(** ** Option *)

Lemma lookup_unknown vts val :
  (forall k t, In (k, t) vts -> key_eqb k val = false) ->
  lookup vts val = Raise KeyError.
Proof.
  induction vts as [|[k t] vts IH]; intros H; simpl; [reflexivity|].
  rewrite (H k t (or_introl eq_refl)). apply IH.
  intros k' t' I. apply (H k' t'). right. exact I.
Qed.

(** X16: [Option.fill] of a value that is not [None] and equals no
    declared value raises: [KeyError] when the value is hashable,
    [TypeError] when it is not. *)
Theorem Option_fill_unknown_value
  (vts : list (value * template)) (val : value)
  (present : val <> VNone)
  (unknown : forall k t, In (k, t) vts -> key_eqb k val = false) :
  fill (Option vts) val
  = if hashable val then Raise KeyError else Raise TypeError.
Proof.
  cbn [fill]. unfold Option_fill, getitem.
  rewrite (not_None_is_None val present).
  destruct (hashable val); [|reflexivity].
  rewrite (lookup_unknown vts val unknown). reflexivity.
Qed.

(** [YES_NO.fill("maybe")] *)
Lemma Option_fill_unknown_value_witness :
  fill YES_NO (VStr "maybe") = Raise KeyError.
Proof.
  apply (Option_fill_unknown_value
           [(VBool false, Fixed "No" (Cat (Chr "N") (Chr "o")));
            (VBool true, Fixed "Yes" (Cat (Chr "Y") (Cat (Chr "e") (Chr "s"))))]
           (VStr "maybe")); [discriminate|].
  intros k t [E|[E|[]]]; inversion E; reflexivity.
Defined.

Lemma Option_loop_result M vts :
  (forall k t sp sp', In (k, t) vts -> M t sp = Ok (VNone, sp') -> sp' = sp) ->
  forall sp v sp',
    Option_loop M vts sp = Ok (v, sp') ->
    In v (map fst vts) \/ (v = VNone /\ sp' = sp).
Proof.
  induction vts as [|[k t] vts IH]; intros HM sp v sp' H; simpl in H.
  - inversion H; subst. auto.
  - inv_bind H. destruct x as [m sp1]. destruct (is_None m) eqn:N.
    + apply is_None_true in N. subst m.
      rewrite (HM k t sp sp1 (or_introl eq_refl) E) in H.
      destruct (IH (fun k' t' a b I => HM k' t' a b (or_intror I)) _ _ _ H)
        as [I|R]; [left; right; exact I|right; exact R].
    + inversion H; subst. left. left. reflexivity.
Qed.

(** X17: [Option._match] over [Fixed] templates returns one of the
    declared values or fails; when it fails, the cursor is where it was. *)
Theorem Option_match_declared_or_in_place
  (fuel : nat) (vts : list (value * template)) (sp sp' : StringPos) (v : value)
  (all_Fixed : forall k t, In (k, t) vts -> exists d r, t = Fixed d r)
  (run : _match fuel (Option vts) sp = Ok (v, sp')) :
  In v (map fst vts) \/ (v = VNone /\ sp' = sp).
Proof.
  apply (Option_loop_result (_match fuel) vts); [|exact run].
  intros k t a b I H. destruct (all_Fixed k t I) as [d [r ->]].
  exact (plain_leaf_fails_in_place fuel (Fixed d r) a b eq_refl H).
Qed.

(** [YES_NO] on ["Maybe"] fails at 0. *)
Lemma Option_match_declared_or_in_place_witness :
  In VNone [VBool false; VBool true]
  \/ (VNone = VNone
      /\ {| s := "Maybe"; pos := 0 |} = {| s := "Maybe"; pos := 0 |}).
Proof.
  apply (Option_match_declared_or_in_place 0
           [(VBool false, Fixed "No" (Cat (Chr "N") (Chr "o")));
            (VBool true, Fixed "Yes" (Cat (Chr "Y") (Cat (Chr "e") (Chr "s"))))]
           {| s := "Maybe"; pos := 0 |} {| s := "Maybe"; pos := 0 |} VNone);
    [|reflexivity].
  intros k t [E|[E|[]]]; inversion E; eauto.
Defined.

(* ================================================================== *)
(** ** The prompt of [example.py] *)

Lemma example_template_built :
  exists hr qr ar dr,
    example_template
    = Ok (Affix (Fixed example_header hr)
            (Repeat
               (Record_
                  [("question", Affix (Fixed "Q: " qr) SENTENCE (Some EOL));
                   ("answer", Affix (Fixed "A: " ar) YES_NO None)])
               (Fixed (EOL_text ++ EOL_text) dr) false)
            None).
Proof. do 4 eexists. vm_compute. reflexivity. Qed.

Lemma example_row_fill qr ar qa :
  fill (Record_ [("question", Affix (Fixed "Q: " qr) SENTENCE (Some EOL));
                 ("answer", Affix (Fixed "A: " ar) YES_NO None)])
    (example_row qa)
  = Ok (VStr (row_text qa)).
Proof.
  destruct qa as [q [[|]|]]; cbn; rewrite ?append_assoc; reflexivity.
Qed.

Lemma example_rows_fill qr ar rows :
  mapM (fill (Record_
                [("question", Affix (Fixed "Q: " qr) SENTENCE (Some EOL));
                 ("answer", Affix (Fixed "A: " ar) YES_NO None)]))
    (map example_row rows)
  = Ok (map VStr (map row_text rows)).
Proof.
  induction rows as [|qa rows IH]; [reflexivity|].
  cbn [map mapM]. rewrite example_row_fill. cbn [bind]. rewrite IH.
  reflexivity.
Qed.

Lemma fill_Affix p c sfx v :
  fill (Affix p c sfx) v = Affix_fill fill p c sfx v.
Proof. reflexivity. Qed.

Lemma fill_Repeat it d tr v :
  fill (Repeat it d tr) v = Repeat_fill fill it d tr v.
Proof. reflexivity. Qed.

Lemma join_snoc_append d xs a t :
  join d (xs ++ [a ++ t]) = join d (xs ++ [a]) ++ t.
Proof.
  induction xs as [|x xs IH]; [reflexivity|].
  destruct xs as [|y xs].
  - cbn. rewrite !append_assoc. reflexivity.
  - change (join d ((x :: y :: xs) ++ [a ++ t]))
      with (x ++ d ++ join d ((y :: xs) ++ [a ++ t])).
    change (join d ((x :: y :: xs) ++ [a]))
      with (x ++ d ++ join d ((y :: xs) ++ [a])).
    rewrite IH, !append_assoc. reflexivity.
Qed.

(** X18: the template of [example.py] can be built, and for every list of
    context rows, every query and every label, the rendering with the
    answer of the query left to [None] ends with ["A: "], and the
    rendering with the label is that same text followed by ["Yes"] or
    ["No"]: the partial prompt is a prefix of the full one, as the call to
    the completion service needs. *)
Theorem example_prompt_is_a_prefix :
  exists t,
    example_template = Ok t
    /\ forall (context : list (string * option bool)) (query : string)
         (label : bool),
       exists prompt,
         fill t (VList (map example_row (context ++ [(query, None)])))
         = Ok (VStr (prompt ++ "A: "))
         /\ fill t (VList (map example_row (context ++ [(query, Some label)])))
            = Ok (VStr (prompt ++ "A: " ++ (if label then "Yes" else "No"))).
Proof.
  destruct example_template_built as [hr [qr [ar [dr E]]]].
  eexists. split; [exact E|]. intros context query label.
  exists (example_header
          ++ join (EOL_text ++ EOL_text)
               (map row_text context ++ ["Q: " ++ query ++ EOL_text])).
  assert (F : forall a,
             fill (Affix (Fixed example_header hr)
                     (Repeat
                        (Record_
                           [("question",
                             Affix (Fixed "Q: " qr) SENTENCE (Some EOL));
                            ("answer", Affix (Fixed "A: " ar) YES_NO None)])
                        (Fixed (EOL_text ++ EOL_text) dr) false)
                     None)
               (VList (map example_row (context ++ [(query, a)])))
             = Ok (VStr (example_header
                         ++ join (EOL_text ++ EOL_text)
                              (map row_text context
                               ++ [("Q: " ++ query ++ EOL_text) ++ "A: "
                                   ++ answer_text a])))).
  { intros a. rewrite fill_Affix. unfold Affix_fill.
    cbn [fill_noargs as_str bind]. rewrite fill_Repeat. unfold Repeat_fill.
    cbn [fill_noargs as_str bind is_None py_iter].
    rewrite example_rows_fill. cbn [bind]. rewrite join_values_strs.
    cbn [bind str_add as_str]. rewrite map_app. cbn [map].
    unfold row_text. cbn [fst snd]. rewrite !append_assoc. reflexivity. }
  split.
  - rewrite (F None). cbn [answer_text].
    rewrite append_empty_r, join_snoc_append, !append_assoc. reflexivity.
  - rewrite (F (Some label)).
    rewrite join_snoc_append, !append_assoc.
    destruct label; reflexivity.
Qed.

(* ================================================================== *)
(** ** Repeat over a template that never fails *)

Lemma Record_loop_dict M fields :
  forall sp rec v sp',
    Record_loop M fields sp rec = Ok (v, sp') -> exists rec', v = VDict rec'.
Proof.
  induction fields as [|[n t] fields IH]; intros sp rec v sp' H; simpl in H.
  - inversion H; subst. eauto.
  - inv_bind H. destruct x as [m sp1]. exact (IH _ _ _ _ H).
Qed.

(** X19: a [Record] never fails, so a [Repeat] over a [Record] reads at
    least one item wherever it is tried: its result is never the empty
    list, even on a text where no field matches. *)
Theorem Repeat_of_Record_is_never_empty
  (fuel : nat) (fields : list (string * template)) (d : template) (tr : bool)
  (sp sp' : StringPos) (v : value)
  (run : _match fuel (Repeat (Record_ fields) d tr) sp = Ok (v, sp')) :
  exists first rest, v = VList (VDict first :: rest).
Proof.
  rewrite _match_Repeat in run. unfold Repeat_match in run. inv_bind run.
  inversion run; subst. clear run.
  destruct fuel as [|b]; [discriminate|].
  remember (S b) as n eqn:En. rewrite En in E at 2.
  rewrite Repeat_loop_step in E. cbn [r_sp vals] in E.
  inv_bind E. destruct x0 as [m sp1].
  rewrite _match_Record in E0.
  destruct (Record_loop_dict _ _ _ _ _ _ E0) as [first ->].
  cbn [is_None app] in E. inv_bind E. destruct x0 as [dm sp2].
  destruct (is_None dm).
  - inversion E; subst. cbn [vals]. eauto.
  - destruct (Repeat_loop_vals _ _ _ _ _ _ E) as [more [V _]].
    rewrite V. cbn [vals app]. eauto.
Qed.

(** The rows of [example.py] read on the empty text: one empty mapping. *)
Lemma Repeat_of_Record_is_never_empty_witness :
  exists first rest, VList [VDict []] = VList (VDict first :: rest).
Proof.
  apply (Repeat_of_Record_is_never_empty 1
           [("question", Affix (Fixed "Q: " (literal "Q: ")) SENTENCE (Some EOL));
            ("answer", Affix (Fixed "A: " (literal "A: ")) YES_NO None)]
           (Fixed (EOL_text ++ EOL_text) (literal (EOL_text ++ EOL_text))) false
           {| s := ""; pos := 0 |} {| s := ""; pos := 0 |}).
  reflexivity.
Defined.

(* ================================================================== *)
(** ** Repeat: the loop ends when the items make progress *)

Lemma Repeat_loop_ends fuel it d :
  (forall sp1, exists r, _match fuel it sp1 = Ok r) ->
  (forall sp1, exists r, _match fuel d sp1 = Ok r) ->
  (forall sp1 m sp2,
     _match fuel it sp1 = Ok (m, sp2) -> m <> VNone -> pos sp1 < pos sp2) ->
  forall budget st,
    within (r_sp st) ->
    len (s (r_sp st)) - pos (r_sp st) < Z.of_nat budget ->
    exists st', Repeat_loop (_match fuel) it d budget st = Ok st'.
Proof.
  intros Ri Rd Pr. induction budget as [|b IH]; intros st W B.
  - unfold within in W. lia.
  - rewrite Repeat_loop_step.
    destruct (Ri (r_sp st)) as [[m sp1] E]. rewrite E. cbn [bind].
    destruct (is_None m) eqn:N; [eauto|].
    pose proof (Pr _ _ _ E (is_None_false m N)) as P1.
    pose proof (_match_within fuel it _ _ _ E W) as W1.
    destruct (_match_cursor fuel it _ _ _ E) as [T1 _].
    destruct (Rd sp1) as [[dm sp2] E2]. rewrite E2. cbn [bind].
    destruct (is_None dm); [eauto|].
    pose proof (_match_within fuel d _ _ _ E2 W1) as W2.
    destruct (_match_cursor fuel d _ _ _ E2) as [T2 L2].
    apply IH; cbn [r_sp]; [exact W2|]. rewrite T2, T1. lia.
Qed.

(** X20: when every successful item match consumes at least one
    character, and the item and delimiter templates return, the loop of
    [Repeat._match] ends: started inside the text with a budget of
    iterations larger than what is left of the text, it returns. *)
Theorem Repeat_match_ends
  (fuel : nat) (it d : template) (tr : bool) (sp : StringPos)
  (items_return : forall sp1, exists r, _match fuel it sp1 = Ok r)
  (delimiters_return : forall sp1, exists r, _match fuel d sp1 = Ok r)
  (progress : forall sp1 m sp2,
     _match fuel it sp1 = Ok (m, sp2) -> m <> VNone -> pos sp1 < pos sp2)
  (inside : pos sp <= len (s sp))
  (enough : len (s sp) - pos sp < Z.of_nat fuel) :
  exists vs sp', _match fuel (Repeat it d tr) sp = Ok (VList vs, sp').
Proof.
  rewrite _match_Repeat. unfold Repeat_match.
  destruct (Repeat_loop_ends fuel it d items_return delimiters_return
              progress fuel
              {| r_sp := sp; vals := []; i_revert := pos sp; last_dm := VNone |}
              inside enough) as [st' E].
  rewrite E. cbn [bind]. eauto.
Qed.

Lemma Cls_match_progress fuel negated ranges sp1 m sp2 :
  _match fuel (Pattern (Cls negated ranges)) sp1 = Ok (m, sp2) ->
  m <> VNone -> pos sp1 < pos sp2.
Proof.
  cbn [_match]. unfold Pattern_match. intros H N.
  destruct (re_match (Cls negated ranges) (s sp1) (pos sp1)) as [x|] eqn:E.
  - destruct (re_match_sound _ _ _ _ E) as [L _].
    destruct (lang_Cls_inv _ _ _ L) as [a [G _]].
    inversion H; subst. cbn [pos advance]. rewrite G.
    change (len (String a "")) with 1. lia.
  - inversion H; subst. contradiction.
Qed.

(** [Repeat(Pattern("[a-z]"), ",")] on ["a,b,"], with 5 iterations. *)
Lemma Repeat_match_ends_witness :
  exists vs sp',
    _match 5 (Repeat (Pattern (Cls false [("a", "z")%char]))
                (Fixed "," (Chr ",")) false)
      {| s := "a,b,"; pos := 0 |}
    = Ok (VList vs, sp').
Proof.
  apply (Repeat_match_ends 5 (Pattern (Cls false [("a", "z")%char]))
           (Fixed "," (Chr ",")) false {| s := "a,b,"; pos := 0 |}).
  - intros sp1. eexists. reflexivity.
  - intros sp1. eexists. reflexivity.
  - apply Cls_match_progress.
  - discriminate.
  - reflexivity.
Defined.

(* ================================================================== *)
(** ** The prompt of [example.py] is read back *)

Lemma example_template_is : example_template = Ok example_built.
Proof. vm_compute. reflexivity. Qed.

Lemma drop_step txt p a b :
  0 <= p -> drop (Z.to_nat p) txt = a ++ b ->
  drop (Z.to_nat (p + len a)) txt = b.
Proof.
  intros P D. unfold len. rewrite Z2Nat.inj_add, Nat2Z.id by lia.
  rewrite <- drop_drop, D. apply drop_append_length.
Qed.

Lemma literal_rejects txt p d :
  0 <= p -> (forall rest, drop (Z.to_nat p) txt <> d ++ rest) ->
  re_match (literal d) txt p = None.
Proof.
  intros P No. destruct (re_match (literal d) txt p) as [m|] eqn:E;
    [|reflexivity].
  exfalso. destruct (re_match_sound _ _ _ _ E) as [L [rest D]].
  rewrite (drop_clamp txt p P), (lang_literal _ _ L) in D.
  exact (No rest D).
Qed.

(** The body of a sentence is consumed greedily, then its terminator. *)
Lemma sentence_star q :
  body_then_terminator q = true ->
  forall rest budget n,
    (String.length q < budget)%nat ->
    star_loop
      (run (Cls true [(nl, nl); (".", "."); ("?", "?"); ("!", "!")]%char))
      budget (q ++ String nl rest) n None
      (fun s' n' g' =>
         run (Opt (Cls false [(".", "."); ("?", "?"); ("!", "!")]%char))
           s' n' g' finish)
    = Some ((n + String.length q)%nat, None).
Proof.
  induction q as [|c q IH]; intros B rest budget n L;
    destruct budget as [|b]; try (simpl in L; lia).
  - cbn [append String.length]. rewrite Nat.add_0_r.
    rewrite star_loop_S, run_Cls, one_char_cons.
    change (in_class true [(nl, nl); (".", "."); ("?", "?"); ("!", "!")]%char nl)
      with false.
    cbn [or_else]. rewrite run_Opt, run_Cls, one_char_cons.
    change (in_class false [(".", "."); ("?", "?"); ("!", "!")]%char nl)
      with false.
    reflexivity.
  - cbn [body_then_terminator] in B. cbn [append String.length].
    rewrite star_loop_S, run_Cls, one_char_cons. fold (is_body c).
    destruct (is_body c) eqn:Bc.
    + assert (Lt : (n <? S n)%nat = true) by (apply Nat.ltb_lt; lia).
      rewrite Lt, (IH B rest b (S n)) by (simpl in L; lia).
      cbn [or_else]. f_equal. f_equal. lia.
    + apply andb_prop in B. destruct B as [T E].
      destruct q; [|discriminate]. cbn [or_else append String.length].
      rewrite run_Opt, run_Cls, one_char_cons. fold (is_terminator c).
      rewrite T. cbn [or_else finish]. f_equal. f_equal. lia.
Qed.

Lemma sentence_reads txt p q rest :
  is_sentence q = true ->
  0 <= p -> drop (Z.to_nat p) txt = q ++ String nl rest ->
  reads txt
    (Cat (Plus (Cls true [(nl, nl); (".", "."); ("?", "?"); ("!", "!")]%char))
         (Opt (Cls false [(".", "."); ("?", "?"); ("!", "!")]%char)))
    p q.
Proof.
  intros S P D. unfold reads, re_match. rewrite (drop_clamp txt p P), D.
  fold finish. destruct q as [|c q]; [discriminate|].
  cbn [is_sentence] in S. apply andb_prop in S. destruct S as [Bc B].
  cbn [append]. rewrite run_Cat, run_Plus, run_Cls, one_char_cons.
  fold (is_body c). rewrite Bc.
  rewrite (sentence_star q B rest) by (rewrite length_append; simpl; lia).
  eexists. split; [reflexivity|]. cbn [group0 Nat.add].
  exact (take_append (String c q) (String nl rest)).
Qed.

Lemma YES_NO_round_trip fuel txt p b rest :
  0 <= p -> drop (Z.to_nat p) txt = answer_text (Some b) ++ rest ->
  round_trip fuel txt YES_NO (VBool b) p (answer_text (Some b)).
Proof.
  intros P D. destruct b; cbn [answer_text] in *.
  - apply (rt_Option fuel txt [(VBool false, Fixed "No" (literal "No"))]
             (VBool true) "Yes" (literal "Yes") []).
    + discriminate.
    + reflexivity.
    + repeat constructor. cbn [snd]. unfold fails_at.
      apply Fixed_fails_in_place. cbn [s pos at_].
      apply literal_rejects; [exact P|]. intros r E. rewrite D in E.
      discriminate E.
    + exact (literal_reads txt p "Yes" rest P D).
  - apply (rt_Option fuel txt [] (VBool false) "No" (literal "No")
             [(VBool true, Fixed "Yes" (literal "Yes"))]).
    + discriminate.
    + reflexivity.
    + constructor.
    + exact (literal_reads txt p "No" rest P D).
Qed.

Lemma example_question_round_trip fuel txt p q rest :
  is_sentence q = true ->
  0 <= p -> drop (Z.to_nat p) txt = "Q: " ++ q ++ EOL_text ++ rest ->
  round_trip fuel txt example_question (VStr q) p ("Q: " ++ q ++ EOL_text).
Proof.
  intros S P D. unfold example_question, EOL.
  assert (P3 : 0 <= p + len "Q: ") by (pose proof (len_nonneg "Q: "); lia).
  pose proof (drop_step txt p _ _ P D) as D1.
  apply rt_Affix_suffix.
  - exact (literal_reads txt p "Q: " _ P D).
  - apply rt_Pattern; [reflexivity|].
    exact (sentence_reads txt _ q rest S P3 D1).
  - assert (Pq : 0 <= p + len "Q: " + len q)
      by (pose proof (len_nonneg q); lia).
    exact (literal_reads txt _ EOL_text rest Pq (drop_step txt _ _ _ P3 D1)).
Qed.

Lemma example_answer_round_trip fuel txt p b rest :
  0 <= p -> drop (Z.to_nat p) txt = "A: " ++ answer_text (Some b) ++ rest ->
  round_trip fuel txt example_answer (VBool b) p
    ("A: " ++ answer_text (Some b)).
Proof.
  intros P D. unfold example_answer.
  assert (P3 : 0 <= p + len "A: ") by (pose proof (len_nonneg "A: "); lia).
  apply rt_Affix_plain.
  - exact (literal_reads txt p "A: " _ P D).
  - exact (YES_NO_round_trip fuel txt _ b rest P3 (drop_step txt p _ _ P D)).
Qed.

Lemma row_text_parts q b :
  row_text (q, Some b)
  = ("Q: " ++ q ++ EOL_text) ++ ("A: " ++ answer_text (Some b)) ++ "".
Proof.
  unfold row_text. cbn [fst snd].
  rewrite append_empty_r, !append_assoc. reflexivity.
Qed.

Lemma example_row_round_trip fuel txt p q b rest :
  is_sentence q = true ->
  0 <= p -> drop (Z.to_nat p) txt = row_text (q, Some b) ++ rest ->
  round_trip fuel txt example_record (example_row (q, Some b)) p
    (row_text (q, Some b)).
Proof.
  intros S P D. rewrite row_text_parts in *.
  rewrite append_empty_r, !append_assoc in D.
  assert (Pa : 0 <= p + len ("Q: " ++ q ++ EOL_text))
    by (pose proof (len_nonneg ("Q: " ++ q ++ EOL_text)); lia).
  unfold example_record, example_row. cbn [fst snd answer_value].
  apply rt_Record.
  - repeat constructor; simpl; intuition discriminate.
  - reflexivity.
  - apply rt_fields_present; [reflexivity| |].
    + apply (example_question_round_trip fuel txt p q
               ("A: " ++ answer_text (Some b) ++ rest) S P).
      exact D.
    + apply rt_fields_present; [reflexivity| |apply rt_fields_nil].
      apply (example_answer_round_trip fuel txt _ b rest Pa).
      apply (drop_step txt p _ _ P).
      rewrite !append_assoc. exact D.
Qed.

Lemma example_rows_round_trip fuel txt rows :
  rows <> [] ->
  Forall (fun qb => is_sentence (fst qb) = true) rows ->
  forall p,
    0 <= p ->
    drop (Z.to_nat p) txt = join blank_line (map row_text (answered rows)) ->
    round_trip_items fuel txt example_record blank_line (literal blank_line)
      false (map example_row (answered rows)) p
      (join blank_line (map row_text (answered rows))).
Proof.
  induction rows as [|[q b] rows IH]; intros NE F p P D; [contradiction|].
  inversion F as [|x l Sq F']; subst. cbn [fst] in Sq.
  destruct rows as [|[q2 b2] rows].
  - cbn [answered map join fst snd] in *.
    apply rt_items_last.
    + apply (example_row_round_trip fuel txt p q b "" Sq P).
      rewrite append_empty_r. exact D.
    + left. apply literal_rejects.
      * pose proof (len_nonneg (row_text (q, Some b))). lia.
      * intros rest E.
        rewrite (drop_step txt p (row_text (q, Some b)) "" P) in E;
          [discriminate E|].
        rewrite append_empty_r. exact D.
  - change (join blank_line (map row_text (answered ((q, b) :: (q2, b2) :: rows))))
      with (row_text (q, Some b) ++ blank_line
            ++ join blank_line (map row_text (answered ((q2, b2) :: rows))))
      in *.
    change (map example_row (answered ((q, b) :: (q2, b2) :: rows)))
      with (example_row (q, Some b)
            :: map example_row (answered ((q2, b2) :: rows))).
    assert (P1 : 0 <= p + len (row_text (q, Some b)))
      by (pose proof (len_nonneg (row_text (q, Some b))); lia).
    assert (P2 : 0 <= p + len (row_text (q, Some b)) + len blank_line)
      by (pose proof (len_nonneg blank_line); lia).
    pose proof (drop_step txt p _ _ P D) as D1.
    apply rt_items_more.
    + exact (example_row_round_trip fuel txt p q b _ Sq P D).
    + exact (literal_reads txt _ blank_line _ P1 D1).
    + apply IH; [discriminate|exact F'|exact P2|].
      exact (drop_step txt _ _ _ P1 D1).
Qed.

Lemma example_header_reads body :
  reads (example_header ++ body) example_header_pattern 0 example_header.
Proof.
  unfold reads, re_match. rewrite drop_clamp by lia.
  change (Z.to_nat 0) with 0%nat. cbn [drop].
  eexists. split; [vm_compute; reflexivity|]. reflexivity.
Qed.

(** X21: the template of [example.py] reads back the prompts it writes:
    for every non-empty list of rows whose questions are sentences and
    whose answers are booleans, [fill] gives the instruction line and the
    rows separated by blank lines, and [match] on that text returns the
    rows, with the cursor at the end of the text. *)
Theorem example_round_trip
  (fuel : nat) (rows : list (string * bool))
  (some_row : rows <> [])
  (sentences : Forall (fun qb => is_sentence (fst qb) = true) rows)
  (enough : (List.length rows < fuel)%nat) :
  exists t,
    example_template = Ok t
    /\ fill t (VList (map example_row (answered rows)))
       = Ok (VStr (example_text rows))
    /\ _match fuel t {| s := example_text rows; pos := 0 |}
       = Ok (VList (map example_row (answered rows)),
             {| s := example_text rows; pos := len (example_text rows) |})
    /\ match_ fuel t (example_text rows) 0
       = Ok (VList (map example_row (answered rows))).
Proof.
  exists example_built. split; [exact example_template_is|].
  assert (R : round_trip fuel (example_text rows) example_built
                (VList (map example_row (answered rows))) 0
                (example_text rows)).
  { unfold example_built, example_text.
    apply rt_Affix_plain; [apply example_header_reads|].
    assert (P : 0 <= 0 + len example_header)
      by (pose proof (len_nonneg example_header); lia).
    apply rt_Repeat.
    - unfold answered. rewrite !length_map. exact enough.
    - apply (example_rows_round_trip fuel _ rows some_row sentences _ P).
      apply (drop_step _ 0 example_header _ (Z.le_refl 0)). reflexivity. }
  destruct R as [_ [F M]]. split; [exact F|].
  unfold at_ in M. rewrite Z.add_0_l in M. split; [exact M|].
  unfold match_. rewrite M. reflexivity.
Qed.

(** The two context examples of [example.py]. *)
Lemma example_round_trip_witness :
  exists t,
    example_template = Ok t
    /\ match_ 3 t
         (example_text [("Is the sky blue?", true);
                        ("Can fish play basketball?", false)]) 0
       = Ok (VList [VDict [("question", VStr "Is the sky blue?");
                           ("answer", VBool true)];
                    VDict [("question", VStr "Can fish play basketball?");
                           ("answer", VBool false)]]).
Proof.
  destruct (example_round_trip 3
              [("Is the sky blue?", true); ("Can fish play basketball?", false)])
    as [t [B [_ [_ M]]]].
  - discriminate.
  - repeat constructor.
  - simpl. lia.
  - exists t. split; [exact B|exact M].
Defined.
